(** * The SSE streaming client of the chat front end

    A shallow embedding of [streamChat] and [streamChatPublic] (the API
    service module of the front end, [services/api]) together with the
    platform functions they call: [String.prototype.split], [trim],
    [startsWith], [slice], [JSON.parse], [localStorage], [fetch] with an
    [AbortController], [ReadableStream] readers and [window.setTimeout].

    Text is modelled by Rocq strings holding the UTF-8 encoding of the
    JavaScript string: every operation the program performs on text
    (splitting at line feeds, comparing with ASCII literals, cutting an
    ASCII prefix, trimming white space, concatenating) acts on that
    encoding exactly as it acts on the UTF-16 string.

    A stream is a state machine driven by the tasks of the event loop:
    the settling of the promise the asynchronous function awaits, the
    timer of the coalescing buffer, and the caller's cancellation.  The
    state holds the variables of the closure, the point at which the
    function is suspended, and a log of what the stream did to the
    outside: calls of the callbacks, requests, [localStorage].

    The callbacks are observers: they return normally and do not call
    the returned function from within a call.  (The callers, [Chat.vue]
    and [ChatPublic.vue], cancel from a click handler and when the
    component is unmounted.)  Aborting the controller rejects the pending
    [fetch], [json] or [read], as the Fetch standard prescribes. *)

From Stdlib Require Import ZArith NArith List Ascii String Bool Lia DecimalString.
From stdpp Require Import base option gmap strings.
Import ListNotations.
Open Scope string_scope.

(* ===================================================================== *)
(** ** Strings *)
(* ===================================================================== *)

Module Str.

Definition LF : ascii := "010"%char.

Definition code (c : ascii) : N := N_of_ascii c.

(** [s.split('\n')]: the pieces between line feeds; never empty. *)
Fixpoint split (s : string) : list string :=
  match s with
  | EmptyString => [EmptyString]
  | String c r =>
      if Ascii.eqb c LF then EmptyString :: split r
      else match split r with
           | [] => [String c EmptyString]
           | p :: ps => String c p :: ps
           end
  end.

(** The inverse of [split]: pieces joined by single line feeds. *)
Fixpoint join (ps : list string) : string :=
  match ps with
  | [] => EmptyString
  | [p] => p
  | p :: ps' => p ++ String LF (join ps')
  end.

Fixpoint has_LF (s : string) : bool :=
  match s with
  | EmptyString => false
  | String c r => Ascii.eqb c LF || has_LF r
  end.

(** [s.startsWith(p)] *)
Definition startsWith (s p : string) : bool := String.prefix p s.

(** [s.slice(n)] for [0 <= n]. On an argument that starts with [n]
    ASCII characters this cuts the same text from the UTF-8 encoding
    as from the UTF-16 string. *)
Fixpoint slice (n : nat) (s : string) : string :=
  match n, s with
  | O, _ => s
  | S n', String _ r => slice n' r
  | S _, EmptyString => EmptyString
  end.

(** ECMAScript WhiteSpace and LineTerminator code points, by their
    UTF-8 encodings.  One byte: TAB, LF, VT, FF, CR, SP. *)
Definition ws1 (a : N) : bool :=
  ((9 <=? a) && (a <=? 13) || (a =? 32))%N.

(** Two bytes: U+00A0. *)
Definition ws2 (a b : N) : bool := ((a =? 194) && (b =? 160))%N.

(** Three bytes: U+1680, U+2000..U+200A, U+2028, U+2029, U+202F,
    U+205F, U+3000, U+FEFF. *)
Definition ws3 (a b c : N) : bool :=
  ((a =? 225) && (b =? 154) && (c =? 128)
   || (a =? 226) && (b =? 128)
      && ((128 <=? c) && (c <=? 138) || (c =? 168) || (c =? 169) || (c =? 175))
   || (a =? 226) && (b =? 129) && (c =? 159)
   || (a =? 227) && (b =? 128) && (c =? 128)
   || (a =? 239) && (b =? 187) && (c =? 191))%N.

Fixpoint trimStart_list (l : list ascii) : list ascii :=
  match l with
  | [] => []
  | a :: r =>
      if ws1 (code a) then trimStart_list r
      else match r with
           | [] => l
           | b :: r1 =>
               if ws2 (code a) (code b) then trimStart_list r1
               else match r1 with
                    | [] => l
                    | c :: r2 =>
                        if ws3 (code a) (code b) (code c)
                        then trimStart_list r2 else l
                    end
           end
  end.

(** The same scan from the end of the text, on the reversed bytes. *)
Fixpoint trimEnd_rev (l : list ascii) : list ascii :=
  match l with
  | [] => []
  | a :: r =>
      if ws1 (code a) then trimEnd_rev r
      else match r with
           | [] => l
           | b :: r1 =>
               if ws2 (code b) (code a) then trimEnd_rev r1
               else match r1 with
                    | [] => l
                    | c :: r2 =>
                        if ws3 (code c) (code b) (code a)
                        then trimEnd_rev r2 else l
                    end
           end
  end.

(** [s.trim()] *)
Definition trim (s : string) : string :=
  string_of_list_ascii
    (rev (trimEnd_rev (rev (trimStart_list (list_ascii_of_string s))))).

(** The fragments put together. *)
Fixpoint concat (ps : list string) : string :=
  match ps with
  | [] => EmptyString
  | p :: ps' => p ++ concat ps'
  end.

(** A string is truthy when it is not empty. *)
Definition nonempty (s : string) : bool :=
  match s with EmptyString => false | _ => true end.

(** Decimal text of an integer, as a template literal prints it. *)
Definition of_Z (z : Z) : string := NilZero.string_of_int (Z.to_int z).
Definition of_N (n : N) : string := of_Z (Z.of_N n).

End Str.

(* ===================================================================== *)
(** ** JavaScript values and [JSON.parse] *)
(* ===================================================================== *)

(** A JSON number.  An integer literal within the safe range
    [-2^53 .. 2^53] denotes that integer exactly; any other literal is
    kept as written and interpreted by the engine (see [Engine]). *)
Inductive number :=
| NInt (z : Z)
| NDec (lexeme : string).

#[warnings="-register-all"]
Inductive value :=
| VUndefined
| VNull
| VBool (b : bool)
| VNum (n : number)
| VStr (s : string)
| VArr (items : list value)
| VObj (fields : list (string * value)).

(** What the program needs from the engine's floating point numbers:
    whether the double denoted by a literal is non-zero, and its
    [Number::toString].  Nothing is assumed about either. *)
Class Engine := {
  number_truthy : string -> bool;
  number_toString : string -> string
}.

Module JS.

(** The last binding of a key wins, as in an object literal. *)
Fixpoint lookup_field (k : string) (fs : list (string * value)) : option value :=
  match fs with
  | [] => None
  | (k', v) :: r =>
      match lookup_field k r with
      | Some w => Some w
      | None => if String.eqb k k' then Some v else None
      end
  end.

(** Reading a property [v.k] whose name no built-in prototype defines
    ([conversation_id], [event], [data], [detail]).  [None] is the
    TypeError raised on [undefined] and [null]. *)
Definition get (v : value) (k : string) : option value :=
  match v with
  | VUndefined | VNull => None
  | VObj fs => Some (default VUndefined (lookup_field k fs))
  | _ => Some VUndefined
  end.

(** [v === s] for a string literal [s]. *)
Definition is_string (v : value) (s : string) : bool :=
  match v with VStr x => String.eqb x s | _ => false end.

(** Optional chaining [v?.k]. *)
Definition get_opt (v : value) (k : string) : value :=
  default VUndefined (get v k).

Section WithEngine.
Context {E : Engine}.

(** ToBoolean *)
Definition truthy (v : value) : bool :=
  match v with
  | VUndefined | VNull => false
  | VBool b => b
  | VNum (NInt z) => negb (z =? 0)%Z
  | VNum (NDec l) => number_truthy l
  | VStr s => Str.nonempty s
  | VArr _ | VObj _ => true
  end.

Fixpoint join_comma (ps : list string) : string :=
  match ps with
  | [] => EmptyString
  | [p] => p
  | p :: ps' => p ++ "," ++ join_comma ps'
  end.

(** ToString *)
Fixpoint toString (v : value) : string :=
  match v with
  | VUndefined => "undefined"
  | VNull => "null"
  | VBool true => "true"
  | VBool false => "false"
  | VNum (NInt z) => Str.of_Z z
  | VNum (NDec l) => number_toString l
  | VStr s => s
  | VArr items =>
      join_comma
        ((fix elems (l : list value) : list string :=
            match l with
            | [] => []
            | VUndefined :: r | VNull :: r => EmptyString :: elems r
            | x :: r => toString x :: elems r
            end) items)
  | VObj _ => "[object Object]"
  end.

End WithEngine.
End JS.

(** [JSON.parse]: a lexer run over the characters, then a pushdown
    recogniser run over the tokens.  Both are folds, so parsing is total;
    [None] is the SyntaxError. *)
Module JSON.

Inductive token :=
| TLBrace | TRBrace | TLBracket | TRBracket | TColon | TComma
| TString (s : string)
| TNumber (n : number)
| TTrue | TFalse | TNull.

Definition byte (n : N) : ascii := ascii_of_N n.

(** UTF-8 encoding of a code point (surrogates included, as three bytes). *)
Definition utf8 (cp : N) : list ascii :=
  (if cp <? 128 then [byte cp]
   else if cp <? 2048 then
     [byte (192 + cp / 64); byte (128 + cp mod 64)]
   else if cp <? 65536 then
     [byte (224 + cp / 4096); byte (128 + (cp / 64) mod 64); byte (128 + cp mod 64)]
   else
     [byte (240 + cp / 262144); byte (128 + (cp / 4096) mod 64);
      byte (128 + (cp / 64) mod 64); byte (128 + cp mod 64)])%N.

Definition is_high (cu : N) : bool := ((55296 <=? cu) && (cu <=? 56319))%N.
Definition is_low (cu : N) : bool := ((56320 <=? cu) && (cu <=? 57343))%N.

Definition hex_digit (c : ascii) : option N :=
  let n := Str.code c in
  (if (48 <=? n) && (n <=? 57) then Some (n - 48)
   else if (65 <=? n) && (n <=? 70) then Some (n - 55)
   else if (97 <=? n) && (n <=? 102) then Some (n - 87)
   else None)%N.

Definition is_digit (c : ascii) : bool :=
  let n := Str.code c in ((48 <=? n) && (n <=? 57))%N.

(** Characters of literal names and numbers. *)
Definition is_word (c : ascii) : bool :=
  let n := Str.code c in
  (is_digit c || (97 <=? n) && (n <=? 122) || (65 <=? n) && (n <=? 90)
   || (n =? 43) || (n =? 45) || (n =? 46))%N.

(** JSON white space: space, TAB, LF, CR. *)
Definition is_space (c : ascii) : bool :=
  let n := Str.code c in ((n =? 32) || (n =? 9) || (n =? 10) || (n =? 13))%N.

(** The number grammar: an optional minus sign; a zero, or a non-zero
    digit followed by digits; optionally a point and one or more digits;
    optionally an exponent mark, an optional sign and one or more digits. *)
Inductive numstate :=
| NStart | NMinus | NZero | NInteger | NPoint | NFraction | NExp | NExpSign | NExpDigits.

Definition num_step (st : numstate) (c : ascii) : option numstate :=
  let n := Str.code c in
  let e := ((n =? 101) || (n =? 69))%N in
  match st with
  | NStart =>
      if (n =? 45)%N then Some NMinus
      else if (n =? 48)%N then Some NZero
      else if is_digit c then Some NInteger else None
  | NMinus =>
      if (n =? 48)%N then Some NZero
      else if is_digit c then Some NInteger else None
  | NZero =>
      if (n =? 46)%N then Some NPoint else if e then Some NExp else None
  | NInteger =>
      if is_digit c then Some NInteger
      else if (n =? 46)%N then Some NPoint else if e then Some NExp else None
  | NPoint => if is_digit c then Some NFraction else None
  | NFraction =>
      if is_digit c then Some NFraction else if e then Some NExp else None
  | NExp =>
      if ((n =? 43) || (n =? 45))%N then Some NExpSign
      else if is_digit c then Some NExpDigits else None
  | NExpSign => if is_digit c then Some NExpDigits else None
  | NExpDigits => if is_digit c then Some NExpDigits else None
  end.

Fixpoint num_run (st : numstate) (w : list ascii) : option numstate :=
  match w with
  | [] => Some st
  | c :: r => match num_step st c with Some st' => num_run st' r | None => None end
  end.

Definition digits_value (w : list ascii) : Z :=
  fold_left (fun acc c => (10 * acc + Z.of_N (Str.code c - 48))%Z) w 0%Z.

Definition safe (z : Z) : bool := (Z.abs z <=? 9007199254740992)%Z.

Definition number_of_word (w : list ascii) : option number :=
  match num_run NStart w with
  | Some NZero | Some NInteger =>
      let z := match w with
               | c :: r => if (Str.code c =? 45)%N then (- digits_value r)%Z
                           else digits_value w
               | [] => 0%Z
               end in
      Some (if safe z then NInt z else NDec (string_of_list_ascii w))
  | Some NFraction | Some NExpDigits => Some (NDec (string_of_list_ascii w))
  | _ => None
  end.

Definition token_of_word (w : list ascii) : option token :=
  let s := string_of_list_ascii w in
  if String.eqb s "true" then Some TTrue
  else if String.eqb s "false" then Some TFalse
  else if String.eqb s "null" then Some TNull
  else TNumber <$> number_of_word w.

(** Lexer modes.  Accumulated characters are kept in reverse; [hi] is a
    high surrogate written as an escape and not yet paired. *)
Inductive mode :=
| LIdle
| LWord (acc : list ascii)
| LStr (acc : list ascii) (hi : option N)
| LEsc (acc : list ascii) (hi : option N)
| LHex (acc : list ascii) (hi : option N) (digits : list N).

Definition emit (cp : N) (acc : list ascii) : list ascii := rev (utf8 cp) ++ acc.

Definition settle (hi : option N) (acc : list ascii) : list ascii :=
  match hi with Some h => emit h acc | None => acc end.

(** A completed [\uXXXX] escape with code unit [cu]. *)
Definition after_unit (acc : list ascii) (hi : option N) (cu : N) : mode :=
  match hi with
  | Some h =>
      if is_low cu
      then LStr (emit (65536 + (h - 55296) * 1024 + (cu - 56320))%N acc) None
      else if is_high cu then LStr (emit h acc) (Some cu)
      else LStr (emit cu (emit h acc)) None
  | None =>
      if is_high cu then LStr acc (Some cu) else LStr (emit cu acc) None
  end.

Definition idle_step (toks : list token) (c : ascii) : option (mode * list token) :=
  let n := Str.code c in
  if is_space c then Some (LIdle, toks)
  else if (n =? 123)%N then Some (LIdle, TLBrace :: toks)
  else if (n =? 125)%N then Some (LIdle, TRBrace :: toks)
  else if (n =? 91)%N then Some (LIdle, TLBracket :: toks)
  else if (n =? 93)%N then Some (LIdle, TRBracket :: toks)
  else if (n =? 58)%N then Some (LIdle, TColon :: toks)
  else if (n =? 44)%N then Some (LIdle, TComma :: toks)
  else if (n =? 34)%N then Some (LStr [] None, toks)
  else if is_word c then Some (LWord [c], toks)
  else None.

Definition escape (c : ascii) : option N :=
  let n := Str.code c in
  (if (n =? 34) || (n =? 92) || (n =? 47) then Some n
   else if n =? 98 then Some 8
   else if n =? 102 then Some 12
   else if n =? 110 then Some 10
   else if n =? 114 then Some 13
   else if n =? 116 then Some 9
   else None)%N.

Definition lex_step (st : mode * list token) (c : ascii) : option (mode * list token) :=
  let '(m, toks) := st in
  let n := Str.code c in
  match m with
  | LIdle => idle_step toks c
  | LWord acc =>
      if is_word c then Some (LWord (c :: acc), toks)
      else t ← token_of_word (rev acc); idle_step (t :: toks) c
  | LStr acc hi =>
      if (n =? 34)%N
      then Some (LIdle, TString (string_of_list_ascii (rev (settle hi acc))) :: toks)
      else if (n =? 92)%N then Some (LEsc acc hi, toks)
      else if (n <? 32)%N then None
      else Some (LStr (c :: settle hi acc) None, toks)
  | LEsc acc hi =>
      if (n =? 117)%N then Some (LHex acc hi [], toks)
      else e ← escape c; Some (LStr (emit e (settle hi acc)) None, toks)
  | LHex acc hi ds =>
      d ← hex_digit c;
      match ds with
      | [d1; d2; d3] =>
          Some (after_unit acc hi (((d1 * 16 + d2) * 16 + d3) * 16 + d)%N, toks)
      | _ => Some (LHex acc hi (ds ++ [d]), toks)
      end
  end.

Fixpoint lex_run (st : mode * list token) (cs : list ascii) : option (list token) :=
  match cs with
  | c :: r => st' ← lex_step st c; lex_run st' r
  | [] =>
      match st with
      | (LIdle, toks) => Some (rev toks)
      | (LWord acc, toks) => t ← token_of_word (rev acc); Some (rev (t :: toks))
      | _ => None
      end
  end.

Definition lex (s : string) : option (list token) :=
  lex_run (LIdle, []) (list_ascii_of_string s).

(** A container that is waiting for the value being read: an array with
    the items before it, or an object with the fields before it and the
    key of the value (both in reverse). *)
Inductive frame :=
| FArr (items : list value)
| FObj (fields : list (string * value)) (key : string).

Inductive pstate :=
| PValue (stk : list frame)
| PArrStart (stk : list frame)
| PArrSep (items : list value) (stk : list frame)
| PObjStart (stk : list frame)
| PObjKey (fields : list (string * value)) (stk : list frame)
| PObjColon (fields : list (string * value)) (key : string) (stk : list frame)
| PObjSep (fields : list (string * value)) (stk : list frame)
| PDone (v : value).

Definition deliver (v : value) (stk : list frame) : pstate :=
  match stk with
  | [] => PDone v
  | FArr items :: stk' => PArrSep (v :: items) stk'
  | FObj fields key :: stk' => PObjSep ((key, v) :: fields) stk'
  end.

Definition start_value (t : token) (stk : list frame) : option pstate :=
  match t with
  | TLBrace => Some (PObjStart stk)
  | TLBracket => Some (PArrStart stk)
  | TString s => Some (deliver (VStr s) stk)
  | TNumber n => Some (deliver (VNum n) stk)
  | TTrue => Some (deliver (VBool true) stk)
  | TFalse => Some (deliver (VBool false) stk)
  | TNull => Some (deliver VNull stk)
  | _ => None
  end.

Definition parse_step (st : pstate) (t : token) : option pstate :=
  match st with
  | PValue stk => start_value t stk
  | PArrStart stk =>
      match t with
      | TRBracket => Some (deliver (VArr []) stk)
      | _ => start_value t (FArr [] :: stk)
      end
  | PArrSep items stk =>
      match t with
      | TComma => Some (PValue (FArr items :: stk))
      | TRBracket => Some (deliver (VArr (rev items)) stk)
      | _ => None
      end
  | PObjStart stk =>
      match t with
      | TRBrace => Some (deliver (VObj []) stk)
      | TString k => Some (PObjColon [] k stk)
      | _ => None
      end
  | PObjKey fields stk =>
      match t with
      | TString k => Some (PObjColon fields k stk)
      | _ => None
      end
  | PObjColon fields k stk =>
      match t with
      | TColon => Some (PValue (FObj fields k :: stk))
      | _ => None
      end
  | PObjSep fields stk =>
      match t with
      | TComma => Some (PObjKey fields stk)
      | TRBrace => Some (deliver (VObj (rev fields)) stk)
      | _ => None
      end
  | PDone _ => None
  end.

Fixpoint parse_run (st : pstate) (ts : list token) : option value :=
  match ts with
  | t :: r => st' ← parse_step st t; parse_run st' r
  | [] => match st with PDone v => Some v | _ => None end
  end.

(** [JSON.parse(s)] *)
Definition parse (s : string) : option value :=
  ts ← lex s; parse_run (PValue []) ts.

End JSON.


(* ===================================================================== *)
(** ** The stream: state, effects and event-loop tasks *)
(* ===================================================================== *)

(** Values thrown or passed to [onError]. *)
Inductive error :=
| Error (message : string)   (* an Error with this message *)
| TypeError                  (* a property read on null; the message is the engine's *)
| AbortError.                (* the rejection of an aborted request *)

(** Calls of the caller's callbacks. *)
Inductive call :=
| OnToken (token : value)
| OnError (e : error)
| OnComplete (conversationId : value).

(** A [fetch] call: the path after [API_BASE_URL] and the Authorization
    header, if one was set. *)
Record request := { path : string; authorization : option string }.

Inductive variant := Authenticated | Public.

(** The optional callbacks the caller passed. *)
Record callbacks := { has_onError : bool; has_onComplete : bool }.

(** Where the asynchronous function is suspended. *)
Inductive phase :=
| AwaitFetch                                         (* await fetch(...) *)
| AwaitErrorBody (status : N) (statusText : string)  (* await response.json().catch(...) *)
| AwaitRead                                          (* await reader.read() *)
| Settled.                                           (* the function has returned *)

(** The function handed back to the caller. *)
Inductive handle :=
| Noop     (* () => {} *)
| Abort.   (* cancel *)

Record state := {
  kind : variant;
  cbs : callbacks;
  returned : handle;
  (* variables of the closure *)
  visualBuffer : string;
  flushTimeout : bool;           (* a timer handle is stored (handles are non-zero) *)
  aborted : bool;
  buffer : string;
  currentEvent : option string;
  pc : phase;
  (* the platform *)
  timers : nat;                  (* scheduled runs of [flush] not yet started *)
  localStorage : gmap string string;
  requests : list request;
  calls : list call              (* oldest first *)
}.

(** One task of the event loop that concerns the stream.  A transport
    task is the settling of the promise the function awaits; it is
    ignored when the function awaits something else. *)
Inductive task :=
| Response (status : N) (statusText : string) (has_body : bool)
| FetchRejected (reason : option error)   (* [None]: the reason is not an Error *)
| ErrorBody (text : option string)        (* the body read by response.json(); [None]: the read fails *)
| Chunk (text : string)                   (* read() gives a chunk, decoded to [text] *)
| EndOfData                               (* read() gives done *)
| ReadRejected (reason : option error)
| TimerFires
| Cancel.                                 (* the caller invokes the returned function *)

Definition TOKEN_KEY : string := "auth_token".
Definition API_PREFIX : string := "/api/v1".

Definition getToken (ls : gmap string string) : option string := ls !! TOKEN_KEY.
Definition removeToken (ls : gmap string string) : gmap string string := delete TOKEN_KEY ls.

Definition set_visualBuffer (s : string) (st : state) : state :=
  {| kind := kind st; cbs := cbs st; returned := returned st;
     visualBuffer := s; flushTimeout := flushTimeout st; aborted := aborted st;
     buffer := buffer st; currentEvent := currentEvent st; pc := pc st;
     timers := timers st; localStorage := localStorage st;
     requests := requests st; calls := calls st |}.

Definition set_flushTimeout (b : bool) (n : nat) (st : state) : state :=
  {| kind := kind st; cbs := cbs st; returned := returned st;
     visualBuffer := visualBuffer st; flushTimeout := b; aborted := aborted st;
     buffer := buffer st; currentEvent := currentEvent st; pc := pc st;
     timers := n; localStorage := localStorage st;
     requests := requests st; calls := calls st |}.

Definition set_aborted (b : bool) (st : state) : state :=
  {| kind := kind st; cbs := cbs st; returned := returned st;
     visualBuffer := visualBuffer st; flushTimeout := flushTimeout st; aborted := b;
     buffer := buffer st; currentEvent := currentEvent st; pc := pc st;
     timers := timers st; localStorage := localStorage st;
     requests := requests st; calls := calls st |}.

Definition set_buffer (s : string) (st : state) : state :=
  {| kind := kind st; cbs := cbs st; returned := returned st;
     visualBuffer := visualBuffer st; flushTimeout := flushTimeout st; aborted := aborted st;
     buffer := s; currentEvent := currentEvent st; pc := pc st;
     timers := timers st; localStorage := localStorage st;
     requests := requests st; calls := calls st |}.

Definition set_currentEvent (e : option string) (st : state) : state :=
  {| kind := kind st; cbs := cbs st; returned := returned st;
     visualBuffer := visualBuffer st; flushTimeout := flushTimeout st; aborted := aborted st;
     buffer := buffer st; currentEvent := e; pc := pc st;
     timers := timers st; localStorage := localStorage st;
     requests := requests st; calls := calls st |}.

Definition set_pc (p : phase) (st : state) : state :=
  {| kind := kind st; cbs := cbs st; returned := returned st;
     visualBuffer := visualBuffer st; flushTimeout := flushTimeout st; aborted := aborted st;
     buffer := buffer st; currentEvent := currentEvent st; pc := p;
     timers := timers st; localStorage := localStorage st;
     requests := requests st; calls := calls st |}.

Definition set_localStorage (ls : gmap string string) (st : state) : state :=
  {| kind := kind st; cbs := cbs st; returned := returned st;
     visualBuffer := visualBuffer st; flushTimeout := flushTimeout st; aborted := aborted st;
     buffer := buffer st; currentEvent := currentEvent st; pc := pc st;
     timers := timers st; localStorage := ls;
     requests := requests st; calls := calls st |}.

(** A callback is invoked. *)
Definition invoke (c : call) (st : state) : state :=
  {| kind := kind st; cbs := cbs st; returned := returned st;
     visualBuffer := visualBuffer st; flushTimeout := flushTimeout st; aborted := aborted st;
     buffer := buffer st; currentEvent := currentEvent st; pc := pc st;
     timers := timers st; localStorage := localStorage st;
     requests := requests st; calls := calls st ++ [c] |}.

(** [if (onError) onError(e)] and [if (onComplete) onComplete(id)] *)
Definition call_onError (e : error) (st : state) : state :=
  if has_onError (cbs st) then invoke (OnError e) st else st.

Definition call_onComplete (id : value) (st : state) : state :=
  if has_onComplete (cbs st) then invoke (OnComplete id) st else st.

(** [flush], run by the timer. *)
Definition flush (st : state) : state :=
  let st1 :=
    if Str.nonempty (visualBuffer st)
    then set_visualBuffer "" (invoke (OnToken (VStr (visualBuffer st))) st)
    else st in
  set_flushTimeout false (timers st1) st1.

(** [visualBuffer += s; if (!flushTimeout) flushTimeout = window.setTimeout(flush, 30)] *)
Definition append_token (s : string) (st : state) : state :=
  let st1 := set_visualBuffer (visualBuffer st ++ s) st in
  if flushTimeout st1 then st1 else set_flushTimeout true (S (timers st1)) st1.

(** The [catch] block around the whole asynchronous function. *)
Definition catch (reason : option error) (st : state) : state :=
  let e := default (Error "Error desconocido al recibir el stream") reason in
  set_pc Settled (if negb (aborted st) then call_onError e st else st).

(** [response.ok] *)
Definition ok (status : N) : bool := ((200 <=? status) && (status <=? 299))%N.

(** [currentEvent === name] *)
Definition is_event (e : option string) (name : string) : bool :=
  match e with Some x => String.eqb x name | None => false end.

(** [buffer += text; const lines = buffer.split('\n'); buffer = lines.pop() || '']:
    the complete lines, and the new buffer. *)
Definition reassemble (buffer text : string) : list string * string :=
  let lines := Str.split (buffer ++ text) in
  (removelast lines, List.last lines "").

(** The reassembler run over successive fragments: all lines emitted, in
    order, and the buffer left at the end. *)
Fixpoint reassemble_all (buffer : string) (fragments : list string)
    : list string * string :=
  match fragments with
  | [] => ([], buffer)
  | f :: r =>
      let '(lines, rest) := reassemble buffer f in
      let '(lines', rest') := reassemble_all rest r in
      ((lines ++ lines')%list, rest')
  end.

Inductive flow :=
| Continue (st : state)   (* go on with the next line *)
| Return (st : state).    (* [return] from the asynchronous function *)

Section WithEngine.
Context {E : Engine}.

(** [throw new Error(errorData.detail || `Error ${status}: ${statusText}`)] *)
Definition throw_status (status : N) (statusText : string) (errorData : value)
    (st : state) : state :=
  match JS.get errorData "detail" with
  | None => catch (Some TypeError) st
  | Some detail =>
      let message :=
        if JS.truthy detail then JS.toString detail
        else "Error " ++ Str.of_N status ++ ": " ++ statusText in
      catch (Some (Error message)) st
  end.

(** The body of [for (const line of lines)]. *)
Definition process_line (line : string) (st : state) : flow :=
  let trimmedLine := Str.trim line in
  if negb (Str.nonempty trimmedLine) then
    if is_event (currentEvent st) "done"
    then Return (call_onComplete VUndefined st)
    else Continue (set_currentEvent None st)
  else if Str.startsWith trimmedLine "event: " then
    Continue (set_currentEvent (Some (Str.trim (Str.slice 7 trimmedLine))) st)
  else if Str.startsWith trimmedLine "data: " then
    let dataStr := Str.trim (Str.slice 6 trimmedLine) in
    if Str.nonempty dataStr then
      if is_event (currentEvent st) "token" then
        Continue (append_token dataStr st)
      else if is_event (currentEvent st) "done" then
        match JSON.parse dataStr ≫= (fun data => JS.get data "conversation_id") with
        | Some id => Return (call_onComplete id st)
        | None => Return (call_onComplete VUndefined st)
        end
      else
        match JSON.parse dataStr ≫= (fun data =>
                ev ← JS.get data "event"; Some (ev, JS.get_opt data "data")) with
        | Some (ev, payload) =>
            if JS.is_string ev "token" && JS.truthy payload then
              match kind st with
              | Authenticated => Continue (invoke (OnToken payload) st)
              | Public => Continue (append_token (JS.toString payload) st)
              end
            else if JS.is_string ev "done" then
              Return (call_onComplete (JS.get_opt payload "conversation_id") st)
            else Continue st
        | None =>
            if match currentEvent st with
               | None => true
               | Some e => negb (Str.nonempty e)
               end
            then Continue (append_token dataStr st)
            else Continue st
        end
    else Continue st
  else Continue st.

(** The text delivered through [onToken], in order of delivery. *)
Definition token_text (st : state) : string :=
  Str.concat
    (flat_map (fun c => match c with OnToken t => [JS.toString t] | _ => [] end)
       (calls st)).

Fixpoint process_lines (lines : list string) (st : state) : flow :=
  match lines with
  | [] => Continue st
  | line :: rest =>
      match process_line line st with
      | Continue st' => process_lines rest st'
      | Return st' => Return st'
      end
  end.

(** The head of [while (!aborted)]: read again, or leave the loop. *)
Definition loop (st : state) : state :=
  if aborted st then set_pc Settled st else set_pc AwaitRead st.

(** One chunk: reassemble the lines, keep the rest in [buffer], process
    the lines. *)
Definition on_chunk (text : string) (st : state) : state :=
  let '(lines, rest) := reassemble (buffer st) text in
  match process_lines lines (set_buffer rest st) with
  | Continue st2 => loop st2
  | Return st2 => set_pc Settled st2
  end.

(** The continuation of [await fetch(...)] on a response.  In
    [streamChat] the response passes through [authenticatedFetch]. *)
Definition on_response (status : N) (statusText : string) (has_body : bool)
    (st : state) : state :=
  match kind st with
  | Authenticated =>
      if (status =? 401)%N then
        catch (Some (Error "Sesión expirada. Por favor, inicia sesión nuevamente."))
              (set_localStorage (removeToken (localStorage st)) st)
      else if negb (ok status) then set_pc (AwaitErrorBody status statusText) st
      else if negb has_body then
        catch (Some (Error "No se recibió respuesta del servidor")) st
      else loop (set_currentEvent None (set_buffer "" st))
  | Public =>
      if negb (ok status) then set_pc (AwaitErrorBody status statusText) st
      else if negb has_body then
        catch (Some (Error "No se recibió respuesta del servidor")) st
      else loop (set_currentEvent None (set_buffer "" st))
  end.

(** The promise the function awaits is rejected. *)
Definition on_rejected (reason : option error) (st : state) : state :=
  match pc st with
  | AwaitFetch | AwaitRead => catch reason st
  | AwaitErrorBody status statusText => throw_status status statusText (VObj []) st
  | Settled => st
  end.

(** [cancel]: set the flag and abort the controller, which rejects the
    pending [fetch], [json] or [read] with an AbortError. *)
Definition cancel (st : state) : state :=
  match returned st with
  | Noop => st
  | Abort => on_rejected (Some AbortError) (set_aborted true st)
  end.

Definition step (st : state) (t : task) : state :=
  match t, pc st with
  | Response status statusText has_body, AwaitFetch =>
      on_response status statusText has_body st
  | FetchRejected reason, AwaitFetch => on_rejected reason st
  | ErrorBody text, AwaitErrorBody status statusText =>
      match text ≫= JSON.parse with
      | Some errorData => throw_status status statusText errorData st
      | None => on_rejected None st
      end
  | Chunk text, AwaitRead => on_chunk text st
  | EndOfData, AwaitRead => set_pc Settled (call_onComplete VUndefined st)
  | ReadRejected reason, AwaitRead => on_rejected reason st
  | TimerFires, _ =>
      match timers st with
      | S n => flush (set_flushTimeout (flushTimeout st) n st)
      | O => st
      end
  | Cancel, _ => cancel st
  | _, _ => st
  end.

Definition run (script : list task) (st : state) : state :=
  fold_left step script st.

End WithEngine.

(** The state in which the synchronous part of a call leaves the stream. *)
Definition started (k : variant) (c : callbacks) (ls : gmap string string)
    (rs : list request) : state :=
  {| kind := k; cbs := c; returned := Abort;
     visualBuffer := ""; flushTimeout := false; aborted := false;
     buffer := ""; currentEvent := None; pc := AwaitFetch;
     timers := 0; localStorage := ls; requests := rs; calls := [] |}.

Definition bearer (token : option string) : option string :=
  match token with
  | Some t => if Str.nonempty t then Some ("Bearer " ++ t) else None
  | None => None
  end.

(** [streamChat(request, onToken, onError, onComplete)], up to its
    [return]. *)
Definition streamChat (c : callbacks) (ls : gmap string string) : state :=
  match bearer (getToken ls) with
  | None =>
      {| kind := Authenticated; cbs := c; returned := Noop;
         visualBuffer := ""; flushTimeout := false; aborted := false;
         buffer := ""; currentEvent := None; pc := Settled;
         timers := 0; localStorage := ls; requests := [];
         calls := if has_onError c
                  then [OnError (Error "No autenticado. Por favor, inicia sesión.")]
                  else [] |}
  | Some auth =>
      started Authenticated c ls
        [{| path := API_PREFIX ++ "/chat/stream"; authorization := Some auth |}]
  end.

(** [streamChatPublic(request, onToken, onError, onComplete)], up to its
    [return]. *)
Definition streamChatPublic (c : callbacks) (ls : gmap string string) : state :=
  started Public c ls
    [{| path := API_PREFIX ++ "/chat/stream/public";
        authorization := bearer (getToken ls) |}].

Definition start (k : variant) : callbacks -> gmap string string -> state :=
  match k with Authenticated => streamChat | Public => streamChatPublic end.

(* ===================================================================== *)
(** ** What a line does, and what is observed of a stream *)
(* ===================================================================== *)

(** The effect of one line on the stream, as [process_line] decides it. *)
Inductive action :=
| Ignore                       (* nothing *)
| EndEvent                     (* currentEvent = null *)
| SetEvent (name : string)     (* currentEvent = name *)
| Buffer (text : string)       (* append to visualBuffer, schedule a flush *)
| Direct (token : value)       (* onToken(token) at once *)
| Done (conversationId : value).  (* onComplete(conversationId); return *)

Definition perform (a : action) (st : state) : flow :=
  match a with
  | Ignore => Continue st
  | EndEvent => Continue (set_currentEvent None st)
  | SetEvent name => Continue (set_currentEvent (Some name) st)
  | Buffer text => Continue (append_token text st)
  | Direct token => Continue (invoke (OnToken token) st)
  | Done id => Return (call_onComplete id st)
  end.

(** [onError] and [onComplete] are the terminal callbacks. *)
Definition terminal (c : call) : bool :=
  match c with OnToken _ => false | _ => true end.

Definition is_onError (c : call) : bool :=
  match c with OnError _ => true | _ => false end.

Definition is_onComplete (c : call) : bool :=
  match c with OnComplete _ => true | _ => false end.

Definition terminals (st : state) : list call := List.filter terminal (calls st).

(** The conversation ids passed to [onComplete], and the errors passed
    to [onError]. *)
Definition completions (st : state) : list value :=
  flat_map (fun c => match c with OnComplete id => [id] | _ => [] end) (calls st).

Definition errors (st : state) : list error :=
  flat_map (fun c => match c with OnError e => [e] | _ => [] end) (calls st).

(** The tasks that end the transport the function is waiting on: the
    rejection of the pending [fetch] or [read], the body of a failed
    response (read or not), and the end of the data. *)
Definition transport_ends (p : phase) (t : task) : bool :=
  match p, t with
  | AwaitFetch, FetchRejected _ => true
  | AwaitErrorBody _ _, ErrorBody _ => true
  | AwaitRead, EndOfData => true
  | AwaitRead, ReadRejected _ => true
  | _, _ => false
  end.

Section Classify.
Context {E : Engine}.

(** The decision of [process_line], apart from its effect: what a line
    means for a stream of kind [k] whose pending event name is
    [currentEvent].  [process_line_perform] below proves that
    [process_line] performs exactly this action. *)
Definition classify (k : variant) (currentEvent : option string) (line : string)
    : action :=
  let trimmedLine := Str.trim line in
  if negb (Str.nonempty trimmedLine) then
    if is_event currentEvent "done" then Done VUndefined else EndEvent
  else if Str.startsWith trimmedLine "event: " then
    SetEvent (Str.trim (Str.slice 7 trimmedLine))
  else if Str.startsWith trimmedLine "data: " then
    let dataStr := Str.trim (Str.slice 6 trimmedLine) in
    if Str.nonempty dataStr then
      if is_event currentEvent "token" then Buffer dataStr
      else if is_event currentEvent "done" then
        Done (default VUndefined
                (JSON.parse dataStr ≫= (fun data => JS.get data "conversation_id")))
      else
        match JSON.parse dataStr ≫= (fun data =>
                ev ← JS.get data "event"; Some (ev, JS.get_opt data "data")) with
        | Some (ev, payload) =>
            if JS.is_string ev "token" && JS.truthy payload then
              match k with
              | Authenticated => Direct payload
              | Public => Buffer (JS.toString payload)
              end
            else if JS.is_string ev "done" then
              Done (JS.get_opt payload "conversation_id")
            else Ignore
        | None =>
            if match currentEvent with
               | None => true
               | Some e => negb (Str.nonempty e)
               end
            then Buffer dataStr
            else Ignore
        end
    else Ignore
  else Ignore.

End Classify.

(** The stream has not touched these: the fixed parts of the closure,
    the abort flag, the line buffer, the suspension point, the storage
    and the requests made. *)
Definition same_frame (st st' : state) : Prop :=
  kind st' = kind st /\ cbs st' = cbs st /\ returned st' = returned st
  /\ aborted st' = aborted st /\ buffer st' = buffer st /\ pc st' = pc st
  /\ localStorage st' = localStorage st /\ requests st' = requests st.

(** A run of [flush] is scheduled exactly when a handle is stored. *)
Definition timer_ok (st : state) : Prop :=
  timers st = if flushTimeout st then 1 else 0.

(** What holds of every state a stream can reach. *)
Record inv (st : state) : Prop := {
  inv_quiet : pc st <> Settled ->
              terminals st = [] /\ aborted st = false /\ returned st = Abort;
  inv_once : length (terminals st) <= 1;
  inv_exact : pc st = Settled -> aborted st = false ->
              has_onError (cbs st) = true -> has_onComplete (cbs st) = true ->
              length (terminals st) = 1;
  inv_timer : timer_ok st
}.

(** The payload of a data line: what follows the prefix in a trimmed
    line that starts with [data: ], trimmed, unless it is empty. *)
Definition data_payload (line : string) : option string :=
  let trimmedLine := Str.trim line in
  if Str.startsWith trimmedLine "data: " then
    let dataStr := Str.trim (Str.slice 6 trimmedLine) in
    if Str.nonempty dataStr then Some dataStr else None
  else None.

(** The fixed parts of the closure are the same. *)
Definition same_closure (st st' : state) : Prop :=
  kind st' = kind st /\ cbs st' = cbs st /\ returned st' = returned st.

(** [`Error ${response.status}: ${response.statusText}`] *)
Definition status_message (status : N) (statusText : string) : string :=
  "Error " ++ Str.of_N status ++ ": " ++ statusText.

Section ErrorMessage.
Context {E : Engine}.

(** The message for a failed response, in the words of the
    specification: the server-supplied detail when the body carries one,
    else the message made from the status.  [body] is the text of the
    response body, [None] when it cannot be read. *)
Definition error_message (status : N) (statusText : string) (body : option string)
    : string :=
  match body ≫= JSON.parse with
  | Some data =>
      if JS.truthy (JS.get_opt data "detail")
      then JS.toString (JS.get_opt data "detail")
      else status_message status statusText
  | None => status_message status statusText
  end.

(** What a caller observes of a stream, apart from the moments at which
    text is delivered: the text, the completions and the errors. *)
Definition observed (st : state) : string * list value * list error :=
  (token_text st, completions st, errors st).

End ErrorMessage.

(* ===================================================================== *)
(** ** Deliveries of a wire text *)
(* ===================================================================== *)

(** A delivery: chunks arriving, and the timer firing in between. *)
Definition is_delivery (t : task) : bool :=
  match t with Chunk _ | TimerFires => true | _ => false end.

Definition delivery (script : list task) : Prop :=
  forallb is_delivery script = true.

(** The chunks of a script, in order. *)
Definition chunks_of (script : list task) : list string :=
  flat_map (fun t => match t with Chunk text => [text] | _ => [] end) script.

(** The state with its line buffer emptied: what remains when the place
    of the chunk boundaries is forgotten. *)
Definition forget (st : state) : state := set_buffer "" st.

Section LineRuns.
Context {E : Engine}.

(** A delivery seen line by line: [Some line] is the next reassembled
    line reaching the loop body, [None] is the timer firing. *)
Definition line_step (st : state) (t : option string) : state :=
  match t with
  | None => step st TimerFires
  | Some line =>
      match pc st with
      | AwaitRead =>
          match process_line line st with
          | Continue st' => st'
          | Return st' => set_pc Settled st'
          end
      | _ => st
      end
  end.

Definition line_run (ts : list (option string)) (st : state) : state :=
  fold_left line_step ts st.

(** The lines and timer runs that a delivery amounts to, the line
    buffer holding [buffer] at its start. *)
Fixpoint expand (buffer : string) (script : list task) : list (option string) :=
  match script with
  | [] => []
  | Chunk text :: r =>
      let '(lines, rest) := reassemble buffer text in
      (List.map Some lines ++ expand rest r)%list
  | TimerFires :: r => None :: expand buffer r
  | _ :: r => expand buffer r
  end.

(** The lines among line tasks. *)
Definition lines_of (ts : list (option string)) : list string :=
  flat_map (fun t => match t with Some l => [l] | None => [] end) ts.

(** Every state that processing [lines] can end in, the timer firing or
    not before each line and after the last. *)
Fixpoint all_runs (lines : list string) (st : state) : list state :=
  match lines with
  | [] => [st; step st TimerFires]
  | l :: r =>
      (all_runs r (line_step st (Some l))
       ++ all_runs r (line_step (step st TimerFires) (Some l)))%list
  end.

End LineRuns.

Definition flow_map (f : state -> state) (r : flow) : flow :=
  match r with Continue st => Continue (f st) | Return st => Return (f st) end.

Definition is_int (z : Z) (v : value) : bool :=
  match v with VNum (NInt x) => (x =? z)%Z | _ => false end.

Definition is_undefined (v : value) : bool :=
  match v with VUndefined => true | _ => false end.

Section Shown.
Context {E : Engine}.

(** The stream has delivered [text], completed once with an id that
    passes [id], and reported no error. *)
Definition shown (text : string) (id : value -> bool) (st : state) : bool :=
  String.eqb (token_text st) text
  && match completions st with [v] => id v | _ => false end
  && match errors st with [] => true | _ => false end.

End Shown.

(* ===================================================================== *)
(** ** Example inputs *)
(* ===================================================================== *)

(** An engine to run examples with.  No example contains a number
    outside the safe integers, so the choice does not matter. *)
Definition example_engine : Engine :=
  {| number_truthy := fun _ => true; number_toString := fun l => l |}.

(** The double quote character, as a string. *)
Definition dq : string := String "034"%char EmptyString.

(** A wire text: the given lines, each ended by a line feed. *)
Fixpoint wire (lines : list string) : string :=
  match lines with
  | [] => EmptyString
  | l :: r => l ++ String Str.LF (wire r)
  end.

Definition both : callbacks := {| has_onError := true; has_onComplete := true |}.

Definition logged_in : gmap string string := {[ TOKEN_KEY := "jwt" ]}.

(** A JSON string literal without escapes. *)
Definition quoted (s : string) : string := dq ++ s ++ dq.

(** The named-event wire text of the specification. *)
Definition named_wire : string :=
  wire ["event: token"; "data: Hello"; "";
        "event: token"; "data:  world"; "";
        "event: done"; "data: {" ++ quoted "conversation_id" ++ ": 42}"; ""].

(** The legacy wire text of the specification. *)
Definition legacy_wire : string :=
  wire ["data: {" ++ quoted "event" ++ ":" ++ quoted "token" ++ ","
                  ++ quoted "data" ++ ":" ++ quoted "Hi" ++ "}"; "";
        "data: {" ++ quoted "event" ++ ":" ++ quoted "done" ++ ","
                  ++ quoted "data" ++ ":{}}"; ""].

(** The same content as [legacy_wire], in the named-event form. *)
Definition legacy_as_named : string :=
  wire ["event: token"; "data: Hi"; ""; "event: done"; "data: {}"; ""].

(** Error bodies. *)
Definition overloaded_body : string :=
  "{" ++ quoted "detail" ++ ":" ++ quoted "server overloaded" ++ "}".

Definition revoked_body : string :=
  "{" ++ quoted "detail" ++ ":" ++ quoted "token revoked" ++ "}".

(* ===================================================================== *)
(** ** The rest of the API service: credentials and requests *)
(* ===================================================================== *)

(** [setToken(token)] *)
Definition setToken (token : string) (ls : gmap string string) : gmap string string :=
  <[TOKEN_KEY := token]> ls.

(** [isAuthenticated()]: [getToken() !== null] *)
Definition isAuthenticated (ls : gmap string string) : bool :=
  match getToken ls with Some _ => true | None => false end.

(** [logout()] *)
Definition logout (ls : gmap string string) : gmap string string := removeToken ls.

(** What the server, or the network, answers to a request.  [body] is the
    text read by [response.json()], [None] when reading it fails. *)
Inductive reply :=
| NoReply (reason : option error)                       (* fetch rejects *)
| Reply (status : N) (statusText : string) (body : option string).

(** Why a promise of the service is rejected. *)
Inductive rejection :=
| Err (e : error)                      (* an error thrown by the service *)
| FetchFailed (reason : option error)  (* the rejection of [fetch], passed on *)
| BodyRejected.                        (* the rejection of [response.json()], passed on *)

Inductive outcome :=
| Resolved (v : value)
| Rejected (r : rejection).

Section Service.
Context {E : Engine}.

(** [handleResponse(response)] *)
Definition handleResponse (status : N) (statusText : string) (body : option string)
    : outcome :=
  if negb (ok status) then
    let errorData :=
      match body ≫= JSON.parse with
      | Some data => data
      | None => VObj [("detail", VStr (status_message status statusText))]
      end in
    match JS.get errorData "detail" with
    | None => Rejected (Err TypeError)
    | Some detail =>
        let message :=
          if JS.truthy detail then detail
          else if JS.truthy (JS.get_opt errorData "error")
               then JS.get_opt errorData "error"
               else VStr ("Error " ++ Str.of_N status) in
        Rejected (Err (Error (JS.toString message)))
    end
  else
    match body ≫= JSON.parse with
    | Some data => Resolved data
    | None => Rejected BodyRejected
    end.

(** The request [authenticatedFetch(endpoint)] makes, [ls] being the
    storage when it is called. *)
Definition authenticatedFetch_request (ls : gmap string string) (endpoint : string)
    : request :=
  {| path := API_PREFIX ++ endpoint; authorization := bearer (getToken ls) |}.

(** The rest of an authenticated call, [ls] being the storage when the
    answer arrives: [authenticatedFetch] takes the answer, the caller
    passes it to [handleResponse].  This is the body of [getCurrentUser],
    [ingestDocument], [listDocuments], [getLatestMessages],
    [getConversationMessages] and [getConversations]. *)
Definition authenticated_call (ls : gmap string string) (r : reply)
    : gmap string string * outcome :=
  match r with
  | NoReply reason => (ls, Rejected (FetchFailed reason))
  | Reply status statusText body =>
      if (status =? 401)%N then
        (removeToken ls,
         Rejected (Err (Error "Sesión expirada. Por favor, inicia sesión nuevamente.")))
      else (ls, handleResponse status statusText body)
  end.

(** A call through plain [fetch]: [register], [healthCheck],
    [healthCheckDb]. *)
Definition plain_call (r : reply) : outcome :=
  match r with
  | NoReply reason => Rejected (FetchFailed reason)
  | Reply status statusText body => handleResponse status statusText body
  end.

(** [uploadDocument(file)]: the request it makes, if any. *)
Definition uploadDocument_request (ls : gmap string string) : option request :=
  match getToken ls with
  | Some token =>
      if Str.nonempty token
      then Some {| path := API_PREFIX ++ "/documents/upload";
                   authorization := Some ("Bearer " ++ token) |}
      else None
  | None => None
  end.

(** [uploadDocument(file)]: its result, [r] answering the request when
    one is made. *)
Definition uploadDocument (ls : gmap string string) (r : reply) : outcome :=
  match uploadDocument_request ls with
  | None => Rejected (Err (Error "No autenticado. Por favor, inicia sesión."))
  | Some _ => plain_call r
  end.

(** [login(credentials)]: the storage and the result, [ls] being the
    storage when the answer arrives.  [localStorage.setItem] stores the
    string conversion of what it is given. *)
Definition login (ls : gmap string string) (r : reply) : gmap string string * outcome :=
  match plain_call r with
  | Resolved token =>
      match JS.get token "access_token" with
      | Some access_token => (setToken (JS.toString access_token) ls, Resolved token)
      | None => (ls, Rejected (Err TypeError))
      end
  | Rejected why => (ls, Rejected why)
  end.

(** The endpoints of the authenticated calls. *)
Definition getCurrentUser_endpoint : string := "/auth/me".
Definition listDocuments_endpoint : string := "/documents/".
Definition getConversations_endpoint : string := "/chat/conversations".
Definition ingestDocument_endpoint (documentId : Z) : string :=
  "/documents/" ++ Str.of_Z documentId ++ "/ingest".
Definition getLatestMessages_endpoint (page pageSize : Z) : string :=
  "/chat/messages/latest?page=" ++ Str.of_Z page ++ "&page_size=" ++ Str.of_Z pageSize.
Definition getConversationMessages_endpoint (conversationId page pageSize : Z) : string :=
  "/chat/conversations/" ++ Str.of_Z conversationId ++ "/messages?page="
  ++ Str.of_Z page ++ "&page_size=" ++ Str.of_Z pageSize.

End Service.

(* ===================================================================== *)
(** ** The navigation guard *)
(* ===================================================================== *)

Inductive route := RChatPublic | RChat | RDocuments | RAuth.

(** [meta.requiresAuth] of the route table. *)
Definition requiresAuth (r : route) : bool :=
  match r with RChat | RDocuments => true | RChatPublic | RAuth => false end.

(** Where a navigation goes: a route of the table, or a location that
    matches no route (its [name] is undefined and its [meta] empty). *)
Inductive location :=
| Named (r : route)
| Unmatched.

(** What the guard tells the router. *)
Inductive verdict :=
| Proceed                 (* next() *)
| Redirect (r : route).   (* next({ name: ... }) *)

(** [router.beforeEach((to, from, next) => ...)] *)
Definition beforeEach (ls : gmap string string) (to : location) : verdict :=
  let requires := match to with Named r => requiresAuth r | Unmatched => false end in
  if requires && negb (isAuthenticated ls) then Redirect RAuth
  else if match to with Named RAuth => true | _ => false end && isAuthenticated ls
       then Redirect RChat
       else Proceed.

(** A navigation: the guard runs, and runs again on each redirection;
    [fuel] bounds the redirections followed.  [None]: still redirected
    when the fuel is spent. *)
Fixpoint navigate (fuel : nat) (ls : gmap string string) (to : location)
    : option location :=
  match beforeEach ls to with
  | Proceed => Some to
  | Redirect r =>
      match fuel with
      | O => None
      | S fuel' => navigate fuel' ls (Named r)
      end
  end.

(* ===================================================================== *)
(** ** Text delivered and text waiting *)
(* ===================================================================== *)

Section Pending.
Context {E : Engine}.

(** The text delivered so far, followed by the text waiting in the
    coalescing buffer. *)
Definition pending (st : state) : string := token_text st ++ visualBuffer st.

(** Two states that differ at most in how far the coalescing buffer has
    been delivered. *)
Definition same_but_timing (x y : state) : Prop :=
  kind x = kind y /\ cbs x = cbs y /\ returned x = returned y
  /\ aborted x = aborted y /\ buffer x = buffer y
  /\ currentEvent x = currentEvent y /\ pc x = pc y
  /\ localStorage x = localStorage y /\ requests x = requests y
  /\ pending x = pending y
  /\ completions x = completions y /\ errors x = errors y.

(** Text waits in the buffer only while a run of [flush] is scheduled. *)
Definition scheduled (st : state) : Prop :=
  Str.nonempty (visualBuffer st) = true -> 0 < timers st.

End Pending.

(* ===================================================================== *)
(** ** The documents view: sizes *)
(* ===================================================================== *)

(** Two decimal digits. *)
Definition two_digits (r : Z) : string :=
  if (r <? 10)%Z then "0" ++ Str.of_Z r else Str.of_Z r.

(** [(num / den).toFixed(2)] for a quotient that is not negative, taken
    exactly: the nearest number of hundredths, the larger one when two
    are as near, then its digits with the point before the last two. *)
Definition hundredths (num den : Z) : Z := ((200 * num + den) / (2 * den))%Z.

Definition toFixed2 (num den : Z) : string :=
  let n := hundredths num den in
  Str.of_Z (n / 100) ++ "." ++ two_digits (n mod 100).

(** [formatearTamaño(bytes)] for a whole number of bytes within the safe
    integers, where the divisions by powers of two are exact. *)
Definition formatearTamaño (bytes : Z) : string :=
  if (bytes <? 1024)%Z then Str.of_Z bytes ++ " B"
  else if (bytes <? 1024 * 1024)%Z then toFixed2 bytes 1024 ++ " KB"
  else toFixed2 bytes (1024 * 1024) ++ " MB".

(* ===================================================================== *)
(** ** The login page *)
(* ===================================================================== *)

(** [s.length]: the number of UTF-16 code units of the text, read off
    its UTF-8 encoding: one for each character, two for each character
    encoded in four bytes. *)
Fixpoint utf16_length (s : string) : nat :=
  match s with
  | EmptyString => 0
  | String c r =>
      let n := Str.code c in
      ((if (128 <=? n)%N && (n <? 192)%N then 0
        else if (240 <=? n)%N then 2 else 1) + utf16_length r)%nat
  end.

(** The messages of the errors the engine makes: a TypeError, an
    AbortError, the rejection of [fetch] or of [response.json()]. *)
Class Wording := { engine_message : rejection -> string }.

(** [err instanceof Error ? err.message : fallback] *)
Definition message_or `{Wording} (fallback : string) (why : rejection) : string :=
  match why with
  | Err (Error m) => m
  | FetchFailed (Some (Error m)) => m
  | FetchFailed None => fallback
  | _ => engine_message why
  end.

Record auth_view := {
  isLogin : bool;
  loading : bool;
  error_text : string;
  login_username : string;
  login_password : string;
  register_username : string;
  register_email : string;
  register_password : string;
  confirmPassword : string
}.

Definition set_error (msg : string) (v : auth_view) : auth_view :=
  {| isLogin := isLogin v; loading := false; error_text := msg;
     login_username := login_username v; login_password := login_password v;
     register_username := register_username v; register_email := register_email v;
     register_password := register_password v; confirmPassword := confirmPassword v |}.

(** What a handler of the page has done when it returns: the view, the
    storage, the requests made, and where [router.push({ name: 'chat' })]
    landed, if it was called. *)
Record auth_done := {
  a_view : auth_view;
  a_storage : gmap string string;
  a_requests : list request;
  a_landed : option (option location)
}.

Definition login_request : request :=
  {| path := API_PREFIX ++ "/auth/login"; authorization := None |}.

Definition register_request : request :=
  {| path := API_PREFIX ++ "/auth/register"; authorization := None |}.

Section AuthPage.
Context {E : Engine} {W : Wording}.

(** [handleLogin], [r] answering the login request. *)
Definition handleLogin (v : auth_view) (ls : gmap string string) (r : reply)
    : auth_done :=
  if negb (Str.nonempty (login_username v)) || negb (Str.nonempty (login_password v))
  then {| a_view := {| isLogin := isLogin v; loading := loading v;
                       error_text := "Por favor completa todos los campos";
                       login_username := login_username v;
                       login_password := login_password v;
                       register_username := register_username v;
                       register_email := register_email v;
                       register_password := register_password v;
                       confirmPassword := confirmPassword v |};
          a_storage := ls; a_requests := []; a_landed := None |}
  else
    match login ls r with
    | (ls', Resolved _) =>
        {| a_view := set_error "" v; a_storage := ls';
           a_requests := [login_request];
           a_landed := Some (navigate 1 ls' (Named RChat)) |}
    | (ls', Rejected why) =>
        {| a_view := set_error (message_or "Error al iniciar sesión" why) v;
           a_storage := ls'; a_requests := [login_request]; a_landed := None |}
    end.

(** The checks of [handleRegister]: the message shown, if one fails. *)
Definition register_check (v : auth_view) : option string :=
  if negb (Str.nonempty (register_username v))
     || negb (Str.nonempty (register_email v))
     || negb (Str.nonempty (register_password v))
  then Some "Por favor completa todos los campos"
  else if negb (String.eqb (register_password v) (confirmPassword v))
  then Some "Las contraseñas no coinciden"
  else if (utf16_length (register_password v) <? 6)%nat
  then Some "La contraseña debe tener al menos 6 caracteres"
  else None.

(** [handleRegister], [r1] answering the registration and [r2] the login
    that follows it. *)
Definition handleRegister (v : auth_view) (ls : gmap string string) (r1 r2 : reply)
    : auth_done :=
  match register_check v with
  | Some msg =>
      {| a_view := {| isLogin := isLogin v; loading := loading v; error_text := msg;
                      login_username := login_username v;
                      login_password := login_password v;
                      register_username := register_username v;
                      register_email := register_email v;
                      register_password := register_password v;
                      confirmPassword := confirmPassword v |};
         a_storage := ls; a_requests := []; a_landed := None |}
  | None =>
      match plain_call r1 with
      | Rejected why =>
          {| a_view := set_error (message_or "Error al registrar usuario" why) v;
             a_storage := ls; a_requests := [register_request]; a_landed := None |}
      | Resolved _ =>
          match login ls r2 with
          | (ls', Resolved _) =>
              {| a_view := set_error "" v; a_storage := ls';
                 a_requests := [register_request; login_request];
                 a_landed := Some (navigate 1 ls' (Named RChat)) |}
          | (ls', Rejected why) =>
              {| a_view := set_error (message_or "Error al registrar usuario" why) v;
                 a_storage := ls'; a_requests := [register_request; login_request];
                 a_landed := None |}
          end
      end
  end.

End AuthPage.

(* ===================================================================== *)
(** ** The chat views: messages *)
(* ===================================================================== *)

(** A [Date]: made from a text ([new Date(text)]), or the time of the
    n-th reading of the clock by the view ([new Date()]). *)
Inductive instant :=
| DateOf (text : string)
| Now (reading : nat).

Module Msg.
Record Mensaje := {
  id : Z;
  texto : string;
  esUsuario : bool;
  timestamp : instant;
  cargando : option bool     (* [None]: the property is absent *)
}.
End Msg.
Abbreviation Mensaje := Msg.Mensaje.

(** Responses are taken to have their declared types. *)
Record MessageResponse := {
  msg_id : Z;
  msg_role : string;
  msg_content : string;
  msg_created_at : string
}.

Record MessagesResponse := {
  messages : list MessageResponse;
  has_more : bool;
  conversation_id : option Z   (* [None]: absent or null *)
}.

(** [convertirMensaje] *)
Definition convertirMensaje (msg : MessageResponse) : Mensaje :=
  {| Msg.id := msg_id msg; Msg.texto := msg_content msg;
     Msg.esUsuario := String.eqb (msg_role msg) "user";
     Msg.timestamp := DateOf (msg_created_at msg); Msg.cargando := None |}.

(** A number used as a condition: neither absent nor zero. *)
Definition truthy_id (i : option Z) : bool :=
  match i with Some z => negb (z =? 0)%Z | None => false end.

Module ChatView.

Definition PAGE_SIZE : Z := 10.

Record view := {
  mensajes : list Mensaje;
  hasMoreMessages : bool;
  currentPage : Z;
  conversationId : option Z;
  isLoadingMore : bool;
  cargandoMensajes : bool;
  clock : nat                  (* readings of the clock so far *)
}.

Definition bienvenida (v : view) : view :=
  {| mensajes := [{| Msg.id := -1;
                     Msg.texto := "Hola, soy tu asistente inteligente. ¿En qué puedo ayudarte?";
                     Msg.esUsuario := false; Msg.timestamp := Now (clock v);
                     Msg.cargando := None |}];
     hasMoreMessages := hasMoreMessages v; currentPage := currentPage v;
     conversationId := conversationId v; isLoadingMore := isLoadingMore v;
     cargandoMensajes := false; clock := S (clock v) |}.

(** [cargarMensajesIniciales], [answer] being what
    [getLatestMessages(1, PAGE_SIZE)] resolves with, [None] when it is
    rejected. *)
Definition cargarMensajesIniciales (v : view) (ls : gmap string string)
    (answer : option MessagesResponse) : view :=
  if negb (isAuthenticated ls) then v
  else
    match answer with
    | Some response =>
        match messages response with
        | [] => bienvenida v
        | _ =>
            {| mensajes := rev (List.map convertirMensaje (messages response));
               hasMoreMessages := has_more response;
               currentPage := 1;
               conversationId := if truthy_id (conversation_id response)
                                 then conversation_id response
                                 else conversationId v;
               isLoadingMore := isLoadingMore v;
               cargandoMensajes := false; clock := clock v |}
        end
    | None => bienvenida v
    end.

(** The endpoint [cargarMasMensajes] asks, if it asks. *)
Definition cargarMasMensajes_endpoint (v : view) (ls : gmap string string)
    : option string :=
  if isLoadingMore v || negb (hasMoreMessages v) || negb (isAuthenticated ls)
  then None
  else
    let nextPage := (currentPage v + 1)%Z in
    match conversationId v with
    | Some c =>
        if (c =? 0)%Z then Some (getLatestMessages_endpoint nextPage PAGE_SIZE)
        else Some (getConversationMessages_endpoint c nextPage PAGE_SIZE)
    | None => Some (getLatestMessages_endpoint nextPage PAGE_SIZE)
    end.

(** [cargarMasMensajes], [answer] being what the request resolves with,
    [None] when it is rejected. *)
Definition cargarMasMensajes (v : view) (ls : gmap string string)
    (answer : option MessagesResponse) : view :=
  match cargarMasMensajes_endpoint v ls with
  | None => v
  | Some _ =>
      match answer with
      | Some response =>
          match messages response with
          | [] =>
              {| mensajes := mensajes v; hasMoreMessages := false;
                 currentPage := currentPage v; conversationId := conversationId v;
                 isLoadingMore := false; cargandoMensajes := cargandoMensajes v;
                 clock := clock v |}
          | _ =>
              {| mensajes := (rev (List.map convertirMensaje (messages response))
                              ++ mensajes v)%list;
                 hasMoreMessages := has_more response;
                 currentPage := (currentPage v + 1)%Z;
                 conversationId := if truthy_id (conversation_id response)
                                   then conversation_id response
                                   else conversationId v;
                 isLoadingMore := false; cargandoMensajes := cargandoMensajes v;
                 clock := clock v |}
          end
      | None =>
          {| mensajes := mensajes v; hasMoreMessages := hasMoreMessages v;
             currentPage := currentPage v; conversationId := conversationId v;
             isLoadingMore := false; cargandoMensajes := cargandoMensajes v;
             clock := clock v |}
      end
  end.

(** Pages loaded one after the other. *)
Definition cargarPaginas (v : view) (ls : gmap string string)
    (answers : list MessagesResponse) : view :=
  fold_left (fun w p => cargarMasMensajes w ls (Some p)) answers v.

End ChatView.

(* ===================================================================== *)
(** ** The public chat view *)
(* ===================================================================== *)

(** [mensajes.findIndex(m => m.id === wanted)] *)
Fixpoint findIndex (wanted : Z) (ms : list Mensaje) : option nat :=
  match ms with
  | [] => None
  | m :: rest =>
      if (Msg.id m =? wanted)%Z then Some 0%nat
      else option_map S (findIndex wanted rest)
  end.

(** [error.message] *)
Definition message_of `{Wording} (e : error) : string :=
  match e with
  | Error m => m
  | _ => engine_message (Err e)
  end.

(** [text || fallback] *)
Definition or_else (text fallback : string) : string :=
  if Str.nonempty text then text else fallback.

(** The calls that write into the loading message are those of
    [onToken] and [onError]; the error of the last of them, if it is a
    call of [onError]. *)
Definition writes (cs : list call) : list call :=
  List.filter (fun c => negb (is_onComplete c)) cs.

Definition last_report (cs : list call) : option error :=
  match List.last (writes cs) (OnComplete VUndefined) with
  | OnError e => Some e
  | _ => None
  end.

Module PublicView.

(** The state of the component, and the two variables of the call of
    [enviarMensaje] whose stream is open: the id of its loading message
    and the answer it has received.  Ids are taken below 2^53, where
    [mensajeIdCounter++] is exact. *)
Record view := {
  mensajes : list Mensaje;
  inputPregunta : string;
  enviando : bool;
  mensajeIdCounter : Z;
  cancelStream : bool;         (* a function is stored *)
  clock : nat;                 (* readings of the clock so far *)
  mensajeCarga : Z;            (* [mensajeCarga.id] *)
  respuestaCompleta : string
}.

(** What the callbacks write into the loading message. *)
Definition respuesta (v : view) (text : string) : Mensaje :=
  {| Msg.id := mensajeCarga v; Msg.texto := text; Msg.esUsuario := false;
     Msg.timestamp := Now (clock v); Msg.cargando := Some false |}.

Section Callbacks.
Context {E : Engine} {W : Wording}.

(** The [onToken] callback. *)
Definition onToken (token : value) (v : view) : view :=
  let text := respuestaCompleta v ++ JS.toString token in
  match findIndex (mensajeCarga v) (mensajes v) with
  | Some indexCarga =>
      {| mensajes := <[indexCarga := respuesta v text]> (mensajes v);
         inputPregunta := inputPregunta v; enviando := enviando v;
         mensajeIdCounter := mensajeIdCounter v; cancelStream := cancelStream v;
         clock := S (clock v); mensajeCarga := mensajeCarga v;
         respuestaCompleta := text |}
  | None =>
      {| mensajes := mensajes v;
         inputPregunta := inputPregunta v; enviando := enviando v;
         mensajeIdCounter := mensajeIdCounter v; cancelStream := cancelStream v;
         clock := clock v; mensajeCarga := mensajeCarga v;
         respuestaCompleta := text |}
  end.

(** The [onError] callback. *)
Definition onError (e : error) (v : view) : view :=
  match findIndex (mensajeCarga v) (mensajes v) with
  | Some indexCarga =>
      {| mensajes :=
           <[indexCarga :=
               respuesta v (or_else (message_of e) "Error al procesar la pregunta")]>
             (mensajes v);
         inputPregunta := inputPregunta v; enviando := false;
         mensajeIdCounter := mensajeIdCounter v; cancelStream := cancelStream v;
         clock := S (clock v); mensajeCarga := mensajeCarga v;
         respuestaCompleta := respuestaCompleta v |}
  | None =>
      {| mensajes := mensajes v;
         inputPregunta := inputPregunta v; enviando := false;
         mensajeIdCounter := mensajeIdCounter v; cancelStream := cancelStream v;
         clock := clock v; mensajeCarga := mensajeCarga v;
         respuestaCompleta := respuestaCompleta v |}
  end.

(** The [onComplete] callback. *)
Definition onComplete (v : view) : view :=
  {| mensajes := mensajes v;
     inputPregunta := inputPregunta v; enviando := false;
     mensajeIdCounter := mensajeIdCounter v; cancelStream := false;
     clock := clock v; mensajeCarga := mensajeCarga v;
     respuestaCompleta := respuestaCompleta v |}.

Definition callback (v : view) (c : call) : view :=
  match c with
  | OnToken token => onToken token v
  | OnError e => onError e v
  | OnComplete _ => onComplete v
  end.

(** The component with the stream of its last question. *)
Record session := { shown : view; stream : state }.

(** [enviarMensaje]: nothing when the question is blank or one is being
    answered; else the question and the loading message are pushed and
    the stream is opened. *)
Definition enviarMensaje (v : view) (ls : gmap string string) : option session :=
  let pregunta := Str.trim (inputPregunta v) in
  if negb (Str.nonempty pregunta) || enviando v then None
  else
    let mensajeUsuario :=
      {| Msg.id := mensajeIdCounter v; Msg.texto := pregunta; Msg.esUsuario := true;
         Msg.timestamp := Now (clock v); Msg.cargando := None |} in
    let mensajeCarga :=
      {| Msg.id := (mensajeIdCounter v + 1)%Z; Msg.texto := ""; Msg.esUsuario := false;
         Msg.timestamp := Now (S (clock v)); Msg.cargando := Some true |} in
    Some {| shown :=
              {| mensajes := (mensajes v ++ [mensajeUsuario; mensajeCarga])%list;
                 inputPregunta := ""; enviando := true;
                 mensajeIdCounter := (mensajeIdCounter v + 2)%Z;
                 cancelStream := true; clock := S (S (clock v));
                 mensajeCarga := (mensajeIdCounter v + 1)%Z;
                 respuestaCompleta := "" |};
            stream := streamChatPublic both ls |}.

(** [cancelarStream] *)
Definition cancelarStream (s : session) : session :=
  if cancelStream (shown s) then
    {| shown :=
         {| mensajes := mensajes (shown s);
            inputPregunta := inputPregunta (shown s); enviando := false;
            mensajeIdCounter := mensajeIdCounter (shown s); cancelStream := false;
            clock := clock (shown s); mensajeCarga := mensajeCarga (shown s);
            respuestaCompleta := respuestaCompleta (shown s) |};
       stream := step (stream s) Cancel |}
  else s.

(** What happens to a session: a task of the event loop for its stream,
    or the cancel button.  The stream is cancelled by the view only. *)
Inductive happening :=
| Task (t : task)
| CancelClicked.

(** A task runs the stream; the callbacks it calls run on the view, in
    the order of the calls. *)
Definition happen (s : session) (h : happening) : session :=
  match h with
  | Task Cancel => s
  | Task t =>
      let st := step (stream s) t in
      {| shown := fold_left callback (drop (length (calls (stream s))) (calls st))
                    (shown s);
         stream := st |}
  | CancelClicked => cancelarStream s
  end.

Definition happenings (hs : list happening) (s : session) : session :=
  fold_left happen hs s.

(** The text passed to [onToken] by the calls [cs]. *)
Definition received (cs : list call) : string :=
  Str.concat
    (flat_map (fun c => match c with OnToken t => [JS.toString t] | _ => [] end) cs).

(** [a] is the loading message [carga] as the calls [cs] leave it. *)
Definition answers (cs : list call) (carga : Z) (a : Mensaje) : Prop :=
  Msg.id a = carga /\ Msg.esUsuario a = false
  /\ Msg.texto a = match last_report cs with
                   | Some e => or_else (message_of e) "Error al procesar la pregunta"
                   | None => received cs
                   end
  /\ Msg.cargando a = Some (forallb is_onComplete cs).

End Callbacks.

(** The view when the component is mounted. *)
Definition mounted : view :=
  {| mensajes :=
       [{| Msg.id := 0;
           Msg.texto := "Hola, soy tu asistente inteligente. Puedes hacer preguntas sin necesidad de iniciar sesión. ¿En qué puedo ayudarte?";
           Msg.esUsuario := false; Msg.timestamp := Now 0; Msg.cargando := None |}];
     inputPregunta := ""; enviando := false; mensajeIdCounter := 1;
     cancelStream := false; clock := 1; mensajeCarga := 0;
     respuestaCompleta := "" |}.

End PublicView.

(* ===================================================================== *)
(** ** Example inputs for the service and the views *)
(* ===================================================================== *)

(** The wording of an engine's own errors, to run examples with. *)
Definition example_wording : Wording :=
  {| engine_message := fun _ => "Failed to fetch" |}.

Definition nobody : gmap string string := ∅.

(** The storage after [setToken('')]. *)
Definition empty_token : gmap string string := {[ TOKEN_KEY := "" ]}.

(** The body of a successful login. *)
Definition token_body : string :=
  "{" ++ quoted "access_token" ++ ":" ++ quoted "jwt" ++ "}".

Definition login_form : auth_view :=
  {| isLogin := true; loading := false; error_text := "";
     login_username := "ana"; login_password := "secret";
     register_username := ""; register_email := "";
     register_password := ""; confirmPassword := "" |}.

Definition register_form : auth_view :=
  {| isLogin := false; loading := false; error_text := "";
     login_username := ""; login_password := "";
     register_username := "ana"; register_email := "ana@example.org";
     register_password := "secret"; confirmPassword := "secret" |}.

(** A page of the history with the given message ids. *)
Definition example_page (ids : list Z) (more : bool) : MessagesResponse :=
  {| messages := List.map (fun i => {| msg_id := i; msg_role := "user";
                                       msg_content := "hola";
                                       msg_created_at := "2024-05-01T10:00:00Z" |}) ids;
     has_more := more; conversation_id := Some 7%Z |}.

Definition empty_chat : ChatView.view :=
  {| ChatView.mensajes := []; ChatView.hasMoreMessages := false;
     ChatView.currentPage := 1; ChatView.conversationId := None;
     ChatView.isLoadingMore := false; ChatView.cargandoMensajes := false;
     ChatView.clock := 0 |}.

(** The public view with a question typed in. *)
Definition asking : PublicView.view :=
  {| PublicView.mensajes := PublicView.mensajes PublicView.mounted;
     PublicView.inputPregunta := " hola ";
     PublicView.enviando := false; PublicView.mensajeIdCounter := 1;
     PublicView.cancelStream := false; PublicView.clock := 1;
     PublicView.mensajeCarga := 0; PublicView.respuestaCompleta := "" |}.

(* ===================================================================== *)
(** ** The line reassembler *)
(* ===================================================================== *)

#[local] Arguments String.append !s1 s2 : simpl nomatch.

Section Reassembler.

Lemma split_not_nil (s : string) : Str.split s <> [].
Proof.
  destruct s as [|c r]; simpl; [discriminate|].
  destruct (Ascii.eqb c Str.LF); [discriminate|].
  destruct (Str.split r); discriminate.
Qed.

(** Splitting a concatenation: the complete lines of the first part, then
    the pieces of its last piece followed by the second part. *)
Lemma split_app (a b : string) :
  Str.split (a ++ b) =
  (removelast (Str.split a) ++ Str.split (List.last (Str.split a) "" ++ b))%list.
Proof.
  induction a as [|c r IH]; [reflexivity|].
  cbn [String.append Str.split].
  pose proof (split_not_nil r) as Hne.
  destruct (Ascii.eqb c Str.LF) eqn:Hc.
  - destruct (Str.split r) as [|p ps] eqn:Hr; [contradiction|].
    rewrite IH. reflexivity.
  - destruct (Str.split r) as [|p ps] eqn:Hr; [contradiction|].
    rewrite IH.
    destruct ps as [|q qs].
    + cbn [removelast List.last app String.append Str.split].
      rewrite Hc. reflexivity.
    + reflexivity.
Qed.

Lemma join_split (s : string) : Str.join (Str.split s) = s.
Proof.
  induction s as [|c r IH]; [reflexivity|].
  cbn [Str.split].
  pose proof (split_not_nil r) as Hne.
  destruct (Ascii.eqb c Str.LF) eqn:Hc.
  - apply Ascii.eqb_eq in Hc. subst c.
    destruct (Str.split r) as [|p ps]; [contradiction|].
    cbn [Str.join String.append] in *. now rewrite IH.
  - destruct (Str.split r) as [|p ps]; [contradiction|].
    destruct ps as [|q qs]; cbn [Str.join String.append] in *; now rewrite IH.
Qed.

Lemma split_no_LF (s : string) :
  Forall (fun p => Str.has_LF p = false) (Str.split s).
Proof.
  induction s as [|c r IH]; cbn [Str.split].
  - repeat constructor.
  - destruct (Ascii.eqb c Str.LF) eqn:Hc.
    + constructor; [reflexivity | exact IH].
    + destruct (Str.split r) as [|p ps].
      * repeat constructor. cbn. now rewrite Hc.
      * inversion IH; subst. constructor; [|assumption].
        cbn. now rewrite Hc.
Qed.

(** A text without line feed is a single piece. *)
Lemma split_one (s : string) : Str.has_LF s = false -> Str.split s = [s].
Proof.
  induction s as [|c r IH]; [reflexivity|].
  cbn. destruct (Ascii.eqb c Str.LF); [discriminate|].
  intros H. now rewrite (IH H).
Qed.

Lemma last_split_no_LF (s : string) :
  Str.has_LF (List.last (Str.split s) "") = false.
Proof.
  pose proof (split_no_LF s) as H. pose proof (split_not_nil s) as Hne.
  destruct (exists_last Hne) as (l & p & Heq). rewrite Heq in *.
  rewrite last_last. apply Forall_app in H as [_ H]. now inversion H.
Qed.

Lemma removelast_then_last {A} (l : list A) (d : A) :
  l <> [] -> (removelast l ++ [List.last l d])%list = l.
Proof. intros H. symmetry. now apply app_removelast_last. Qed.

Lemma last_of_app {A} (l1 l2 : list A) (d : A) :
  l2 <> [] -> List.last (l1 ++ l2) d = List.last l2 d.
Proof.
  intros H. destruct (exists_last H) as (l & x & ->).
  now rewrite app_assoc, !last_last.
Qed.

Lemma append_assoc (a b c : string) : (a ++ b) ++ c = a ++ (b ++ c).
Proof. induction a as [|x a IH]; cbn [String.append]; [reflexivity | now rewrite IH]. Qed.

Lemma append_nil_r (a : string) : a ++ "" = a.
Proof. induction a as [|x a IH]; cbn [String.append]; [reflexivity | now rewrite IH]. Qed.

Lemma concat_app (a b : list string) :
  Str.concat (a ++ b) = Str.concat a ++ Str.concat b.
Proof.
  induction a as [|x a IH]; [reflexivity|].
  cbn [app Str.concat]. rewrite IH. now rewrite append_assoc.
Qed.

(** The reassembler run from a buffer without line feed computes the
    pieces of the whole text. *)
Lemma reassemble_all_split (buffer : string) (fragments : list string) :
  Str.has_LF buffer = false ->
  reassemble_all buffer fragments =
  (removelast (Str.split (buffer ++ Str.concat fragments)),
   List.last (Str.split (buffer ++ Str.concat fragments)) "").
Proof.
  revert buffer. induction fragments as [|f r IH]; intros buffer Hb.
  - cbn [reassemble_all Str.concat]. rewrite append_nil_r.
    now rewrite (split_one _ Hb).
  - cbn [reassemble_all Str.concat]. unfold reassemble.
    rewrite (IH _ (last_split_no_LF _)).
    rewrite <- append_assoc.
    rewrite (split_app (buffer ++ f) (Str.concat r)).
    pose proof (split_not_nil (List.last (Str.split (buffer ++ f)) "" ++ Str.concat r)) as Hne.
    rewrite removelast_app by assumption.
    rewrite last_of_app by assumption. reflexivity.
Qed.

Lemma reassemble_all_app (buffer : string) (pre post : list string) :
  reassemble_all buffer (pre ++ post) =
  ((fst (reassemble_all buffer pre)
    ++ fst (reassemble_all (snd (reassemble_all buffer pre)) post))%list,
   snd (reassemble_all (snd (reassemble_all buffer pre)) post)).
Proof.
  revert buffer. induction pre as [|f r IH]; intros buffer.
  - cbn. now destruct (reassemble_all buffer post).
  - cbn [app reassemble_all]. destruct (reassemble buffer f) as [ls b].
    rewrite IH. destruct (reassemble_all b r) as [ls1 b1]. cbn [fst snd].
    now rewrite app_assoc.
Qed.

(** C4. For any text cut into fragments at arbitrary places, the line
    reassembler, after the fragments received so far, has emitted exactly
    the complete, newline-terminated lines of their concatenation, in
    order and each once, and holds the piece after the last line feed in
    its buffer: the emitted lines and the buffer, joined by line feeds,
    are the text received, and none of them contains a line feed.
    Fragments that follow only add lines after those already emitted. *)
Theorem reassembler_emits_complete_lines (received later : list string) :
  let text := Str.concat received in
  let emitted := fst (reassemble_all "" received) in
  let kept := snd (reassemble_all "" received) in
  emitted = removelast (Str.split text)
  /\ kept = List.last (Str.split text) ""
  /\ Str.join (emitted ++ [kept]) = text
  /\ Forall (fun l => Str.has_LF l = false) (emitted ++ [kept])
  /\ exists more, fst (reassemble_all "" (received ++ later)) = (emitted ++ more)%list.
Proof.
  cbn zeta. rewrite (reassemble_all_split "" received eq_refl).
  cbn [fst snd String.append].
  pose proof (split_not_nil (Str.concat received)) as Hne.
  rewrite (removelast_then_last _ "" Hne).
  repeat split.
  - apply join_split.
  - apply split_no_LF.
  - rewrite reassemble_all_app, (reassemble_all_split "" received eq_refl).
    cbn [fst snd String.append]. eauto.
Qed.

End Reassembler.

(* ===================================================================== *)
(** ** Lines and actions *)
(* ===================================================================== *)

Section Lines.
Context {E : Engine}.

Lemma process_line_perform (line : string) (st : state) :
  process_line line st = perform (classify (kind st) (currentEvent st) line) st.
Proof.
  unfold process_line, classify.
  repeat match goal with
         | |- context [if ?b then _ else _] => destruct b eqn:?
         | |- context [match ?x with _ => _ end] => destruct x eqn:?
         end; try reflexivity; try congruence.
Qed.

Lemma terminals_invoke (c : call) (st : state) :
  terminals (invoke c st) = (terminals st ++ if terminal c then [c] else [])%list.
Proof.
  unfold terminals. cbn [calls invoke]. rewrite List.filter_app. cbn.
  now destruct (terminal c).
Qed.

Lemma same_frame_refl (st : state) : same_frame st st.
Proof. unfold same_frame. tauto. Qed.

Lemma same_frame_trans (a b c : state) :
  same_frame a b -> same_frame b c -> same_frame a c.
Proof. unfold same_frame. intuition congruence. Qed.

Lemma append_token_frame (s : string) (st : state) :
  same_frame st (append_token s st)
  /\ calls (append_token s st) = calls st
  /\ (timer_ok st -> timer_ok (append_token s st)).
Proof.
  unfold append_token, same_frame, timer_ok. cbn.
  destruct (flushTimeout st) eqn:Hf; cbn; rewrite ?Hf; intuition lia.
Qed.

Lemma call_onComplete_frame (id : value) (st : state) :
  same_frame st (call_onComplete id st)
  /\ timers (call_onComplete id st) = timers st
  /\ flushTimeout (call_onComplete id st) = flushTimeout st
  /\ terminals (call_onComplete id st)
     = (terminals st ++ if has_onComplete (cbs st) then [OnComplete id] else [])%list.
Proof.
  unfold call_onComplete, same_frame.
  destruct (has_onComplete (cbs st)).
  - rewrite terminals_invoke. cbn. tauto.
  - rewrite app_nil_r. tauto.
Qed.

(** What an action leaves alone, and what it adds to the terminal calls. *)
Lemma perform_spec (a : action) (st : state) :
  match perform a st with
  | Continue st' =>
      same_frame st st' /\ (timer_ok st -> timer_ok st')
      /\ terminals st' = terminals st
  | Return st' =>
      same_frame st st' /\ (timer_ok st -> timer_ok st')
      /\ exists id, terminals st' =
           (terminals st ++ if has_onComplete (cbs st) then [OnComplete id] else [])%list
  end.
Proof.
  destruct a; cbn [perform].
  - split; [apply same_frame_refl | tauto].
  - unfold same_frame, timer_ok, terminals. cbn. tauto.
  - unfold same_frame, timer_ok, terminals. cbn. tauto.
  - destruct (append_token_frame text st) as (Hf & Hc & Ht).
    unfold terminals. rewrite Hc. tauto.
  - rewrite terminals_invoke. cbn. rewrite app_nil_r.
    unfold same_frame, timer_ok. cbn. tauto.
  - destruct (call_onComplete_frame conversationId st) as (Hf & Ht & Hfl & Hc).
    split; [exact Hf|]. split; [unfold timer_ok; now rewrite Ht, Hfl|].
    eauto.
Qed.

Lemma process_lines_spec (lines : list string) (st : state) :
  match process_lines lines st with
  | Continue st' =>
      same_frame st st' /\ (timer_ok st -> timer_ok st')
      /\ terminals st' = terminals st
  | Return st' =>
      same_frame st st' /\ (timer_ok st -> timer_ok st')
      /\ exists id, terminals st' =
           (terminals st ++ if has_onComplete (cbs st) then [OnComplete id] else [])%list
  end.
Proof.
  revert st. induction lines as [|line rest IH]; intros st; cbn [process_lines].
  - split; [apply same_frame_refl | tauto].
  - rewrite process_line_perform.
    pose proof (perform_spec (classify (kind st) (currentEvent st) line) st) as H.
    destruct (perform _ st) as [st1|st1]; [|exact H].
    destruct H as (Hf & Ht & Hc). specialize (IH st1).
    assert (Hcbs : cbs st1 = cbs st) by apply Hf.
    destruct (process_lines rest st1) as [st2|st2].
    + destruct IH as (Hf' & Ht' & Hc').
      split; [eapply same_frame_trans; eassumption|].
      split; [tauto | congruence].
    + destruct IH as (Hf' & Ht' & id & Hc').
      split; [eapply same_frame_trans; eassumption|].
      split; [tauto|]. exists id. now rewrite Hc', Hc, Hcbs.
Qed.

End Lines.

(* ===================================================================== *)
(** ** The invariant of a stream *)
(* ===================================================================== *)

Section Invariant.
Context {E : Engine}.

Lemma inv_start (k : variant) (c : callbacks) (ls : gmap string string) :
  inv (start k c ls).
Proof.
  destruct k; cbn [start]; unfold streamChat, streamChatPublic, started.
  - destruct (bearer (getToken ls)).
    + split; cbn; unfold timer_ok; cbn; auto; discriminate.
    + split; cbn; unfold timer_ok, terminals; cbn; auto;
        destruct (has_onError c); cbn; auto; try discriminate; tauto.
  - split; cbn; unfold timer_ok; cbn; auto; discriminate.
Qed.

Lemma terminals_set_pc (p : phase) (st : state) :
  terminals (set_pc p st) = terminals st.
Proof. reflexivity. Qed.

Lemma terminals_set_aborted (b : bool) (st : state) :
  terminals (set_aborted b st) = terminals st.
Proof. reflexivity. Qed.

(** Leaving through the [catch] block. *)
Lemma catch_inv (reason : option error) (st : state) :
  timer_ok st -> terminals st = [] -> inv (catch reason st).
Proof.
  intros Ht Hq. unfold catch.
  set (e := default (Error "Error desconocido al recibir el stream") reason).
  destruct (aborted st) eqn:Ha; cbn [negb].
  - split.
    + cbn [pc set_pc]. congruence.
    + rewrite terminals_set_pc, Hq. cbn. lia.
    + cbn [aborted set_pc]. congruence.
    + exact Ht.
  - unfold call_onError. destruct (has_onError (cbs st)) eqn:He.
    + split.
      * cbn [pc set_pc]. congruence.
      * rewrite terminals_set_pc, terminals_invoke, Hq. cbn. lia.
      * intros. rewrite terminals_set_pc, terminals_invoke, Hq. reflexivity.
      * exact Ht.
    + split.
      * cbn [pc set_pc]. congruence.
      * rewrite terminals_set_pc, Hq. cbn. lia.
      * cbn [cbs set_pc]. congruence.
      * exact Ht.
Qed.

Lemma throw_status_inv (status : N) (text : string) (v : value) (st : state) :
  timer_ok st -> terminals st = [] -> inv (throw_status status text v st).
Proof.
  intros Ht Hq. unfold throw_status.
  destruct (JS.get v "detail"); now apply catch_inv.
Qed.

Lemma on_rejected_inv (reason : option error) (st : state) :
  inv st -> inv (on_rejected reason st).
Proof.
  intros H. unfold on_rejected.
  destruct (pc st) eqn:Hpc; try exact H;
    (assert (Hne : pc st <> Settled) by congruence);
    destruct (inv_quiet _ H Hne) as (Hq & _);
    first [apply catch_inv | apply throw_status_inv];
    auto using inv_timer.
Qed.

Lemma loop_inv (st : state) :
  timer_ok st -> terminals st = [] -> aborted st = false -> returned st = Abort ->
  inv (loop st).
Proof.
  intros Ht Hq Ha Hr. unfold loop. rewrite Ha.
  split.
  - intros _. rewrite terminals_set_pc. auto.
  - rewrite terminals_set_pc, Hq. cbn. lia.
  - cbn [pc set_pc]. congruence.
  - exact Ht.
Qed.

Lemma on_chunk_inv (text : string) (st : state) :
  inv st -> pc st = AwaitRead -> inv (on_chunk text st).
Proof.
  intros H Hpc. unfold on_chunk.
  destruct (reassemble (buffer st) text) as [lines rest].
  assert (Hne : pc st <> Settled) by congruence.
  destruct (inv_quiet _ H Hne) as (Hq & Ha & Hr).
  pose proof (inv_timer _ H) as Ht.
  pose proof (process_lines_spec lines (set_buffer rest st)) as Hs.
  destruct (process_lines lines (set_buffer rest st)) as [st2|st2].
  - destruct Hs as (Hf & Ht2 & Hc).
    destruct Hf as (_ & _ & Hr2 & Ha2 & _).
    apply loop_inv; [apply Ht2, Ht | rewrite Hc; exact Hq | | ]; cbn in *; congruence.
  - destruct Hs as (Hf & Ht2 & id & Hc).
    destruct Hf as (_ & Hcb & Hr2 & Ha2 & _).
    cbn [cbs aborted set_buffer] in Hcb, Ha2, Hc.
    change (terminals (set_buffer rest st)) with (terminals st) in Hc.
    rewrite Hq in Hc. cbn [app] in Hc.
    split.
    + cbn [pc set_pc]. congruence.
    + rewrite terminals_set_pc, Hc. destruct (has_onComplete (cbs st)); cbn; lia.
    + cbn [pc set_pc aborted cbs]. intros _ _ _.
      rewrite terminals_set_pc, Hc, Hcb. now intros ->.
    + apply Ht2, Ht.
Qed.

Lemma on_response_inv (status : N) (text : string) (b : bool) (st : state) :
  inv st -> pc st = AwaitFetch -> inv (on_response status text b st).
Proof.
  intros H Hpc.
  assert (Hne : pc st <> Settled) by congruence.
  destruct (inv_quiet _ H Hne) as (Hq & Ha & Hr).
  pose proof (inv_timer _ H) as Ht.
  assert (Hset : forall p, inv (set_pc (AwaitErrorBody p text) st)).
  { intros p. split.
    - intros _. rewrite terminals_set_pc. auto.
    - rewrite terminals_set_pc, Hq. cbn. lia.
    - cbn [pc set_pc]. congruence.
    - exact Ht. }
  unfold on_response.
  destruct (kind st);
    repeat match goal with
           | |- context [if ?c then _ else _] => destruct c
           end;
    first [ apply Hset
          | apply catch_inv; assumption
          | apply loop_inv; assumption ].
Qed.

(** The invariant only looks at these parts of the state. *)
Lemma inv_transfer (st st' : state) :
  pc st' = pc st -> aborted st' = aborted st -> returned st' = returned st ->
  cbs st' = cbs st -> terminals st' = terminals st -> timer_ok st' ->
  inv st -> inv st'.
Proof.
  intros Hp Ha Hr Hc Ht Hk [Hq Ho He _].
  split; rewrite ?Hp, ?Ha, ?Hr, ?Hc, ?Ht; auto.
Qed.

Lemma flush_inv (st : state) (n : nat) :
  inv st -> timers st = S n -> inv (flush (set_flushTimeout (flushTimeout st) n st)).
Proof.
  intros H Hn. pose proof (inv_timer _ H) as Ht. unfold timer_ok in Ht.
  assert (n = 0) as -> by (destruct (flushTimeout st); lia).
  apply (inv_transfer st); unfold flush; cbn [visualBuffer set_flushTimeout];
    try (destruct (Str.nonempty (visualBuffer st)); reflexivity); [|exact H].
  destruct (Str.nonempty (visualBuffer st)); [|reflexivity].
  unfold terminals. cbn. rewrite List.filter_app. cbn. apply app_nil_r.
Qed.

Lemma cancel_inv (st : state) : inv st -> inv (cancel st).
Proof.
  intros H. unfold cancel. destruct (returned st) eqn:Hr; [exact H|].
  unfold on_rejected. cbn [pc set_aborted].
  destruct (pc st) eqn:Hpc.
  1-3: (assert (Hne : pc st <> Settled) by congruence);
       destruct (inv_quiet _ H Hne) as (Hq & _);
       first [apply catch_inv | apply throw_status_inv];
       solve [exact (inv_timer _ H) | exact Hq].
  destruct H as [Hq Ho He Ht]. split.
  - cbn [pc set_aborted]. congruence.
  - exact Ho.
  - cbn [aborted set_aborted]. congruence.
  - exact Ht.
Qed.

(** Every task keeps the invariant. *)
Lemma step_inv (st : state) (t : task) : inv st -> inv (step st t).
Proof.
  intros H. unfold step.
  destruct t; destruct (pc st) eqn:Hpc; try exact H;
    try (apply cancel_inv; exact H);
    try (apply on_rejected_inv; exact H);
    try (apply on_response_inv; assumption);
    try (apply on_chunk_inv; assumption);
    try (destruct (timers st) eqn:Hn; [exact H | apply flush_inv; assumption]).
  - (* ErrorBody *)
    assert (Hne : pc st <> Settled) by congruence.
    destruct (inv_quiet _ H Hne) as (Hq & _).
    destruct (text ≫= JSON.parse).
    + apply throw_status_inv; [exact (inv_timer _ H) | exact Hq].
    + apply on_rejected_inv; exact H.
  - (* EndOfData *)
    assert (Hne : pc st <> Settled) by congruence.
    destruct (inv_quiet _ H Hne) as (Hq & Ha & Hr).
    destruct (call_onComplete_frame VUndefined st) as (Hf & Ht & Hfl & Hc).
    rewrite Hq in Hc. cbn [app] in Hc.
    destruct Hf as (_ & Hcb & _ & Ha2 & _).
    split.
    + cbn [pc set_pc]. congruence.
    + rewrite terminals_set_pc, Hc.
      destruct (has_onComplete (cbs st)); cbn; lia.
    + cbn [pc set_pc aborted cbs]. intros _ _ _.
      rewrite terminals_set_pc, Hc, Hcb. now intros ->.
    + unfold timer_ok. cbn [timers flushTimeout set_pc].
      rewrite Ht, Hfl. exact (inv_timer _ H).
Qed.

Lemma run_inv (script : list task) (st : state) : inv st -> inv (run script st).
Proof.
  revert st. induction script as [|t r IH]; intros st H; cbn; [exact H|].
  apply IH, step_inv, H.
Qed.

End Invariant.

(* ===================================================================== *)
(** ** What a task leaves alone *)
(* ===================================================================== *)

Section Frames.
Context {E : Engine}.

Lemma catch_closure (reason : option error) (st : state) :
  same_closure st (catch reason st)
  /\ localStorage (catch reason st) = localStorage st
  /\ requests (catch reason st) = requests st.
Proof.
  unfold catch, call_onError, same_closure.
  destruct (negb (aborted st)), (has_onError (cbs st)); cbn; tauto.
Qed.

Lemma throw_status_closure (status : N) (text : string) (v : value) (st : state) :
  same_closure st (throw_status status text v st)
  /\ localStorage (throw_status status text v st) = localStorage st
  /\ requests (throw_status status text v st) = requests st.
Proof. unfold throw_status. destruct (JS.get v "detail"); apply catch_closure. Qed.

Lemma on_rejected_closure (reason : option error) (st : state) :
  same_closure st (on_rejected reason st)
  /\ localStorage (on_rejected reason st) = localStorage st
  /\ requests (on_rejected reason st) = requests st.
Proof.
  unfold on_rejected. destruct (pc st);
    first [apply catch_closure | apply throw_status_closure
          | unfold same_closure; tauto].
Qed.

Lemma on_chunk_closure (text : string) (st : state) :
  same_closure st (on_chunk text st)
  /\ localStorage (on_chunk text st) = localStorage st
  /\ requests (on_chunk text st) = requests st.
Proof.
  unfold on_chunk. destruct (reassemble (buffer st) text) as [lines rest].
  pose proof (process_lines_spec lines (set_buffer rest st)) as H.
  destruct (process_lines lines (set_buffer rest st)) as [st2|st2];
    destruct H as ((Hk & Hc & Hr & _ & _ & _ & Hl & Hq) & _);
    unfold same_closure, loop; try destruct (aborted st2); cbn in *; tauto.
Qed.

(** Every task leaves the fixed parts of the closure and the requests
    alone, and the storage too, unless it is a 401 response to
    [streamChat]. *)
Lemma step_closure (st : state) (t : task) :
  same_closure st (step st t)
  /\ requests (step st t) = requests st
  /\ (localStorage (step st t) = localStorage st
      \/ kind st = Authenticated /\ pc st = AwaitFetch
         /\ exists text b, t = Response 401 text b).
Proof.
  assert (Hid : same_closure st st /\ requests st = requests st
                /\ (localStorage st = localStorage st
                    \/ kind st = Authenticated /\ pc st = AwaitFetch
                       /\ exists text b, t = Response 401 text b))
    by (unfold same_closure; tauto).
  unfold step. destruct t; destruct (pc st) eqn:Hpc; try exact Hid.
  - (* Response *)
    unfold on_response. destruct (kind st) eqn:Hk.
    + destruct (status =? 401)%N eqn:H401.
      * apply N.eqb_eq in H401. subst status.
        destruct (catch_closure
                    (Some (Error "Sesión expirada. Por favor, inicia sesión nuevamente."))
                    (set_localStorage (removeToken (localStorage st)) st))
          as (Hc & _ & Hq).
        split; [exact Hc|]. split; [exact Hq|]. right. eauto.
      * repeat match goal with
               | |- context [if ?c then _ else _] => destruct c
               end;
          try (unfold same_closure, loop; try destruct (aborted _); cbn; tauto).
        destruct (catch_closure (Some (Error "No se recibió respuesta del servidor")) st)
          as (Hc & Hl & Hq). tauto.
    + repeat match goal with
             | |- context [if ?c then _ else _] => destruct c
             end;
        try (unfold same_closure, loop; try destruct (aborted _); cbn; tauto).
      destruct (catch_closure (Some (Error "No se recibió respuesta del servidor")) st)
        as (Hc & Hl & Hq). tauto.
  - destruct (on_rejected_closure reason st) as (? & ? & ?). tauto.
  - destruct (text ≫= JSON.parse).
    + destruct (throw_status_closure status statusText v st) as (? & ? & ?). tauto.
    + destruct (on_rejected_closure None st) as (? & ? & ?). tauto.
  - destruct (on_chunk_closure text st) as (? & ? & ?). tauto.
  - unfold same_closure, call_onComplete.
    destruct (has_onComplete (cbs st)); cbn; tauto.
  - destruct (on_rejected_closure reason st) as (? & ? & ?). tauto.
  - destruct (timers st); [exact Hid|]. unfold flush, same_closure.
    cbn [visualBuffer set_flushTimeout].
    destruct (Str.nonempty (visualBuffer st)); cbn; tauto.
  - destruct (timers st); [exact Hid|]. unfold flush, same_closure.
    cbn [visualBuffer set_flushTimeout].
    destruct (Str.nonempty (visualBuffer st)); cbn; tauto.
  - destruct (timers st); [exact Hid|]. unfold flush, same_closure.
    cbn [visualBuffer set_flushTimeout].
    destruct (Str.nonempty (visualBuffer st)); cbn; tauto.
  - destruct (timers st); [exact Hid|]. unfold flush, same_closure.
    cbn [visualBuffer set_flushTimeout].
    destruct (Str.nonempty (visualBuffer st)); cbn; tauto.
  - unfold cancel. destruct (returned st); [exact Hid|].
    destruct (on_rejected_closure (Some AbortError) (set_aborted true st)) as (? & ? & ?).
    cbn in *. tauto.
  - unfold cancel. destruct (returned st); [exact Hid|].
    destruct (on_rejected_closure (Some AbortError) (set_aborted true st)) as (? & ? & ?).
    cbn in *. tauto.
  - unfold cancel. destruct (returned st); [exact Hid|].
    destruct (on_rejected_closure (Some AbortError) (set_aborted true st)) as (? & ? & ?).
    cbn in *. tauto.
  - unfold cancel. destruct (returned st); [exact Hid|].
    destruct (on_rejected_closure (Some AbortError) (set_aborted true st)) as (? & ? & ?).
    cbn in *. tauto.
Qed.

Lemma run_cons (t : task) (script : list task) (st : state) :
  run (t :: script) st = run script (step st t).
Proof. reflexivity. Qed.

Lemma run_app (s1 s2 : list task) (st : state) :
  run (s1 ++ s2) st = run s2 (run s1 st).
Proof. unfold run. apply fold_left_app. Qed.

Lemma run_closure (script : list task) (st : state) :
  same_closure st (run script st) /\ requests (run script st) = requests st.
Proof.
  revert st. induction script as [|t r IH]; intros st; rewrite ?run_cons.
  - unfold same_closure. cbn. tauto.
  - destruct (step_closure st t) as ((Hk & Hc & Hr) & Hq & _).
    destruct (IH (step st t)) as ((Hk' & Hc' & Hr') & Hq').
    unfold same_closure. repeat split; congruence.
Qed.

End Frames.

(* ===================================================================== *)
(** ** Terminal callbacks and cancellation *)
(* ===================================================================== *)

Section Terminal.
Context {E : Engine}.

Lemma terminals_count (st : state) :
  length (terminals st) = length (errors st) + length (completions st).
Proof.
  unfold terminals, errors, completions.
  induction (calls st) as [|c l IH]; [reflexivity|].
  destruct c; cbn in *; lia.
Qed.

Lemma terminals_nil (st : state) :
  terminals st = [] -> errors st = [] /\ completions st = [].
Proof.
  intros H. pose proof (terminals_count st) as Hc. rewrite H in Hc. cbn in Hc.
  split; apply length_zero_iff_nil; lia.
Qed.

Lemma terminals_same_calls (st st' : state) :
  calls st' = calls st -> terminals st' = terminals st.
Proof. unfold terminals. now intros ->. Qed.

Lemma terminals_more_token (st st' : state) (t : value) :
  calls st' = (calls st ++ [OnToken t])%list -> terminals st' = terminals st.
Proof.
  unfold terminals. intros ->. rewrite List.filter_app. cbn. apply app_nil_r.
Qed.

(** Once the function has returned and no run of [flush] is scheduled,
    nothing is ever called again. *)
Lemma silent_step (st : state) (t : task) :
  pc st = Settled -> timers st = 0 ->
  pc (step st t) = Settled /\ timers (step st t) = 0
  /\ calls (step st t) = calls st.
Proof.
  intros Hp Ht. unfold step. rewrite Hp, Ht.
  destruct t; auto.
  unfold cancel. destruct (returned st); auto.
  unfold on_rejected. cbn [pc set_aborted]. rewrite Hp. cbn. auto.
Qed.

Lemma silent_run (script : list task) (st : state) :
  pc st = Settled -> timers st = 0 -> calls (run script st) = calls st.
Proof.
  revert st. induction script as [|t r IH]; intros st Hp Ht; [reflexivity|].
  rewrite run_cons. destruct (silent_step st t Hp Ht) as (Hp' & Ht' & Hc).
  now rewrite IH.
Qed.

(** Once the function has returned, a task calls nothing, except that
    the one scheduled run of [flush] delivers the buffer. *)
Lemma settled_step (st : state) (t : task) :
  pc st = Settled -> timer_ok st ->
  pc (step st t) = Settled /\ timer_ok (step st t)
  /\ (calls (step st t) = calls st
      /\ visualBuffer (step st t) = visualBuffer st
      \/ timers (step st t) = 0
         /\ (calls (step st t) = calls st
             \/ calls (step st t)
                = (calls st ++ [OnToken (VStr (visualBuffer st))])%list)).
Proof.
  intros Hp Ht.
  assert (Hid : pc st = Settled /\ timer_ok st
                /\ (calls st = calls st /\ visualBuffer st = visualBuffer st
                    \/ timers st = 0
                       /\ (calls st = calls st
                           \/ calls st
                              = (calls st ++ [OnToken (VStr (visualBuffer st))])%list)))
    by tauto.
  unfold step. rewrite Hp.
  destruct t; try exact Hid.
  - (* TimerFires *)
    destruct (timers st) as [|n] eqn:Hn; [tauto|].
    unfold timer_ok in Ht. rewrite Hn in Ht.
    assert (n = 0) as -> by (destruct (flushTimeout st); lia).
    unfold flush, timer_ok. cbn [visualBuffer set_flushTimeout].
    destruct (Str.nonempty (visualBuffer st)); cbn; tauto.
  - (* Cancel *)
    unfold cancel. destruct (returned st); [exact Hid|].
    unfold on_rejected. cbn [pc set_aborted]. rewrite Hp.
    unfold timer_ok in *. cbn. tauto.
Qed.

Lemma settled_run (script : list task) (st : state) :
  pc st = Settled -> timer_ok st ->
  pc (run script st) = Settled
  /\ (calls (run script st) = calls st
      \/ calls (run script st) = (calls st ++ [OnToken (VStr (visualBuffer st))])%list).
Proof.
  revert st. induction script as [|t r IH]; intros st Hp Ht; [auto|].
  rewrite run_cons.
  destruct (settled_step st t Hp Ht) as (Hp' & Ht' & Hc).
  destruct (IH _ Hp' Ht') as (Hp'' & Hc'').
  split; [exact Hp''|].
  destruct Hc as [(Hc & Hv) | (Hz & Hc)].
  - rewrite Hc, Hv in Hc''. exact Hc''.
  - rewrite (silent_run r _ Hp' Hz). exact Hc.
Qed.

Lemma settled_terminals (script : list task) (st : state) :
  pc st = Settled -> timer_ok st -> terminals (run script st) = terminals st.
Proof.
  intros Hp Ht. destruct (settled_run script st Hp Ht) as (_ & [Hc | Hc]).
  - now apply terminals_same_calls.
  - eapply terminals_more_token, Hc.
Qed.

(** A cancellation while the function is suspended makes it return
    without a call. *)
Lemma cancel_midstream (st : state) :
  pc st <> Settled -> returned st = Abort ->
  pc (cancel st) = Settled /\ calls (cancel st) = calls st
  /\ visualBuffer (cancel st) = visualBuffer st
  /\ aborted (cancel st) = true.
Proof.
  intros Hp Hr. unfold cancel. rewrite Hr.
  unfold on_rejected, throw_status, catch. cbn [pc set_aborted JS.get aborted negb].
  destruct (pc st); cbn; tauto.
Qed.

(** The stream does not hang: whatever its state, the failure of the
    request, of the error body and the end of the data make the function
    return. *)
Lemma transport_end_settles (st : state) :
  pc (run [FetchRejected None; ErrorBody None; EndOfData] st) = Settled.
Proof.
  assert (Hstay : forall s t, pc s = Settled -> pc (step s t) = Settled).
  { intros s t Hs. unfold step. rewrite Hs. destruct t; try exact Hs.
    - destruct (timers s); [exact Hs|]. unfold flush.
      cbn [visualBuffer set_flushTimeout].
      destruct (Str.nonempty (visualBuffer s)); exact Hs.
    - unfold cancel. destruct (returned s); [exact Hs|].
      unfold on_rejected. cbn [pc set_aborted]. rewrite Hs. exact Hs. }
  rewrite !run_cons. cbn [run fold_left].
  destruct (pc st) eqn:Hp.
  - apply Hstay, Hstay. unfold step. rewrite Hp. unfold on_rejected. now rewrite Hp.
  - assert (Hs : step st (FetchRejected None) = st) by (unfold step; now rewrite Hp).
    rewrite Hs. apply Hstay. unfold step. rewrite Hp. cbn [mbind option_bind].
    unfold on_rejected. rewrite Hp. reflexivity.
  - assert (Hs : step st (FetchRejected None) = st) by (unfold step; now rewrite Hp).
    rewrite Hs.
    assert (Hs2 : step st (ErrorBody None) = st) by (unfold step; now rewrite Hp).
    rewrite Hs2. unfold step. now rewrite Hp.
  - now apply Hstay, Hstay, Hstay.
Qed.

(** C2. If the caller invokes the returned function while the stream is
    running (the asynchronous function is suspended at [fetch], at the
    error body or at [read]), then whatever tasks follow, no call is
    added except at most one [onToken] carrying the coalescing buffer
    (the run of [flush] that was already scheduled), and the stream has
    called neither [onError] nor [onComplete]. *)
Theorem cancel_silences (k : variant) (c : callbacks) (ls : gmap string string)
    (before after : list task) :
  let st := run before (start k c ls) in
  let st' := run (before ++ Cancel :: after) (start k c ls) in
  pc st <> Settled ->
  (calls st' = calls st
   \/ calls st' = (calls st ++ [OnToken (VStr (visualBuffer st))])%list)
  /\ errors st' = [] /\ completions st' = [].
Proof.
  cbn zeta. intros Hp. rewrite run_app, run_cons.
  set (st := run before (start k c ls)) in *.
  assert (Hi : inv st) by apply run_inv, inv_start.
  destruct (inv_quiet _ Hi Hp) as (Hq & _ & Hr).
  assert (Hs : step st Cancel = cancel st) by (unfold step; now destruct (pc st)).
  rewrite Hs.
  destruct (cancel_midstream st Hp Hr) as (Hp1 & Hc1 & Hv1 & _).
  assert (Hi1 : inv (cancel st)) by (rewrite <- Hs; apply step_inv, Hi).
  destruct (settled_run after _ Hp1 (inv_timer _ Hi1)) as (_ & Hc).
  rewrite Hc1, Hv1 in Hc.
  split; [exact Hc|].
  apply terminals_nil. rewrite <- Hq.
  destruct Hc as [Hc | Hc].
  - now apply terminals_same_calls.
  - eapply terminals_more_token, Hc.
Qed.

End Terminal.

(* ===================================================================== *)
(** ** Completion *)
(* ===================================================================== *)

Section Completion.
Context {E : Engine}.

Lemma start_closure (k : variant) (c : callbacks) (ls : gmap string string) :
  kind (start k c ls) = k /\ cbs (start k c ls) = c.
Proof.
  destruct k; cbn; unfold streamChat, streamChatPublic, started;
    try destruct (bearer (getToken ls)); cbn; tauto.
Qed.

Lemma run_start_closure (k : variant) (c : callbacks) (ls : gmap string string)
    (script : list task) :
  kind (run script (start k c ls)) = k /\ cbs (run script (start k c ls)) = c.
Proof.
  destruct (run_closure script (start k c ls)) as ((Hk & Hc & _) & _).
  destruct (start_closure k c ls). split; congruence.
Qed.

Lemma startsWith_data (t : string) :
  Str.startsWith t "data: " = true ->
  Str.nonempty t = true /\ Str.startsWith t "event: " = false.
Proof.
  unfold Str.startsWith. destruct t as [|a r]; [discriminate|].
  change (String.prefix "data: " (String a r))
    with (if ascii_dec "d"%char a then String.prefix "ata: " r else false).
  change (String.prefix "event: " (String a r))
    with (if ascii_dec "e"%char a then String.prefix "vent: " r else false).
  destruct (ascii_dec "d"%char a) as [Hd|]; [|discriminate].
  intros _. split; [reflexivity|].
  destruct (ascii_dec "e"%char a) as [He|]; [|reflexivity].
  congruence.
Qed.

(** What a data line with a payload means. *)
Lemma classify_data (k : variant) (ce : option string) (line dataStr : string) :
  data_payload line = Some dataStr ->
  classify k ce line =
  if is_event ce "token" then Buffer dataStr
  else if is_event ce "done" then
    Done (default VUndefined
            (JSON.parse dataStr ≫= (fun data => JS.get data "conversation_id")))
  else
    match JSON.parse dataStr ≫= (fun data =>
            ev ← JS.get data "event"; Some (ev, JS.get_opt data "data")) with
    | Some (ev, payload) =>
        if JS.is_string ev "token" && JS.truthy payload then
          match k with
          | Authenticated => Direct payload
          | Public => Buffer (JS.toString payload)
          end
        else if JS.is_string ev "done" then
          Done (JS.get_opt payload "conversation_id")
        else Ignore
    | None =>
        if match ce with
           | None => true
           | Some e => negb (Str.nonempty e)
           end
        then Buffer dataStr
        else Ignore
    end.
Proof.
  unfold data_payload, classify.
  destruct (Str.startsWith (Str.trim line) "data: ") eqn:Hd; [|discriminate].
  destruct (startsWith_data _ Hd) as (-> & ->). cbn [negb].
  destruct (Str.nonempty (Str.trim (Str.slice 6 (Str.trim line)))); [|discriminate].
  now intros [= <-].
Qed.

Lemma process_lines_app (l1 l2 : list string) (st : state) :
  process_lines (l1 ++ l2) st =
  match process_lines l1 st with
  | Continue st1 => process_lines l2 st1
  | Return st1 => Return st1
  end.
Proof.
  revert st. induction l1 as [|x l1 IH]; intros st; [reflexivity|].
  cbn [app process_lines]. destruct (process_line x st); [apply IH | reflexivity].
Qed.

Lemma completions_invoke (c : call) (st : state) :
  completions (invoke c st) =
  (completions st ++ match c with OnComplete id => [id] | _ => [] end)%list.
Proof.
  unfold completions. cbn [calls invoke]. rewrite flat_map_app.
  cbn [flat_map]. now rewrite app_nil_r.
Qed.

Lemma errors_invoke (c : call) (st : state) :
  errors (invoke c st) =
  (errors st ++ match c with OnError e => [e] | _ => [] end)%list.
Proof.
  unfold errors. cbn [calls invoke]. rewrite flat_map_app.
  cbn [flat_map]. now rewrite app_nil_r.
Qed.

(** [onComplete] called from a state that has made no terminal call. *)
Lemma complete_settles (id : value) (st : state) :
  has_onComplete (cbs st) = true -> terminals st = [] ->
  let st' := set_pc Settled (call_onComplete id st) in
  pc st' = Settled
  /\ calls st' = (calls st ++ [OnComplete id])%list
  /\ completions st' = [id] /\ errors st' = [].
Proof.
  intros Hc Hq. cbn zeta. unfold call_onComplete. rewrite Hc.
  destruct (terminals_nil _ Hq) as (He & Hk).
  repeat split.
  - change (completions (invoke (OnComplete id) st) = [id]).
    now rewrite completions_invoke, Hk.
  - change (errors (invoke (OnComplete id) st) = []).
    now rewrite errors_invoke, He.
Qed.

(** C6. While a stream is reading: when a chunk brings the data line of
    a [done] event (the lines before it in the chunk having been
    processed, and the pending event name being [done]), [onComplete] is
    called with the [conversation_id] of the payload if the payload
    parses as JSON, and with [undefined] if it does not parse; the
    stream is then complete and [onError] has not been called.  When the
    transport signals the end of the data instead, [onComplete] is
    called with no conversation id. *)
Theorem done_or_end_of_data_completes (k : variant) (c : callbacks)
    (ls : gmap string string) (script : list task) :
  let st := run script (start k c ls) in
  pc st = AwaitRead -> has_onComplete c = true ->
  (forall (text rest line dataStr : string) (pre post : list string) (st1 : state),
      reassemble (buffer st) text = ((pre ++ line :: post)%list, rest) ->
      process_lines pre (set_buffer rest st) = Continue st1 ->
      is_event (currentEvent st1) "done" = true ->
      data_payload line = Some dataStr ->
      let id := match JSON.parse dataStr with
                | Some data => JS.get_opt data "conversation_id"
                | None => VUndefined
                end in
      let st' := step st (Chunk text) in
      pc st' = Settled
      /\ calls st' = (calls st1 ++ [OnComplete id])%list
      /\ completions st' = [id] /\ errors st' = [])
  /\ (let st' := step st EndOfData in
      pc st' = Settled
      /\ calls st' = (calls st ++ [OnComplete VUndefined])%list
      /\ completions st' = [VUndefined] /\ errors st' = []).
Proof.
  cbn zeta. set (st := run script (start k c ls)).
  intros Hp Hc.
  assert (Hi : inv st) by apply run_inv, inv_start.
  assert (Hne : pc st <> Settled) by congruence.
  destruct (inv_quiet _ Hi Hne) as (Hq & _).
  destruct (run_start_closure k c ls script) as (_ & Hcb). fold st in Hcb.
  split.
  - intros text rest line dataStr pre post st1 Hre Hpre Hev Hline.
    unfold step. rewrite Hp. unfold on_chunk. rewrite Hre.
    rewrite process_lines_app, Hpre. cbn [process_lines].
    rewrite process_line_perform, (classify_data _ _ _ _ Hline), Hev.
    assert (is_event (currentEvent st1) "token" = false) as ->.
    { unfold is_event in *. destruct (currentEvent st1) as [e|]; [|reflexivity].
      apply String.eqb_eq in Hev. now subst e. }
    cbn [perform].
    pose proof (process_lines_spec pre (set_buffer rest st)) as Hs.
    rewrite Hpre in Hs. destruct Hs as ((_ & Hcb1 & _) & _ & Hq1).
    cbn [cbs set_buffer] in Hcb1.
    change (terminals (set_buffer rest st)) with (terminals st) in Hq1.
    replace (default VUndefined
               (JSON.parse dataStr ≫= (fun data => JS.get data "conversation_id")))
      with (match JSON.parse dataStr with
            | Some data => JS.get_opt data "conversation_id"
            | None => VUndefined
            end)
      by (destruct (JSON.parse dataStr) as [d|]; reflexivity).
    apply complete_settles; congruence.
  - unfold step. rewrite Hp. apply complete_settles; congruence.
Qed.

End Completion.

(* ===================================================================== *)
(** ** Credentials and failed responses *)
(* ===================================================================== *)

Section Failures.
Context {E : Engine}.

Lemma step_timer (st : state) :
  step st TimerFires =
  match timers st with
  | S n => flush (set_flushTimeout (flushTimeout st) n st)
  | O => st
  end.
Proof. unfold step. now destruct (pc st). Qed.

Lemma noop_step (st : state) (t : task) :
  pc st = Settled -> timers st = 0 -> returned st = Noop -> step st t = st.
Proof.
  intros Hp Ht Hr. unfold step, cancel. rewrite Hp, Ht, Hr. now destruct t.
Qed.

Lemma noop_run (script : list task) (st : state) :
  pc st = Settled -> timers st = 0 -> returned st = Noop -> run script st = st.
Proof.
  intros Hp Ht Hr. induction script as [|t r IH]; [reflexivity|].
  now rewrite run_cons, noop_step.
Qed.

(** C8. A call of [streamChat] with no stored credential calls [onError]
    with the authentication error before it returns, makes no request,
    and returns a function that does nothing: whatever happens
    afterwards, cancellation included, the stream stays as the call left
    it, with that one call and no request. *)
Theorem no_credential_fails_synchronously (c : callbacks)
    (ls : gmap string string) (script : list task) :
  getToken ls = None ->
  let st := streamChat c ls in
  calls st = (if has_onError c
              then [OnError (Error "No autenticado. Por favor, inicia sesión.")]
              else [])
  /\ requests st = []
  /\ returned st = Noop
  /\ run script st = st.
Proof.
  intros Hn. cbn zeta. unfold streamChat. rewrite Hn. cbn [bearer].
  repeat split. now apply noop_run.
Qed.

(** C9. A data line that belongs to no [token] or [done] event and whose
    payload parses as JSON with [event] equal to [token] and a truthy
    [data] field: [streamChat] calls [onToken] with that field at once
    and changes nothing else, the coalescing buffer and its timer
    included; [streamChatPublic] calls nothing, appends the field to the
    coalescing buffer and has one run of [flush] scheduled, which
    delivers the buffer. *)
Theorem legacy_token_direct_or_buffered (st : state)
    (line dataStr : string) (data payload : value) :
  is_event (currentEvent st) "token" = false ->
  is_event (currentEvent st) "done" = false ->
  data_payload line = Some dataStr ->
  JSON.parse dataStr = Some data ->
  JS.get data "event" = Some (VStr "token") ->
  JS.get data "data" = Some payload ->
  JS.truthy payload = true ->
  (kind st = Authenticated ->
   process_line line st = Continue (invoke (OnToken payload) st))
  /\ (kind st = Public -> timer_ok st ->
      exists st',
        process_line line st = Continue st'
        /\ calls st' = calls st
        /\ visualBuffer st' = visualBuffer st ++ JS.toString payload
        /\ timers st' = 1
        /\ calls (step st' TimerFires)
           = if Str.nonempty (visualBuffer st')
             then (calls st ++ [OnToken (VStr (visualBuffer st'))])%list
             else calls st).
Proof.
  intros Ht Hd Hline Hparse Hev Hdata Htruthy.
  assert (Hget : JS.get_opt data "data" = payload)
    by (unfold JS.get_opt; now rewrite Hdata).
  assert (Hp : forall k, classify k (currentEvent st) line
                         = match k with
                           | Authenticated => Direct payload
                           | Public => Buffer (JS.toString payload)
                           end).
  { intros k. rewrite (classify_data _ _ _ _ Hline), Ht, Hd, Hparse.
    cbn [mbind option_bind]. rewrite Hev. cbn [mbind option_bind].
    rewrite Hget, Htruthy. reflexivity. }
  split.
  - intros Hk. rewrite process_line_perform, Hk, Hp. reflexivity.
  - intros Hk Hok. rewrite process_line_perform, Hk, Hp. cbn [perform].
    exists (append_token (JS.toString payload) st).
    destruct (append_token_frame (JS.toString payload) st) as (_ & Hc & Ht').
    specialize (Ht' Hok).
    assert (Hv : visualBuffer (append_token (JS.toString payload) st)
                 = visualBuffer st ++ JS.toString payload)
      by (unfold append_token; cbn; destruct (flushTimeout st); reflexivity).
    assert (Hf : flushTimeout (append_token (JS.toString payload) st) = true)
      by (unfold append_token; cbn; destruct (flushTimeout st) eqn:Hf; cbn; auto).
    unfold timer_ok in Ht'. rewrite Hf in Ht'.
    repeat split; auto.
    rewrite step_timer, Ht'.
    unfold flush. cbn [visualBuffer set_flushTimeout].
    destruct (Str.nonempty (visualBuffer (append_token (JS.toString payload) st)));
      cbn; now rewrite ?Hc.
Qed.

(** C10. A response with status 401 to [streamChat] removes the stored
    token from [localStorage], leaving the other keys, and the stream
    ends with [onError] called with the session-expired error.
    [streamChatPublic] leaves [localStorage] as it found it, whatever
    happens. *)
Theorem unauthorized_removes_token (c : callbacks) (ls : gmap string string)
    (script : list task) :
  (forall (statusText : string) (has_body : bool),
      let st := run script (streamChat c ls) in
      pc st = AwaitFetch ->
      let st' := step st (Response 401 statusText has_body) in
      getToken (localStorage st') = None
      /\ (forall key, key <> TOKEN_KEY ->
                      localStorage st' !! key = localStorage st !! key)
      /\ pc st' = Settled
      /\ calls st'
         = (calls st ++
            if has_onError c
            then [OnError (Error "Sesión expirada. Por favor, inicia sesión nuevamente.")]
            else [])%list)
  /\ localStorage (run script (streamChatPublic c ls)) = ls.
Proof.
  split.
  - intros statusText has_body. cbn zeta.
    set (st := run script (streamChat c ls)). intros Hp.
    assert (Hi : inv st) by apply run_inv, (inv_start Authenticated).
    assert (Hne : pc st <> Settled) by congruence.
    destruct (inv_quiet _ Hi Hne) as (_ & Ha & _).
    destruct (run_start_closure Authenticated c ls script) as (Hk & Hc).
    cbn [start] in Hk, Hc. fold st in Hk, Hc.
    unfold step. rewrite Hp. unfold on_response. rewrite Hk. cbn [N.eqb Pos.eqb].
    unfold catch, call_onError. cbn [aborted set_localStorage cbs negb]. rewrite Ha, Hc.
    cbn [negb]. unfold getToken, removeToken.
    destruct (has_onError c); cbn;
      (split; [apply lookup_delete_eq|]);
      (split; [intros key Hkey; now apply lookup_delete_ne|]);
      rewrite ?app_nil_r; auto.
  - assert (Hgen : forall st, kind st = Public ->
                              localStorage (run script st) = localStorage st).
    { induction script as [|t r IH]; intros st Hk; [reflexivity|].
      rewrite run_cons.
      destruct (step_closure st t) as ((Hk' & _) & _ & [Hl | (Ha & _)]).
      - rewrite IH by congruence. exact Hl.
      - congruence. }
    now rewrite Hgen.
Qed.

End Failures.

(* ===================================================================== *)
(** ** Failed responses *)
(* ===================================================================== *)

Section FailedResponse.
Context {E : Engine}.

Lemma parse_step_defined (st st' : JSON.pstate) (t : JSON.token) :
  JSON.parse_step st t = Some st' ->
  match st' with JSON.PDone v => v <> VUndefined | _ => True end.
Proof.
  assert (Hd : forall v stk, v <> VUndefined ->
                 match JSON.deliver v stk with
                 | JSON.PDone w => w <> VUndefined
                 | _ => True
                 end).
  { intros v [|[items|fields key] stk] Hv; cbn; auto. }
  assert (Hs : forall stk st', JSON.start_value t stk = Some st' ->
                 match st' with JSON.PDone w => w <> VUndefined | _ => True end).
  { intros stk s. destruct t; cbn; intros [= <-]; auto; now apply Hd. }
  destruct st; cbn; try discriminate; try apply Hs;
    destruct t; try discriminate; intros [= <-]; auto;
    try (now apply Hd); try (eapply Hs; cbn; reflexivity).
Qed.

Lemma parse_run_defined (st : JSON.pstate) (ts : list JSON.token) (v : value) :
  match st with JSON.PDone w => w <> VUndefined | _ => True end ->
  JSON.parse_run st ts = Some v -> v <> VUndefined.
Proof.
  revert st. induction ts as [|t r IH]; intros st Hst; cbn.
  - destruct st; try discriminate. now intros [= <-].
  - destruct (JSON.parse_step st t) as [st'|] eqn:Hs; [|discriminate].
    cbn. apply IH. eapply parse_step_defined, Hs.
Qed.

(** [JSON.parse] never gives [undefined]. *)
Lemma parse_defined (s : string) (v : value) :
  JSON.parse s = Some v -> v <> VUndefined.
Proof.
  unfold JSON.parse. destruct (JSON.lex s) as [ts|]; [|discriminate].
  cbn. now apply parse_run_defined.
Qed.

Lemma catch_reports (e : error) (st : state) :
  aborted st = false -> has_onError (cbs st) = true -> terminals st = [] ->
  let st' := catch (Some e) st in
  pc st' = Settled /\ errors st' = [e] /\ completions st' = [].
Proof.
  intros Ha He Hq. cbn zeta. unfold catch, call_onError. rewrite Ha, He.
  cbn [negb default]. destruct (terminals_nil _ Hq) as (Her & Hco).
  repeat split.
  - change (errors (invoke (OnError e) st) = [e]). now rewrite errors_invoke, Her.
  - change (completions (invoke (OnError e) st) = []).
    now rewrite completions_invoke, Hco.
Qed.

(** C7, as the code has it.  For a stream that awaits its response and
    was given [onError]:
    - a response with a non-success status (other than a 401 answered to
      [streamChat], which gives the session-expired error) whose body is not
      the JSON literal [null] ends the stream with exactly one [onError],
      whose message is the server-supplied [detail] when the body is
      JSON with a truthy [detail], and the message made from the status
      otherwise; [onComplete] is not called;
    - a response with a success status and no body ends the stream with
      exactly one [onError], with the fixed no-response message;
    - in particular, status 500 with a body whose [detail] is
      [server overloaded] gives that message. *)
Theorem failed_response_reports_error (k : variant) (c : callbacks)
    (ls : gmap string string) (script : list task)
    (status : N) (statusText : string) (has_body : bool) (body : option string) :
  let st := run script (start k c ls) in
  pc st = AwaitFetch -> has_onError c = true ->
  (ok status = false ->
   (k = Authenticated -> status <> 401%N) ->
   body ≫= JSON.parse <> Some VNull ->
   let st' := run [Response status statusText has_body; ErrorBody body] st in
   pc st' = Settled
   /\ errors st' = [Error (error_message status statusText body)]
   /\ completions st' = [])
  /\ (ok status = true ->
      let st' := step st (Response status statusText false) in
      pc st' = Settled
      /\ errors st' = [Error "No se recibió respuesta del servidor"]
      /\ completions st' = [])
  /\ (let st' := run [Response 500 statusText has_body;
                      ErrorBody (Some overloaded_body)] st in
      errors st' = [Error "server overloaded"]).
Proof.
  cbn zeta. set (st := run script (start k c ls)). intros Hp He.
  assert (Hi : inv st) by apply run_inv, inv_start.
  assert (Hne : pc st <> Settled) by congruence.
  destruct (inv_quiet _ Hi Hne) as (Hq & Ha & _).
  destruct (run_start_closure k c ls script) as (Hk & Hc). fold st in Hk, Hc.
  assert (Hbody : forall s text b bd,
             ok s = false -> (k = Authenticated -> s <> 401%N) ->
             bd ≫= JSON.parse <> Some VNull ->
             let st' := run [Response s text b; ErrorBody bd] st in
             pc st' = Settled
             /\ errors st' = [Error (error_message s text bd)]
             /\ completions st' = []).
  { intros s text b bd Hok H401 Hnull. cbn zeta.
    rewrite !run_cons.
    assert (Hr : step st (Response s text b) = set_pc (AwaitErrorBody s text) st).
    { unfold step. rewrite Hp. unfold on_response. rewrite Hk, Hok.
      destruct k; [|reflexivity].
      destruct (N.eqb_spec s 401) as [->|_]; [now contradiction H401 | reflexivity]. }
    rewrite Hr. cbn [run fold_left]. unfold step. cbn [pc set_pc].
    unfold error_message.
    destruct (bd ≫= JSON.parse) as [data|] eqn:Hparse.
    - assert (Hdef : data <> VUndefined).
      { destruct bd as [s0|]; [|discriminate]. cbn in Hparse.
        eapply parse_defined, Hparse. }
      unfold throw_status, JS.get_opt.
      assert (Hget : JS.get data "detail"
                     = Some (default VUndefined (JS.get data "detail"))).
      { destruct data; try reflexivity; congruence. }
      rewrite Hget. cbn [default].
      apply catch_reports; [exact Ha | cbn [cbs set_pc]; congruence | exact Hq].
    - unfold on_rejected. cbn [pc set_pc]. unfold throw_status.
      cbn [JS.get JS.lookup_field default JS.truthy].
      apply catch_reports; [exact Ha | cbn [cbs set_pc]; congruence | exact Hq]. }
  split; [|split].
  - apply Hbody.
  - intros Hok. unfold step. rewrite Hp. unfold on_response. rewrite Hk, Hok.
    cbn [negb].
    assert (H401 : (status =? 401)%N = false).
    { apply N.eqb_neq. intros ->. discriminate Hok. }
    rewrite H401.
    destruct k; apply catch_reports; solve [exact Ha | congruence | exact Hq].
  - destruct (Hbody 500%N statusText has_body (Some overloaded_body))
      as (_ & Her & _); [reflexivity | discriminate | discriminate |].
    exact Her.
Qed.

End FailedResponse.

(* ===================================================================== *)
(** ** Terminal callbacks: at most one, and one when the transport ends *)
(* ===================================================================== *)

Section Progress.
Context {E : Engine}.

(** The [catch] block of a stream that was not cancelled and has made no
    terminal call returns with one [onError]. *)
Lemma catch_ends (reason : option error) (st : state) :
  aborted st = false -> has_onError (cbs st) = true -> terminals st = [] ->
  let st' := catch reason st in
  pc st' = Settled /\ completions st' = [] /\ exists e, errors st' = [e].
Proof.
  intros Ha He Hq. cbn zeta.
  assert (Hc : catch reason st
               = catch (Some (default (Error "Error desconocido al recibir el stream")
                                reason)) st)
    by (destruct reason; reflexivity).
  rewrite Hc.
  destruct (catch_reports
              (default (Error "Error desconocido al recibir el stream") reason)
              st Ha He Hq) as (H1 & H2 & H3).
  eauto.
Qed.

Lemma throw_status_ends (status : N) (statusText : string) (data : value)
    (st : state) :
  aborted st = false -> has_onError (cbs st) = true -> terminals st = [] ->
  let st' := throw_status status statusText data st in
  pc st' = Settled /\ completions st' = [] /\ exists e, errors st' = [e].
Proof.
  intros Ha He Hq. unfold throw_status.
  destruct (JS.get data "detail"); now apply catch_ends.
Qed.

Lemma error_body_ends (status : N) (statusText : string) (text : option string)
    (st : state) :
  pc st = AwaitErrorBody status statusText ->
  aborted st = false -> has_onError (cbs st) = true -> terminals st = [] ->
  let st' := step st (ErrorBody text) in
  pc st' = Settled /\ completions st' = [] /\ exists e, errors st' = [e].
Proof.
  intros Hp Ha He Hq. cbn zeta. unfold step. rewrite Hp.
  destruct (text ≫= JSON.parse); [now apply throw_status_ends|].
  unfold on_rejected. rewrite Hp. now apply throw_status_ends.
Qed.

(** C1. For every stream started with [streamChat] or [streamChatPublic]
    and every sequence of tasks, [onError] has been called at most once,
    [onComplete] at most once, and at most one of the two; and once the
    function has returned without the caller having cancelled, exactly
    one of them has been called (when the caller passed both), whatever
    happens later.  The function does return, with its terminal call:
    while it is suspended, the task that ends the transport it waits on
    (the rejection of the pending [fetch] or [read], the body of a failed
    response, the end of the data) makes it return with [onComplete()]
    and no [onError] when it is the end of the data, and with one
    [onError] and no [onComplete] otherwise, and the count stays one
    whatever happens later; and a response that is a failure, or has no
    body, ends the stream with one [onError] once its body has been read
    or has failed.  [onToken] is not restricted. *)
Theorem at_most_one_terminal_callback (k : variant) (c : callbacks)
    (ls : gmap string string) (script later : list task) :
  let st := run script (start k c ls) in
  length (errors st) <= 1
  /\ length (completions st) <= 1
  /\ length (errors st) + length (completions st) <= 1
  /\ (pc st = Settled -> aborted st = false ->
      has_onError c = true -> has_onComplete c = true ->
      length (errors (run later st)) + length (completions (run later st)) = 1)
  /\ (pc st <> Settled -> has_onError c = true -> has_onComplete c = true ->
      forall t, transport_ends (pc st) t = true ->
        let st' := step st t in
        pc st' = Settled
        /\ (t = EndOfData -> completions st' = [VUndefined] /\ errors st' = [])
        /\ (t <> EndOfData -> completions st' = [] /\ exists e, errors st' = [e])
        /\ length (errors (run later st')) + length (completions (run later st')) = 1)
  /\ (pc st = AwaitFetch -> has_onError c = true ->
      forall status statusText has_body body,
        ok status && has_body = false ->
        let st' := run [Response status statusText has_body; ErrorBody body] st in
        pc st' = Settled /\ completions st' = [] /\ (exists e, errors st' = [e])
        /\ length (errors (run later st')) + length (completions (run later st')) = 1).
Proof.
  cbn zeta. set (st := run script (start k c ls)).
  assert (Hi : inv st) by apply run_inv, inv_start.
  pose proof (inv_once _ Hi) as Ho. rewrite terminals_count in Ho.
  destruct (run_start_closure k c ls script) as (Hk & Hcb). fold st in Hk, Hcb.
  assert (Hlater : forall s, inv s -> pc s = Settled ->
            length (errors s) + length (completions s) = 1 ->
            length (errors (run later s)) + length (completions (run later s)) = 1).
  { intros s His Hps Hone.
    now rewrite <- terminals_count, (settled_terminals later s Hps (inv_timer _ His)),
      terminals_count. }
  split; [lia|]. split; [lia|]. split; [lia|]. split; [|split].
  - intros Hp Ha He Hc.
    rewrite <- terminals_count, (settled_terminals later st Hp (inv_timer _ Hi)).
    apply (inv_exact _ Hi); congruence.
  - intros Hp He Hc t Ht.
    destruct (inv_quiet _ Hi Hp) as (Hq & Ha & _).
    assert (He' : has_onError (cbs st) = true) by congruence.
    assert (Hc' : has_onComplete (cbs st) = true) by congruence.
    assert (Hi' : inv (step st t)) by apply step_inv, Hi.
    assert (Hcase : pc (step st t) = Settled
              /\ (t = EndOfData ->
                  completions (step st t) = [VUndefined] /\ errors (step st t) = [])
              /\ (t <> EndOfData ->
                  completions (step st t) = []
                  /\ exists e, errors (step st t) = [e])).
    { clear Hi'. destruct (pc st) eqn:Hpc; destruct t; cbn in Ht; try discriminate Ht.
      - unfold step. rewrite Hpc. unfold on_rejected. rewrite Hpc.
        destruct (catch_ends reason st Ha He' Hq) as (A & B & C).
        split; [exact A|]. split; [discriminate | auto].
      - destruct (error_body_ends status statusText text st Hpc Ha He' Hq)
          as (A & B & C).
        split; [exact A|]. split; [discriminate | auto].
      - unfold step. rewrite Hpc.
        destruct (complete_settles VUndefined st Hc' Hq) as (A & _ & B & C).
        split; [exact A|]. split; [auto|]. intros H. now contradiction H.
      - unfold step. rewrite Hpc. unfold on_rejected. rewrite Hpc.
        destruct (catch_ends reason st Ha He' Hq) as (A & B & C).
        split; [exact A|]. split; [discriminate | auto]. }
    destruct Hcase as (A & B & C).
    split; [exact A|]. split; [exact B|]. split; [exact C|].
    apply (Hlater _ Hi' A).
    destruct t;
      try (destruct C as (X & e & Y); [discriminate|]; rewrite X, Y; reflexivity).
    destruct (B eq_refl) as (X & Y). rewrite X, Y. reflexivity.
  - intros Hp He status statusText has_body body Hok.
    assert (Hne : pc st <> Settled) by congruence.
    destruct (inv_quiet _ Hi Hne) as (Hq & Ha & _).
    assert (He' : has_onError (cbs st) = true) by congruence.
    assert (Hi' : inv (run [Response status statusText has_body; ErrorBody body] st))
      by apply run_inv, Hi.
    rewrite run_cons in *. cbn [run fold_left] in *.
    assert (Hr : step st (Response status statusText has_body)
                 = on_response status statusText has_body st)
      by (unfold step; now rewrite Hp).
    assert (Hshape :
              (exists reason s0,
                  step st (Response status statusText has_body) = catch reason s0
                  /\ aborted s0 = false /\ has_onError (cbs s0) = true
                  /\ terminals s0 = [])
              \/ step st (Response status statusText has_body)
                 = set_pc (AwaitErrorBody status statusText) st).
    { rewrite Hr. unfold on_response.
      assert (Hbody : ok status = true -> has_body = false)
        by (intros H; now rewrite H in Hok).
      destruct (kind st).
      - destruct (status =? 401)%N.
        + left. eexists _, _. split; [reflexivity|]. cbn. auto.
        + destruct (ok status); cbn [negb]; [|now right].
          rewrite (Hbody eq_refl). cbn [negb]. left. eexists _, _. eauto.
      - destruct (ok status); cbn [negb]; [|now right].
        rewrite (Hbody eq_refl). cbn [negb]. left. eexists _, _. eauto. }
    assert (Hend : pc (step (step st (Response status statusText has_body))
                         (ErrorBody body)) = Settled
                   /\ completions (step (step st (Response status statusText has_body))
                                     (ErrorBody body)) = []
                   /\ exists e, errors (step (step st (Response status statusText has_body))
                                          (ErrorBody body)) = [e]).
    { destruct Hshape as [(reason & s0 & -> & Ha0 & He0 & Hq0) | ->].
      - destruct (catch_ends reason s0 Ha0 He0 Hq0) as (A & B & C).
        assert (Hs : step (catch reason s0) (ErrorBody body) = catch reason s0)
          by (unfold step; now rewrite A).
        rewrite Hs. auto.
      - now apply (error_body_ends status statusText body). }
    destruct Hend as (A & B & e & C).
    split; [exact A|]. split; [exact B|]. split; [eauto|].
    apply (Hlater _ Hi' A). now rewrite B, C.
Qed.

End Progress.

(* ===================================================================== *)
(** ** Deliveries, line by line *)
(* ===================================================================== *)

Section Deliveries.
Context {E : Engine}.

Lemma phase_eq_dec (p q : phase) : {p = q} + {p <> q}.
Proof. repeat decide equality. Qed.

Lemma state_eta (st : state) : set_buffer (buffer st) st = st.
Proof. now destruct st. Qed.

Lemma set_pc_same (st : state) : set_pc (pc st) st = st.
Proof. now destruct st. Qed.

Lemma perform_buffer (a : action) (b : string) (st : state) :
  perform a (set_buffer b st) = flow_map (set_buffer b) (perform a st).
Proof.
  destruct a; cbn [perform flow_map]; try reflexivity.
  - unfold append_token. cbn. now destruct (flushTimeout st).
  - unfold call_onComplete. cbn. now destruct (has_onComplete (cbs st)).
Qed.

Lemma process_line_buffer (line b : string) (st : state) :
  process_line line (set_buffer b st) = flow_map (set_buffer b) (process_line line st).
Proof. rewrite !process_line_perform. apply perform_buffer. Qed.

Lemma process_lines_buffer (lines : list string) (b : string) (st : state) :
  process_lines lines (set_buffer b st)
  = flow_map (set_buffer b) (process_lines lines st).
Proof.
  revert st. induction lines as [|l r IH]; intros st; [reflexivity|].
  cbn [process_lines]. rewrite process_line_buffer.
  destruct (process_line l st); cbn [flow_map]; [apply IH | reflexivity].
Qed.

Lemma step_timer_buffer (b : string) (st : state) :
  step (set_buffer b st) TimerFires = set_buffer b (step st TimerFires).
Proof.
  rewrite !step_timer. cbn [timers set_buffer].
  destruct (timers st); [reflexivity|].
  unfold flush. cbn. now destruct (Str.nonempty (visualBuffer st)).
Qed.

Lemma line_step_buffer (t : option string) (b : string) (st : state) :
  line_step (set_buffer b st) t = set_buffer b (line_step st t).
Proof.
  destruct t as [line|]; cbn [line_step]; [|apply step_timer_buffer].
  cbn [pc set_buffer]. destruct (pc st); try reflexivity.
  rewrite process_line_buffer. now destruct (process_line line st).
Qed.

Lemma line_run_buffer (ts : list (option string)) (b : string) (st : state) :
  line_run ts (set_buffer b st) = set_buffer b (line_run ts st).
Proof.
  revert st. induction ts as [|t r IH]; intros st; [reflexivity|].
  cbn [line_run fold_left]. rewrite line_step_buffer. apply IH.
Qed.

Lemma forget_line_run (ts : list (option string)) (x y : state) :
  forget x = forget y -> forget (line_run ts x) = forget (line_run ts y).
Proof.
  intros H. rewrite <- (state_eta x), <- (state_eta y), !line_run_buffer.
  unfold forget in *. cbn [set_buffer] in *.
  change (set_buffer "" (line_run ts x) = set_buffer "" (line_run ts y)).
  rewrite <- (line_run_buffer ts "" x), <- (line_run_buffer ts "" y).
  now rewrite H.
Qed.

Lemma line_run_app (a b : list (option string)) (st : state) :
  line_run (a ++ b) st = line_run b (line_run a st).
Proof. unfold line_run. apply fold_left_app. Qed.

(** Lines reaching a stream that is not reading are not processed. *)
Lemma line_run_idle (lines : list string) (st : state) :
  pc st <> AwaitRead -> line_run (List.map Some lines) st = st.
Proof.
  intros Hp. induction lines as [|l r IH]; [reflexivity|].
  cbn [List.map line_run fold_left line_step].
  destruct (pc st); try contradiction; exact IH.
Qed.

(** The lines of a chunk, taken one at a time, do what the loop does. *)
Lemma line_run_lines (lines : list string) (st : state) :
  pc st = AwaitRead ->
  line_run (List.map Some lines) st =
  match process_lines lines st with
  | Continue st' => st'
  | Return st' => set_pc Settled st'
  end.
Proof.
  revert st. induction lines as [|l r IH]; intros st Hp; [reflexivity|].
  cbn [List.map line_run fold_left line_step process_lines]. rewrite Hp.
  pose proof (perform_spec (classify (kind st) (currentEvent st) l) st) as Hs.
  rewrite <- process_line_perform in Hs.
  destruct (process_line l st) as [st1|st1].
  - apply IH. destruct Hs as ((_ & _ & _ & _ & _ & Hp1 & _) & _). congruence.
  - apply line_run_idle. cbn. discriminate.
Qed.

(** A chunk, up to the line buffer, is its lines taken one at a time. *)
Lemma on_chunk_lines (text : string) (st : state) :
  pc st = AwaitRead -> aborted st = false ->
  forget (on_chunk text st)
  = forget (line_run (List.map Some (fst (reassemble (buffer st) text))) st)
  /\ (pc (on_chunk text st) = AwaitRead ->
      buffer (on_chunk text st) = snd (reassemble (buffer st) text)).
Proof.
  intros Hp Ha. unfold on_chunk.
  destruct (reassemble (buffer st) text) as [lines rest]. cbn [fst snd].
  rewrite line_run_lines by exact Hp.
  rewrite process_lines_buffer.
  pose proof (process_lines_spec lines st) as Hs.
  destruct (process_lines lines st) as [st2|st2]; cbn [flow_map].
  - destruct Hs as ((_ & _ & _ & Ha2 & _ & Hp2 & _) & _).
    unfold loop. cbn [aborted set_buffer]. rewrite Ha2, Ha. split.
    + rewrite <- Hp at 1. rewrite <- Hp2.
      change (set_pc (pc st2) (set_buffer rest st2))
        with (set_buffer rest (set_pc (pc st2) st2)).
      now rewrite set_pc_same.
    + reflexivity.
  - split; [reflexivity | discriminate].
Qed.

Lemma step_timer_frame (st : state) :
  pc (step st TimerFires) = pc st /\ buffer (step st TimerFires) = buffer st.
Proof.
  rewrite step_timer. destruct (timers st); [tauto|].
  unfold flush. cbn. destruct (Str.nonempty (visualBuffer st)); cbn; tauto.
Qed.

(** A delivery, up to the line buffer, is the run of its lines and timer
    firings. *)
Lemma delivery_expand (script : list task) (st : state) (b : string) :
  delivery script -> inv st -> (pc st = AwaitRead -> buffer st = b) ->
  forget (run script st) = forget (line_run (expand b script) st).
Proof.
  revert st b. induction script as [|t r IH]; intros st b Hd Hi Hb; [reflexivity|].
  unfold delivery in Hd. cbn [forallb] in Hd. apply andb_true_iff in Hd as [Ht Hd].
  rewrite run_cons. destruct t; try discriminate Ht; cbn [expand].
  - (* Chunk *)
    destruct (reassemble b text) as [lines rest] eqn:Hre.
    rewrite line_run_app.
    destruct (pc st) eqn:Hp.
    1,2,4: (assert (Hs : step st (Chunk text) = st) by (unfold step; now rewrite Hp));
           rewrite Hs, line_run_idle by congruence;
           apply IH; [exact Hd | exact Hi | congruence].
    assert (Hne : pc st <> Settled) by congruence.
    destruct (inv_quiet _ Hi Hne) as (_ & Ha & _).
    assert (Hs : step st (Chunk text) = on_chunk text st)
      by (unfold step; now rewrite Hp).
    rewrite Hs. rewrite <- (Hb eq_refl) in Hre.
    destruct (on_chunk_lines text st Hp Ha) as (Hf & Hbuf).
    rewrite Hre in Hf, Hbuf. cbn [fst snd] in Hf, Hbuf.
    rewrite (IH (on_chunk text st) rest Hd);
      [| rewrite <- Hs; apply step_inv, Hi | exact Hbuf].
    apply forget_line_run, Hf.
  - (* TimerFires *)
    cbn [line_run fold_left line_step]. apply (IH _ b Hd).
    + apply step_inv, Hi.
    + destruct (step_timer_frame st) as (Hp & Hbf). rewrite Hp, Hbf. exact Hb.
Qed.

Lemma lines_of_app (a b : list (option string)) :
  lines_of (a ++ b) = (lines_of a ++ lines_of b)%list.
Proof. unfold lines_of. apply flat_map_app. Qed.

Lemma lines_of_some (lines : list string) : lines_of (List.map Some lines) = lines.
Proof.
  induction lines as [|l r IH]; [reflexivity|].
  unfold lines_of in *. cbn [List.map flat_map app]. now rewrite IH.
Qed.

(** The lines of a delivery are the lines of its text. *)
Lemma lines_of_expand (script : list task) (b : string) :
  delivery script ->
  lines_of (expand b script) = fst (reassemble_all b (chunks_of script)).
Proof.
  revert b. induction script as [|t r IH]; intros b Hd; [reflexivity|].
  unfold delivery in Hd. cbn [forallb] in Hd. apply andb_true_iff in Hd as [Ht Hd].
  destruct t; try discriminate Ht; cbn [expand chunks_of flat_map app reassemble_all].
  - destruct (reassemble b text) as [lines rest].
    rewrite lines_of_app, lines_of_some, (IH rest Hd).
    fold (chunks_of r). now destruct (reassemble_all rest (chunks_of r)).
  - apply (IH b Hd).
Qed.

Lemma expand_then_timer (script : list task) (b : string) :
  expand b (script ++ [TimerFires]) = (expand b script ++ [None])%list.
Proof.
  revert b. induction script as [|t r IH]; intros b; [reflexivity|].
  destruct t; cbn [app expand]; rewrite ?IH; try reflexivity.
  destruct (reassemble b text). now rewrite IH, app_assoc.
Qed.

Lemma line_step_timer_ok (st : state) (t : option string) :
  timer_ok st -> timer_ok (line_step st t).
Proof.
  intros Ht. destruct t as [line|]; cbn [line_step].
  - destruct (pc st); try exact Ht.
    pose proof (perform_spec (classify (kind st) (currentEvent st) line) st) as Hs.
    rewrite <- process_line_perform in Hs.
    destruct (process_line line st); destruct Hs as (_ & Hk & _); now apply Hk.
  - rewrite step_timer. destruct (timers st) eqn:Hn; [exact Ht|].
    unfold flush, timer_ok. cbn.
    unfold timer_ok in Ht. rewrite Hn in Ht.
    destruct (Str.nonempty (visualBuffer st)), (flushTimeout st); cbn; lia.
Qed.

(** The timer firing twice in a row does what it does firing once. *)
Lemma timer_twice (st : state) :
  timer_ok st -> step (step st TimerFires) TimerFires = step st TimerFires.
Proof.
  intros Ht. rewrite (step_timer (step st TimerFires)).
  assert (Hz : timers (step st TimerFires) = 0); [|now rewrite Hz].
  rewrite step_timer. unfold timer_ok in Ht.
  destruct (timers st) eqn:Hn; [exact Hn|].
  unfold flush. cbn.
  destruct (Str.nonempty (visualBuffer st)), (flushTimeout st); cbn; lia.
Qed.

Lemma all_runs_after_timer (lines : list string) (st : state) :
  timer_ok st ->
  forall s, In s (all_runs lines (step st TimerFires)) -> In s (all_runs lines st).
Proof.
  intros Ht s. destruct lines as [|l r]; cbn [all_runs]; rewrite timer_twice by exact Ht.
  - cbn. tauto.
  - rewrite !in_app_iff. tauto.
Qed.

(** Whatever the timing of the timer, a run of line tasks ends in one of
    the states of [all_runs]. *)
Lemma line_run_in_all_runs (ts : list (option string)) (st : state) :
  timer_ok st -> In (line_run ts st) (all_runs (lines_of ts) st).
Proof.
  revert st. induction ts as [|t r IH]; intros st Ht.
  - cbn. tauto.
  - cbn [line_run fold_left]. destruct t as [l|].
    + cbn [lines_of flat_map app all_runs]. fold (lines_of r).
      rewrite in_app_iff. left. apply IH. now apply line_step_timer_ok.
    + cbn [lines_of flat_map app line_step]. fold (lines_of r).
      apply all_runs_after_timer; [exact Ht|].
      apply IH. now apply (line_step_timer_ok st None).
Qed.

(** A delivery does not wake a stream that is not reading. *)
Lemma delivery_idle (script : list task) (st : state) :
  delivery script -> pc st <> AwaitRead -> pc (run script st) = pc st.
Proof.
  revert st. induction script as [|t r IH]; intros st Hd Hp; [reflexivity|].
  unfold delivery in Hd. cbn [forallb] in Hd. apply andb_true_iff in Hd as [Ht Hd].
  rewrite run_cons. destruct t; try discriminate Ht.
  - assert (Hs : step st (Chunk text) = st)
      by (unfold step; destruct (pc st); congruence).
    rewrite Hs. now apply IH.
  - destruct (step_timer_frame st) as (Hpc & _).
    rewrite IH; [exact Hpc | exact Hd | congruence].
Qed.

(** While a stream is reading, its line buffer is the buffer of the
    reassembler run over the chunks received. *)
Lemma delivery_buffer (script : list task) (st : state) :
  delivery script -> inv st -> pc (run script st) = AwaitRead ->
  buffer (run script st) = snd (reassemble_all (buffer st) (chunks_of script)).
Proof.
  revert st. induction script as [|t r IH]; intros st Hd Hi Hp; [reflexivity|].
  pose proof Hd as Hd0.
  unfold delivery in Hd. cbn [forallb] in Hd. apply andb_true_iff in Hd as [Ht Hd].
  assert (Hst : pc st = AwaitRead).
  { destruct (phase_eq_dec (pc st) AwaitRead) as [|Hne]; [assumption|].
    rewrite (delivery_idle _ st Hd0 Hne) in Hp. contradiction. }
  rewrite run_cons in Hp |- *. destruct t; try discriminate Ht.
  - cbn [chunks_of flat_map app reassemble_all]. fold (chunks_of r).
    assert (Hs : step st (Chunk text) = on_chunk text st)
      by (unfold step; now rewrite Hst).
    rewrite Hs in Hp |- *.
    assert (Hne : pc st <> Settled) by congruence.
    destruct (inv_quiet _ Hi Hne) as (_ & Ha & _).
    destruct (on_chunk_lines text st Hst Ha) as (_ & Hbuf).
    assert (Hp1 : pc (on_chunk text st) = AwaitRead).
    { destruct (phase_eq_dec (pc (on_chunk text st)) AwaitRead) as [|Hne1];
        [assumption|].
      rewrite (delivery_idle _ _ Hd Hne1) in Hp. contradiction. }
    rewrite (IH _ Hd) by (try (rewrite <- Hs; apply step_inv); assumption).
    rewrite (Hbuf Hp1).
    destruct (reassemble (buffer st) text) as [lines rest]. cbn [snd].
    now destruct (reassemble_all rest (chunks_of r)).
  - cbn [chunks_of flat_map app]. fold (chunks_of r).
    destruct (step_timer_frame st) as (_ & Hbf).
    rewrite (IH _ Hd) by (try apply step_inv; assumption).
    now rewrite Hbf.
Qed.

Lemma observed_forget (st : state) : observed (forget st) = observed st.
Proof. reflexivity. Qed.

(** What is observed after a delivery of a text that ends with the timer
    firing is observed, the timer having fired, at the end of one of the
    runs over the lines of the text. *)
Lemma delivery_observed (script : list task) (st : state) :
  delivery script -> inv st -> pc st = AwaitRead -> buffer st = "" ->
  exists s,
    In s (all_runs (removelast (Str.split (Str.concat (chunks_of script)))) st)
    /\ observed (run (script ++ [TimerFires]) st) = observed (step s TimerFires).
Proof.
  intros Hd Hi Hp Hb.
  exists (line_run (expand "" script) st). split.
  - pose proof (line_run_in_all_runs (expand "" script) st (inv_timer _ Hi)) as H.
    rewrite (lines_of_expand script "" Hd) in H.
    now rewrite (reassemble_all_split "" (chunks_of script) eq_refl) in H.
  - assert (Hd' : delivery (script ++ [TimerFires])).
    { unfold delivery in *. rewrite forallb_app, Hd. reflexivity. }
    rewrite <- observed_forget,
      (delivery_expand (script ++ [TimerFires]) st "" Hd' Hi (fun _ => Hb)),
      observed_forget, expand_then_timer, line_run_app.
    reflexivity.
Qed.

End Deliveries.

(* ===================================================================== *)
(** ** The wire texts of the specification *)
(* ===================================================================== *)

Section WireTexts.
Context {E : Engine}.

Lemma shown_int (text : string) (z : Z) (st : state) :
  shown text (is_int z) st = true -> observed st = (text, [VNum (NInt z)], []).
Proof.
  unfold shown, observed. intros H.
  apply andb_true_iff in H as [H He]. apply andb_true_iff in H as [Ht Hc].
  apply String.eqb_eq in Ht.
  destruct (completions st) as [|v [|]]; try discriminate.
  destruct v as [| | |[x|]| | |]; try discriminate. apply Z.eqb_eq in Hc.
  destruct (errors st); [|discriminate]. congruence.
Qed.

Lemma shown_undefined (text : string) (st : state) :
  shown text is_undefined st = true -> observed st = (text, [VUndefined], []).
Proof.
  unfold shown, observed. intros H.
  apply andb_true_iff in H as [H He]. apply andb_true_iff in H as [Ht Hc].
  apply String.eqb_eq in Ht.
  destruct (completions st) as [|v [|]]; try discriminate.
  destruct v; try discriminate.
  destruct (errors st); [|discriminate]. congruence.
Qed.

(** A stream that has just received a successful response with a body. *)
Lemma reading (k : variant) :
  let st := step (start k both logged_in) (Response 200 "OK" true) in
  inv st /\ pc st = AwaitRead /\ buffer st = "".
Proof.
  cbn zeta. split; [apply step_inv, inv_start|]. now destruct k.
Qed.

(** Every delivery of [text] to [st], ending with the timer firing,
    shows what all the runs over the lines of [text] show. *)
Lemma delivery_shown (script : list task) (text shows : string)
    (id : value -> bool) (st : state) :
  delivery script -> Str.concat (chunks_of script) = text ->
  inv st -> pc st = AwaitRead -> buffer st = "" ->
  forallb (fun s => shown shows id (step s TimerFires))
    (all_runs (removelast (Str.split text)) st) = true ->
  shown shows id (run (script ++ [TimerFires]) st) = true.
Proof.
  intros Hd Ht Hi Hp Hb Hall.
  destruct (delivery_observed script st Hd Hi Hp Hb) as (s & Hin & Ho).
  rewrite Ht in Hin. rewrite forallb_forall in Hall. specialize (Hall s Hin).
  unfold shown in *. unfold observed in Ho.
  injection Ho as -> -> ->. exact Hall.
Qed.

(** C3, as the code has it.  Given the named-event wire text of the
    specification, cut into chunks in any way, the timer firing at any
    moments in between and once at the end, either stream delivers token
    text whose concatenation is [Helloworld] (the payload of a data line
    is trimmed, so the space that starts the second token is lost),
    calls [onComplete] once, with 42, and does not call [onError]. *)
Theorem named_events_dispatch (k : variant) (script : list task) :
  delivery script ->
  Str.concat (chunks_of script) = named_wire ->
  observed (run (Response 200 "OK" true :: script ++ [TimerFires])
              (start k both logged_in))
  = ("Helloworld", [VNum (NInt 42)], []).
Proof.
  intros Hd Ht. rewrite run_cons. apply shown_int.
  destruct (reading k) as (Hi & Hp & Hb).
  apply (delivery_shown script named_wire); try assumption.
  destruct k; vm_compute; reflexivity.
Qed.

(** C5. Given the legacy wire text of the specification, either stream
    behaves as it does on the named-event form of the same content,
    however each text is cut into chunks and whenever the timer fires in
    between (and once at the end): the same token text, [Hi], is
    delivered, [onComplete] is called once, with [undefined] as
    conversation id, and [onError] is not called. *)
Theorem legacy_form_equivalent (k : variant) (legacy named : list task) :
  delivery legacy -> Str.concat (chunks_of legacy) = legacy_wire ->
  delivery named -> Str.concat (chunks_of named) = legacy_as_named ->
  let a := run (Response 200 "OK" true :: legacy ++ [TimerFires])
               (start k both logged_in) in
  let b := run (Response 200 "OK" true :: named ++ [TimerFires])
               (start k both logged_in) in
  observed a = observed b /\ observed a = ("Hi", [VUndefined], []).
Proof.
  intros Hd Ht Hd' Ht'. cbn zeta. rewrite !run_cons.
  destruct (reading k) as (Hi & Hp & Hb).
  assert (Ha : observed (run (legacy ++ [TimerFires])
                           (step (start k both logged_in) (Response 200 "OK" true)))
               = ("Hi", [VUndefined], [])).
  { apply shown_undefined, (delivery_shown legacy legacy_wire); try assumption.
    destruct k; vm_compute; reflexivity. }
  assert (Hn : observed (run (named ++ [TimerFires])
                           (step (start k both logged_in) (Response 200 "OK" true)))
               = ("Hi", [VUndefined], [])).
  { apply shown_undefined, (delivery_shown named legacy_as_named); try assumption.
    destruct k; vm_compute; reflexivity. }
  split; congruence.
Qed.

End WireTexts.

(* ===================================================================== *)
(** ** Credentials, requests and the navigation guard *)
(* ===================================================================== *)

Section Credentials.
Context {E : Engine}.

(** X1. A token stored with [setToken] is the one [getToken] reads and
    makes [isAuthenticated] true; [logout] makes it false again and
    leaves the storage as a logout without the login would; neither
    touches another key of [localStorage]. *)
Theorem token_storage_round_trip (t : string) (ls : gmap string string) :
  getToken (setToken t ls) = Some t
  /\ isAuthenticated (setToken t ls) = true
  /\ isAuthenticated (logout (setToken t ls)) = false
  /\ logout (setToken t ls) = logout ls
  /\ forall key, key <> TOKEN_KEY ->
       setToken t ls !! key = ls !! key /\ logout ls !! key = ls !! key.
Proof.
  unfold isAuthenticated, getToken, logout, removeToken, setToken.
  rewrite lookup_insert_eq, delete_insert_eq, lookup_delete_eq.
  repeat split.
  - now apply lookup_insert_ne.
  - now apply lookup_delete_ne.
Qed.

(** X2. A stream makes its request when it is started and none
    afterwards, whatever happens.  [streamChat] makes one request to the
    stream endpoint, carrying the stored token as a Bearer header, when a
    non-empty token is stored, and none otherwise; [streamChatPublic]
    makes one request to the public endpoint, carrying the token when a
    non-empty one is stored. *)
Theorem stream_makes_one_request (k : variant) (c : callbacks)
    (ls : gmap string string) (script : list task) :
  requests (run script (start k c ls))
  = match k with
    | Authenticated =>
        match bearer (getToken ls) with
        | Some auth => [{| path := "/api/v1/chat/stream"; authorization := Some auth |}]
        | None => []
        end
    | Public =>
        [{| path := "/api/v1/chat/stream/public";
            authorization := bearer (getToken ls) |}]
    end.
Proof.
  destruct (run_closure script (start k c ls)) as (_ & ->).
  destruct k; cbn [start]; unfold streamChat, streamChatPublic, started.
  - now destruct (bearer (getToken ls)).
  - reflexivity.
Qed.

(** X3. An empty string stored as token passes for a login where
    [isAuthenticated] decides (the navigation guard lets the chat and the
    documents open), yet [streamChat] and [uploadDocument] take it for no
    credential: the stream fails at once with the authentication error
    and no request is made. *)
Theorem empty_token_is_half_a_login (c : callbacks) (ls : gmap string string)
    (r : reply) :
  getToken ls = Some "" ->
  isAuthenticated ls = true
  /\ beforeEach ls (Named RChat) = Proceed
  /\ beforeEach ls (Named RDocuments) = Proceed
  /\ calls (streamChat c ls)
     = (if has_onError c
        then [OnError (Error "No autenticado. Por favor, inicia sesión.")]
        else [])
  /\ requests (streamChat c ls) = []
  /\ uploadDocument_request ls = None
  /\ uploadDocument ls r
     = Rejected (Err (Error "No autenticado. Por favor, inicia sesión.")).
Proof.
  intros H. unfold beforeEach, isAuthenticated, streamChat, uploadDocument,
    uploadDocument_request. rewrite H. cbn. tauto.
Qed.

(** X4. A navigation is redirected at most once, and where it lands the
    guard agrees; it never lands on the chat or the documents without a
    stored token, nor on the login page with one; the public chat and
    unmatched locations are never redirected. *)
Theorem navigation_lands_where_allowed (ls : gmap string string) (to : location)
    (fuel : nat) :
  exists dest,
    navigate (S fuel) ls to = Some dest
    /\ beforeEach ls dest = Proceed
    /\ (forall r, dest = Named r -> requiresAuth r = true -> isAuthenticated ls = true)
    /\ (dest = Named RAuth -> isAuthenticated ls = false)
    /\ (to = Named RChatPublic \/ to = Unmatched -> dest = to).
Proof.
  unfold navigate, beforeEach.
  destruct (isAuthenticated ls) eqn:Ha;
    destruct to as [[]|]; cbn; rewrite ?Ha; cbn;
    destruct fuel; cbn; rewrite ?Ha; cbn;
    eexists; (split; [reflexivity|]); rewrite ?Ha; cbn;
    (split; [reflexivity|]);
    (split; [intros r [= <-]; cbn; congruence|]);
    (split; [congruence|]);
    intros [?|?]; congruence.
Qed.

Lemma handleResponse_resolved (status : N) (statusText : string)
    (body : option string) (v : value) :
  handleResponse status statusText body = Resolved v
  <-> ok status = true /\ body ≫= JSON.parse = Some v.
Proof.
  unfold handleResponse. destruct (ok status); cbn [negb].
  - destruct (body ≫= JSON.parse); split.
    + now intros [= ->].
    + now intros [_ [= ->]].
    + discriminate.
    + now intros [_ ?].
  - split; [|now intros [? _]].
    destruct (JS.get _ "detail"); discriminate.
Qed.

(** X5. [handleResponse] resolves exactly when the status is a success
    and the body parses as JSON, and then with the parsed body; a
    response with any other status is rejected whatever its body. *)
Theorem handleResponse_resolves_iff (status : N) (statusText : string)
    (body : option string) (v : value) :
  handleResponse status statusText body = Resolved v
  <-> ok status = true /\ body ≫= JSON.parse = Some v.
Proof. apply handleResponse_resolved. Qed.

Lemma login_rejected (ls : gmap string string) (r : reply) (ls' : gmap string string)
    (why : rejection) :
  login ls r = (ls', Rejected why) -> ls' = ls.
Proof.
  unfold login. destruct (plain_call r) as [tok|w]; [|now intros [= <- _]].
  destruct (JS.get tok "access_token"); [discriminate | now intros [= <- _]].
Qed.

Lemma login_resolved (ls : gmap string string) (r : reply) (ls' : gmap string string)
    (token : value) :
  login ls r = (ls', Resolved token) -> isAuthenticated ls' = true.
Proof.
  unfold login. destruct (plain_call r) as [tok|w]; [|discriminate].
  destruct (JS.get tok "access_token"); [|discriminate].
  intros [= <- _]. unfold isAuthenticated, getToken, setToken.
  now rewrite lookup_insert_eq.
Qed.

Lemma append_not_self (a b : string) : a ++ b = a -> b = "".
Proof.
  induction a as [|x a IH]; cbn [String.append]; [auto|].
  intros [= H]. auto.
Qed.

(** [handleResponse] and the message of the specification for a failed
    response. *)
Lemma handleResponse_error_message (status : N) (statusText : string)
    (body : option string) :
  ok status = false ->
  (body ≫= JSON.parse = None
   \/ (exists data, body ≫= JSON.parse = Some data
                    /\ JS.truthy (JS.get_opt data "detail") = true) ->
   handleResponse status statusText body
   = Rejected (Err (Error (error_message status statusText body))))
  /\ (forall data,
        body ≫= JSON.parse = Some data -> data <> VNull ->
        JS.truthy (JS.get_opt data "detail") = false ->
        JS.truthy (JS.get_opt data "error") = false ->
        handleResponse status statusText body
        = Rejected (Err (Error ("Error " ++ Str.of_N status)))
        /\ error_message status statusText body <> "Error " ++ Str.of_N status).
Proof.
  intros Hok. unfold handleResponse, error_message. rewrite Hok. cbn [negb]. split.
  - intros [Hn | (data & Hp & Ht)].
    + rewrite Hn. reflexivity.
    + rewrite Hp. unfold JS.get_opt in *.
      destruct (JS.get data "detail") as [d|]; cbn [default from_option id] in *; [|discriminate].
      now rewrite Ht.
  - intros data Hp Hnull Hd He. rewrite Hp, Hd.
    assert (Hdef : data <> VUndefined).
    { destruct body as [s|]; [|discriminate]. eapply parse_defined, Hp. }
    unfold JS.get_opt in Hd.
    destruct (JS.get data "detail") as [d|] eqn:Hg;
      [|destruct data; try discriminate; congruence].
    cbn [default from_option id] in Hd. rewrite Hd, He. split; [reflexivity|].
    unfold status_message. intros Heq.
    change ("Error " ++ Str.of_N status ++ ": " ++ statusText)
      with ("Error " ++ (Str.of_N status ++ ": " ++ statusText)) in Heq.
    apply String.app_inj in Heq.
    rewrite <- (append_nil_r (Str.of_N status)) in Heq at 2.
    apply String.app_inj in Heq. discriminate.
Qed.

(** What a stream reports for a failed response, once the body has been
    read or has failed. *)
Lemma failed_response_errors (k : variant) (c : callbacks)
    (ls : gmap string string) (script : list task)
    (status : N) (statusText : string) (has_body : bool) (body : option string) :
  let st := run script (start k c ls) in
  pc st = AwaitFetch -> has_onError c = true ->
  ok status = false -> (k = Authenticated -> status <> 401%N) ->
  body ≫= JSON.parse <> Some VNull ->
  errors (run [Response status statusText has_body; ErrorBody body] st)
  = [Error (error_message status statusText body)].
Proof.
  cbn zeta. set (st := run script (start k c ls)). intros Hp He Hok H401 Hnull.
  assert (Hi : inv st) by apply run_inv, inv_start.
  assert (Hne : pc st <> Settled) by congruence.
  destruct (inv_quiet _ Hi Hne) as (Hq & Ha & _).
  destruct (run_start_closure k c ls script) as (Hk & Hc). fold st in Hk, Hc.
  rewrite !run_cons.
  assert (Hr : step st (Response status statusText has_body)
               = set_pc (AwaitErrorBody status statusText) st).
  { unfold step. rewrite Hp. unfold on_response. rewrite Hk, Hok.
    destruct k; [|reflexivity].
    destruct (N.eqb_spec status 401) as [->|_]; [now contradiction H401 | reflexivity]. }
  rewrite Hr. cbn [run fold_left]. unfold step. cbn [pc set_pc].
  unfold error_message.
  destruct (body ≫= JSON.parse) as [data|] eqn:Hparse.
  - assert (Hdef : data <> VUndefined).
    { destruct body as [s0|]; [|discriminate]. cbn in Hparse.
      eapply parse_defined, Hparse. }
    unfold throw_status, JS.get_opt.
    assert (Hget : JS.get data "detail"
                   = Some (default VUndefined (JS.get data "detail"))).
    { destruct data; try reflexivity; congruence. }
    rewrite Hget. cbn [default].
    apply catch_reports; [exact Ha | cbn [cbs set_pc]; congruence | exact Hq].
  - unfold on_rejected. cbn [pc set_pc]. unfold throw_status.
    cbn [JS.get JS.lookup_field default JS.truthy].
    apply catch_reports; [exact Ha | cbn [cbs set_pc]; congruence | exact Hq].
Qed.

(** X6. [handleResponse] against the streams, on a failed response that
    a stream receives while it awaits it (a 401 answered to [streamChat]
    apart, for which the stream reports the expired session).  When the
    body is not JSON, or is JSON with a truthy [detail], [handleResponse]
    rejects with the error message the stream passes to [onError].  When
    the body is JSON (not [null]) with neither a truthy [detail] nor a
    truthy [error], [handleResponse] rejects with the status alone while
    the stream reports the status with its text, and the two messages
    differ. *)
Theorem handleResponse_message (k : variant) (c : callbacks)
    (ls : gmap string string) (script : list task)
    (status : N) (statusText : string) (has_body : bool) (body : option string) :
  let st := run script (start k c ls) in
  let st' := run [Response status statusText has_body; ErrorBody body] st in
  pc st = AwaitFetch -> has_onError c = true ->
  ok status = false -> (k = Authenticated -> status <> 401%N) ->
  (body ≫= JSON.parse = None
   \/ (exists data, body ≫= JSON.parse = Some data
                    /\ JS.truthy (JS.get_opt data "detail") = true) ->
   exists message,
     handleResponse status statusText body = Rejected (Err (Error message))
     /\ errors st' = [Error message])
  /\ (forall data,
        body ≫= JSON.parse = Some data -> data <> VNull ->
        JS.truthy (JS.get_opt data "detail") = false ->
        JS.truthy (JS.get_opt data "error") = false ->
        handleResponse status statusText body
        = Rejected (Err (Error ("Error " ++ Str.of_N status)))
        /\ errors st' = [Error (status_message status statusText)]
        /\ status_message status statusText <> "Error " ++ Str.of_N status).
Proof.
  cbn zeta. intros Hp He Hok H401.
  destruct (handleResponse_error_message status statusText body Hok) as (H1 & H2).
  split.
  - intros Hb. exists (error_message status statusText body).
    split; [apply H1, Hb|].
    apply failed_response_errors; try assumption.
    destruct Hb as [Hn | (data & Hd & Ht)]; [congruence|].
    rewrite Hd. intros [= ->]. discriminate Ht.
  - intros data Hd Hnull Hdet Herr.
    destruct (H2 data Hd Hnull Hdet Herr) as (Hh & Hdiff).
    assert (Hm : error_message status statusText body
                 = status_message status statusText)
      by (unfold error_message; now rewrite Hd, Hdet).
    split; [exact Hh|]. split.
    + rewrite <- Hm. apply failed_response_errors; try assumption.
      rewrite Hd. congruence.
    + now rewrite <- Hm.
Qed.

(** X7. An authenticated call ([getCurrentUser], [listDocuments],
    [ingestDocument], [getLatestMessages], [getConversationMessages],
    [getConversations]) removes the stored token exactly when the answer
    is a 401; it is then rejected with the session-expired error,
    whatever the body, and the guard sends the next navigation to the
    chat to the login page.  Any other answer leaves the storage as it
    is and settles as [handleResponse] settles it, a failed request as
    the rejection of [fetch]; so the call resolves exactly when the
    answer has a success status and a body that parses as JSON, and then
    with the parsed body. *)
Theorem authenticated_call_signs_out_on_401 (ls : gmap string string) (r : reply) :
  (forall statusText body,
      r = Reply 401 statusText body ->
      getToken (fst (authenticated_call ls r)) = None
      /\ (forall key, key <> TOKEN_KEY ->
                      fst (authenticated_call ls r) !! key = ls !! key)
      /\ snd (authenticated_call ls r)
         = Rejected (Err (Error "Sesión expirada. Por favor, inicia sesión nuevamente."))
      /\ beforeEach (fst (authenticated_call ls r)) (Named RChat) = Redirect RAuth)
  /\ ((forall statusText body, r <> Reply 401 statusText body) ->
      fst (authenticated_call ls r) = ls)
  /\ (forall v, snd (authenticated_call ls r) = Resolved v ->
        fst (authenticated_call ls r) = ls
        /\ exists status statusText body,
             r = Reply status statusText body /\ ok status = true
             /\ body ≫= JSON.parse = Some v)
  /\ (forall status statusText body v,
        r = Reply status statusText body -> ok status = true ->
        body ≫= JSON.parse = Some v ->
        authenticated_call ls r = (ls, Resolved v))
  /\ (forall status statusText body,
        r = Reply status statusText body -> status <> 401%N ->
        snd (authenticated_call ls r) = handleResponse status statusText body)
  /\ (forall reason,
        r = NoReply reason ->
        authenticated_call ls r = (ls, Rejected (FetchFailed reason))).
Proof.
  split; [|split; [|split; [|split; [|split]]]].
  - intros statusText body ->. cbn [authenticated_call N.eqb Pos.eqb fst snd].
    split; [apply lookup_delete_eq|].
    split; [intros key Hk; now apply lookup_delete_ne|].
    split; [reflexivity|].
    unfold beforeEach, isAuthenticated, getToken, removeToken.
    rewrite lookup_delete_eq. reflexivity.
  - intros Hn. destruct r as [reason|status statusText body]; [reflexivity|].
    cbn. destruct (N.eqb_spec status 401) as [->|_]; [|reflexivity].
    now contradiction (Hn statusText body).
  - intros v. destruct r as [reason|status statusText body]; [discriminate|].
    cbn. destruct (N.eqb_spec status 401) as [->|_]; [discriminate|]. cbn.
    intros H. split; [reflexivity|].
    apply handleResponse_resolved in H as [Hok Hp]. eauto 6.
  - intros status statusText body v -> Hok Hp. cbn [authenticated_call].
    destruct (N.eqb_spec status 401) as [->|_]; [discriminate Hok|].
    f_equal. apply handleResponse_resolved. auto.
  - intros status statusText body -> Hne. cbn [authenticated_call].
    destruct (N.eqb_spec status 401) as [->|_]; [now contradiction Hne | reflexivity].
  - intros reason ->. reflexivity.
Qed.

(** X8. A login that resolves with a string [access_token] stores that
    token: the user counts as authenticated, the guard opens the chat
    and turns the login page away, and (the token not being empty) a
    stream started afterwards sends it as a Bearer header. *)
Theorem login_opens_the_chat (ls ls' : gmap string string) (r : reply)
    (token : value) (t : string) (c : callbacks) :
  login ls r = (ls', Resolved token) ->
  JS.get token "access_token" = Some (VStr t) ->
  getToken ls' = Some t
  /\ isAuthenticated ls' = true
  /\ beforeEach ls' (Named RChat) = Proceed
  /\ beforeEach ls' (Named RAuth) = Redirect RChat
  /\ (Str.nonempty t = true ->
      requests (streamChat c ls')
      = [{| path := "/api/v1/chat/stream"; authorization := Some ("Bearer " ++ t) |}]).
Proof.
  unfold login. destruct (plain_call r) as [tok|why]; [|discriminate].
  destruct (JS.get tok "access_token") as [a|] eqn:Ha; [|discriminate].
  intros [= <- <-] Ht. rewrite Ha in Ht. injection Ht as ->. cbn [JS.toString].
  assert (Hg : getToken (setToken t ls) = Some t)
    by (unfold getToken, setToken; apply lookup_insert_eq).
  unfold beforeEach, isAuthenticated, streamChat. rewrite Hg. cbn.
  repeat split. now intros ->.
Qed.

(** X9. A login that is rejected leaves the stored token as it was, a
    401 included; and a login resolves only on a success status whose
    body parses as JSON. *)
Theorem failed_login_keeps_storage (ls : gmap string string) (r : reply) :
  (forall why, snd (login ls r) = Rejected why -> fst (login ls r) = ls)
  /\ (forall token, snd (login ls r) = Resolved token ->
        exists status statusText body,
          r = Reply status statusText body /\ ok status = true
          /\ body ≫= JSON.parse = Some token).
Proof.
  unfold login. split.
  - intros why. destruct (plain_call r) as [tok|w]; [|reflexivity].
    destruct (JS.get tok "access_token"); [discriminate | reflexivity].
  - intros token. destruct (plain_call r) as [tok|w] eqn:Hc; [|discriminate].
    destruct (JS.get tok "access_token"); [|discriminate].
    cbn. intros [= ->].
    destruct r as [reason|status statusText body]; [discriminate|].
    cbn in Hc. apply handleResponse_resolved in Hc as [Hok Hp]. eauto 6.
Qed.

(** X10. A login whose answer is a JSON object without [access_token]
    resolves all the same and stores the text [undefined] as token, so
    that the user counts as authenticated. *)
Theorem login_without_token_stores_undefined (ls : gmap string string)
    (status : N) (statusText : string) (body : option string)
    (fields : list (string * value)) :
  ok status = true ->
  body ≫= JSON.parse = Some (VObj fields) ->
  JS.lookup_field "access_token" fields = None ->
  login ls (Reply status statusText body)
  = (setToken "undefined" ls, Resolved (VObj fields))
  /\ isAuthenticated (fst (login ls (Reply status statusText body))) = true.
Proof.
  intros Hok Hp Hf. unfold login. cbn [plain_call]. unfold handleResponse.
  rewrite Hok, Hp. cbn [negb JS.get]. rewrite Hf. cbn [default from_option id JS.toString fst].
  split; [reflexivity|].
  unfold isAuthenticated, getToken, setToken. now rewrite lookup_insert_eq.
Qed.

End Credentials.

(* ===================================================================== *)
(** ** Coalescing, cancellation and the end of a stream *)
(* ===================================================================== *)

Section Coalescing.
Context {E : Engine}.






(** X12. Calling the returned function twice does what calling it once
    does, whatever the state of the stream and whatever follows. *)
Theorem cancel_twice (st : state) (script : list task) :
  run (Cancel :: Cancel :: script) st = run (Cancel :: script) st.
Proof.
  rewrite !run_cons. f_equal.
  assert (Hs : forall s, step s Cancel = cancel s)
    by (intros s; unfold step; now destruct (pc s)).
  rewrite !Hs. unfold cancel.
  destruct (returned st) eqn:Hr; [now rewrite Hr|].
  assert (Hr' : returned (on_rejected (Some AbortError) (set_aborted true st)) = Abort).
  { destruct (on_rejected_closure (Some AbortError) (set_aborted true st))
      as ((_ & _ & H) & _). now rewrite H. }
  rewrite Hr'.
  destruct st as [k c r vb ft ab bf ce p tm ls rq cl].
  unfold on_rejected, throw_status, catch. cbn. destruct p; reflexivity.
Qed.

(** X13. Once a stream has ended (by a [done] event, an error, the end
    of the data or a cancellation), nothing that follows reaches the
    caller, later chunks and their tokens included, except that the one
    scheduled run of [flush] may still deliver the buffer; no terminal
    callback is added. *)
Theorem ended_stream_is_silent (k : variant) (c : callbacks)
    (ls : gmap string string) (script later : list task) :
  let st := run script (start k c ls) in
  pc st = Settled ->
  (calls (run later st) = calls st
   \/ calls (run later st) = (calls st ++ [OnToken (VStr (visualBuffer st))])%list)
  /\ completions (run later st) = completions st
  /\ errors (run later st) = errors st
  /\ pc (run later st) = Settled.
Proof.
  cbn zeta. set (st := run script (start k c ls)). intros Hp.
  assert (Hi : inv st) by apply run_inv, inv_start.
  destruct (settled_run later st Hp (inv_timer _ Hi)) as (Hp' & Hc).
  split; [exact Hc|].
  unfold completions, errors.
  destruct Hc as [-> | ->]; rewrite ?flat_map_app; cbn; rewrite ?app_nil_r; auto.
Qed.

End Coalescing.

(* ===================================================================== *)
(** ** The public stream and the timing of the timer *)
(* ===================================================================== *)

Section Timing.
Context {E : Engine}.

Lemma token_text_invoke (c : call) (st : state) :
  token_text (invoke c st)
  = token_text st ++ match c with OnToken t => JS.toString t | _ => "" end.
Proof.
  unfold token_text. cbn [calls invoke]. rewrite flat_map_app, concat_app.
  destruct c; cbn; now rewrite ?append_nil_r.
Qed.

(** The public stream never calls [onToken] from the line loop. *)
Lemma classify_public_not_direct (ce : option string) (line : string) (t : value) :
  classify Public ce line <> Direct t.
Proof.
  unfold classify.
  repeat match goal with
         | |- context [if ?b then _ else _] => destruct b
         | |- context [match ?x with _ => _ end] => destruct x
         end; discriminate.
Qed.

Lemma same_calls (a b : state) :
  calls a = calls b ->
  token_text a = token_text b /\ completions a = completions b
  /\ errors a = errors b.
Proof. unfold token_text, completions, errors. now intros ->. Qed.

Lemma flush_fields (st : state) :
  let st' := flush st in
  kind st' = kind st /\ cbs st' = cbs st /\ returned st' = returned st
  /\ aborted st' = aborted st /\ buffer st' = buffer st
  /\ currentEvent st' = currentEvent st /\ pc st' = pc st
  /\ localStorage st' = localStorage st /\ requests st' = requests st
  /\ pending st' = pending st
  /\ completions st' = completions st /\ errors st' = errors st.
Proof.
  cbn zeta. unfold flush.
  destruct (Str.nonempty (visualBuffer st)) eqn:Hn.
  - do 9 (split; [reflexivity|]). split; [|split].
    + unfold pending.
      destruct (same_calls
                  (set_flushTimeout false
                     (timers (set_visualBuffer ""
                                (invoke (OnToken (VStr (visualBuffer st))) st)))
                     (set_visualBuffer ""
                        (invoke (OnToken (VStr (visualBuffer st))) st)))
                  (invoke (OnToken (VStr (visualBuffer st))) st) eq_refl)
        as (-> & _).
      rewrite token_text_invoke. cbn [visualBuffer set_flushTimeout set_visualBuffer].
      apply append_nil_r.
    + unfold completions. cbn. rewrite flat_map_app. cbn. apply app_nil_r.
    + unfold errors. cbn. rewrite flat_map_app. cbn. apply app_nil_r.
  - do 9 (split; [reflexivity|]). split; [|split]; reflexivity.
Qed.

Lemma timer_keeps_pending (st : state) :
  same_but_timing (step st TimerFires) st.
Proof.
  rewrite step_timer. destruct (timers st) as [|n]; [unfold same_but_timing; tauto|].
  pose proof (flush_fields (set_flushTimeout (flushTimeout st) n st)) as H.
  cbn zeta in H. unfold same_but_timing.
  destruct H as (H1&H2&H3&H4&H5&H6&H7&H8&H9&H10&H11&H12).
  repeat split; assumption.
Qed.

Lemma append_token_fields (s : string) (st : state) :
  let st' := append_token s st in
  kind st' = kind st /\ cbs st' = cbs st /\ returned st' = returned st
  /\ aborted st' = aborted st /\ buffer st' = buffer st
  /\ currentEvent st' = currentEvent st /\ pc st' = pc st
  /\ localStorage st' = localStorage st /\ requests st' = requests st
  /\ pending st' = pending st ++ s
  /\ completions st' = completions st /\ errors st' = errors st.
Proof.
  cbn zeta. unfold append_token, pending.
  destruct (flushTimeout (set_visualBuffer (visualBuffer st ++ s) st));
    (do 9 (split; [reflexivity|]); split; [|split; reflexivity]);
    symmetry; apply append_assoc.
Qed.

Lemma same_but_timing_trans (a b c : state) :
  same_but_timing a b -> same_but_timing b c -> same_but_timing a c.
Proof. unfold same_but_timing. intuition congruence. Qed.

Lemma same_but_timing_sym (a b : state) :
  same_but_timing a b -> same_but_timing b a.
Proof. unfold same_but_timing. intuition congruence. Qed.

Lemma same_but_timing_set_pc (p : phase) (x y : state) :
  same_but_timing x y -> same_but_timing (set_pc p x) (set_pc p y).
Proof. unfold same_but_timing. cbn. tauto. Qed.

(** An action other than a direct call does the same to two states that
    differ in timing only. *)
Lemma perform_same_but_timing (a : action) (x y : state) :
  same_but_timing x y -> (forall t, a <> Direct t) ->
  match perform a x, perform a y with
  | Continue x', Continue y' => same_but_timing x' y'
  | Return x', Return y' => same_but_timing x' y'
  | _, _ => False
  end.
Proof.
  intros H Hd. destruct a; cbn [perform]; try exact H.
  - unfold same_but_timing in *. cbn. tauto.
  - unfold same_but_timing in *. cbn. intuition congruence.
  - pose proof (append_token_fields text x) as Hx.
    pose proof (append_token_fields text y) as Hy.
    cbn zeta in Hx, Hy. unfold same_but_timing in *.
    destruct H as (H1&H2&H3&H4&H5&H6&H7&H8&H9&H10&H11&H12).
    destruct Hx as (X1&X2&X3&X4&X5&X6&X7&X8&X9&X10&X11&X12).
    destruct Hy as (Y1&Y2&Y3&Y4&Y5&Y6&Y7&Y8&Y9&Y10&Y11&Y12).
    repeat split; congruence.
  - now contradiction (Hd token).
  - destruct H as (Hk & Hc & Hr & Ha & Hb & Hce & Hp & Hl & Hq & Hpe & Hco & Her).
    unfold call_onComplete. rewrite Hc.
    destruct (has_onComplete (cbs y));
      [|unfold same_but_timing; tauto].
    unfold same_but_timing, pending.
    rewrite !token_text_invoke, !completions_invoke, !errors_invoke, !append_nil_r.
    unfold pending in Hpe.
    change (visualBuffer (invoke (OnComplete conversationId) x)) with (visualBuffer x).
    change (visualBuffer (invoke (OnComplete conversationId) y)) with (visualBuffer y).
    cbn [kind cbs returned aborted buffer currentEvent pc localStorage requests invoke].
    repeat split; try assumption; congruence.
Qed.

Lemma line_step_same_but_timing (line : string) (x y : state) :
  kind x = Public -> same_but_timing x y ->
  same_but_timing (line_step x (Some line)) (line_step y (Some line)).
Proof.
  intros Hk H. cbn [line_step].
  pose proof H as (Hk' & _ & _ & _ & _ & Hce & Hp & _).
  rewrite <- Hp. destruct (pc x); try exact H.
  rewrite !process_line_perform, <- Hk', <- Hce, Hk.
  pose proof (perform_same_but_timing (classify Public (currentEvent x) line) x y H
                (classify_public_not_direct _ _)) as Hs.
  destruct (perform _ x), (perform _ y); try contradiction; [exact Hs|].
  now apply same_but_timing_set_pc.
Qed.

Lemma line_step_kind (t : option string) (st : state) :
  kind (line_step st t) = kind st.
Proof.
  destruct t as [line|]; cbn [line_step].
  - destruct (pc st); try reflexivity.
    pose proof (perform_spec (classify (kind st) (currentEvent st) line) st) as Hs.
    rewrite <- process_line_perform in Hs.
    destruct (process_line line st); destruct Hs as ((Hk & _) & _); exact Hk.
  - destruct (step_closure st TimerFires) as ((Hk & _) & _). exact Hk.
Qed.

(** The lines of a delivery do to the public stream what they do without
    the timer, up to how far the buffer has been delivered. *)
Lemma line_run_same_but_timing (ts : list (option string)) (x y : state) :
  kind x = Public -> same_but_timing x y ->
  same_but_timing (line_run ts x) (line_run (List.map Some (lines_of ts)) y).
Proof.
  revert x y. induction ts as [|t r IH]; intros x y Hk H; [exact H|].
  cbn [line_run fold_left]. destruct t as [line|].
  - cbn [lines_of flat_map app List.map fold_left]. fold (lines_of r).
    apply IH; [now rewrite line_step_kind | now apply line_step_same_but_timing].
  - cbn [lines_of flat_map app]. fold (lines_of r).
    apply IH; [now rewrite line_step_kind|].
    eapply same_but_timing_trans; [apply timer_keeps_pending | exact H].
Qed.

Lemma line_step_scheduled (t : option string) (st : state) :
  timer_ok st -> scheduled st -> scheduled (line_step st t).
Proof.
  intros Ht Hs. destruct t as [line|]; cbn [line_step].
  - destruct (pc st); try exact Hs.
    rewrite process_line_perform.
    destruct (classify (kind st) (currentEvent st) line); cbn [perform];
      try exact Hs.
    + unfold scheduled, append_token. cbn.
      destruct (flushTimeout st) eqn:Hf; cbn; intros _; [|lia].
      unfold timer_ok in Ht. rewrite Hf in Ht. lia.
    + unfold scheduled, call_onComplete. cbn.
      destruct (has_onComplete (cbs st)); exact Hs.
  - rewrite step_timer. destruct (timers st) as [|n]; [exact Hs|].
    unfold scheduled, flush. cbn [visualBuffer set_flushTimeout].
    destruct (Str.nonempty (visualBuffer st)) eqn:Hn; cbn; [discriminate|].
    congruence.
Qed.

Lemma line_run_scheduled (ts : list (option string)) (st : state) :
  timer_ok st -> scheduled st ->
  timer_ok (line_run ts st) /\ scheduled (line_run ts st).
Proof.
  revert st. induction ts as [|t r IH]; intros st Ht Hs; [tauto|].
  cbn [line_run fold_left].
  apply IH; [now apply line_step_timer_ok | now apply line_step_scheduled].
Qed.

(** After the timer has fired, the text delivered is all the text. *)
Lemma timer_delivers_pending (st : state) :
  scheduled st -> token_text (step st TimerFires) = pending st.
Proof.
  intros Hs. rewrite step_timer. unfold pending, scheduled in *.
  destruct (Str.nonempty (visualBuffer st)) eqn:Hn.
  - specialize (Hs eq_refl). destruct (timers st) as [|n]; [lia|].
    unfold flush. cbn [visualBuffer set_flushTimeout]. rewrite Hn.
    change (token_text (invoke (OnToken (VStr (visualBuffer st)))
                          (set_flushTimeout (flushTimeout st) n st))
            = token_text st ++ visualBuffer st).
    now rewrite token_text_invoke.
  - assert (Hv : visualBuffer st = "") by (destruct (visualBuffer st); [auto | discriminate]).
    rewrite Hv, append_nil_r.
    destruct (timers st) as [|n]; [reflexivity|].
    unfold flush. cbn [visualBuffer set_flushTimeout]. rewrite Hn. reflexivity.
Qed.

Lemma observed_after_timer (x y : state) :
  same_but_timing x y -> scheduled x -> scheduled y ->
  observed (step x TimerFires) = observed (step y TimerFires).
Proof.
  intros H Hx Hy. unfold observed.
  rewrite !timer_delivers_pending by assumption.
  pose proof (timer_keeps_pending x) as (_&_&_&_&_&_&_&_&_&_& Hcx & Hex).
  pose proof (timer_keeps_pending y) as (_&_&_&_&_&_&_&_&_&_& Hcy & Hey).
  destruct H as (_&_&_&_&_&_&_&_&_& Hp & Hc & He).
  congruence.
Qed.

(** X14. What [streamChatPublic] delivers depends on the text received
    only: two deliveries of the same text, cut into chunks in any two
    ways and with the timer firing at any moments (and once at the end),
    deliver the same token text, the same completions and the same
    errors. *)
Theorem public_stream_ignores_timing (c : callbacks) (ls : gmap string string)
    (status : N) (statusText : string) (d1 d2 : list task) :
  ok status = true ->
  delivery d1 -> delivery d2 ->
  Str.concat (chunks_of d1) = Str.concat (chunks_of d2) ->
  observed (run (Response status statusText true :: d1 ++ [TimerFires])
              (streamChatPublic c ls))
  = observed (run (Response status statusText true :: d2 ++ [TimerFires])
                (streamChatPublic c ls)).
Proof.
  intros Hok Hd1 Hd2 Heq. rewrite !run_cons.
  set (st := step (streamChatPublic c ls) (Response status statusText true)).
  assert (Hi : inv st) by apply step_inv, (inv_start Public).
  assert (Hst : pc st = AwaitRead /\ buffer st = "" /\ kind st = Public
                /\ scheduled st).
  { unfold st, step, streamChatPublic, started, on_response, loop, scheduled.
    cbn. rewrite Hok. cbn. repeat split. discriminate. }
  destruct Hst as (Hp & Hb & Hk & Hs).
  assert (Hcanon : forall d, delivery d ->
            observed (run (d ++ [TimerFires]) st)
            = observed (step (line_run
                                (List.map Some
                                   (removelast (Str.split (Str.concat (chunks_of d)))))
                                st) TimerFires)).
  { intros d Hd.
    assert (Hd' : delivery (d ++ [TimerFires])).
    { unfold delivery in *. rewrite forallb_app, Hd. reflexivity. }
    rewrite <- observed_forget,
      (delivery_expand (d ++ [TimerFires]) st "" Hd' Hi (fun _ => Hb)),
      observed_forget, expand_then_timer, line_run_app.
    cbn [line_run fold_left line_step].
    pose proof (line_run_same_but_timing (expand "" d) st st Hk) as Hsim.
    rewrite (lines_of_expand d "" Hd),
      (reassemble_all_split "" (chunks_of d) eq_refl) in Hsim.
    cbn [fst String.append] in Hsim.
    apply observed_after_timer.
    - apply Hsim. unfold same_but_timing. tauto.
    - apply line_run_scheduled; [exact (inv_timer _ Hi) | exact Hs].
    - apply line_run_scheduled; [exact (inv_timer _ Hi) | exact Hs]. }
  rewrite (Hcanon d1 Hd1), (Hcanon d2 Hd2), Heq. reflexivity.
Qed.

End Timing.

(* ===================================================================== *)
(** ** Sizes *)
(* ===================================================================== *)

Section Sizes.

Lemma hundredths_near (num den : Z) :
  (0 < den)%Z ->
  (Z.abs (2 * den * hundredths num den - 200 * num) <= den)%Z.
Proof.
  intros Hd. unfold hundredths.
  pose proof (Z.div_mod (200 * num + den) (2 * den) ltac:(lia)) as Hdm.
  pose proof (Z.mod_pos_bound (200 * num + den) (2 * den) ltac:(lia)) as Hb.
  lia.
Qed.

(** X15. A size of at least 1024 bytes (a whole number within the safe
    integers) is shown in KB below 1024 * 1024
    bytes and in MB from there on, as a number with two decimals that
    differs from the exact quotient by at most half a hundredth; in
    particular the five sizes just below 1024 * 1024 bytes are shown as
    1024.00 KB. *)
Theorem formatearTamano_accuracy (bytes : Z) :
  (1024 <= bytes <= 9007199254740992)%Z ->
  exists (whole cents : Z) (unit_size : Z) (unit_name : string),
    formatearTamaño bytes
    = Str.of_Z whole ++ "." ++ two_digits cents ++ " " ++ unit_name
    /\ (0 <= cents < 100)%Z /\ (0 <= whole)%Z
    /\ (Z.abs (2 * unit_size * (100 * whole + cents) - 200 * bytes) <= unit_size)%Z
    /\ ((bytes < 1024 * 1024)%Z /\ unit_size = 1024%Z /\ unit_name = "KB"
        \/ (1024 * 1024 <= bytes)%Z /\ unit_size = (1024 * 1024)%Z /\ unit_name = "MB")
    /\ ((1024 * 1024 - 5 <= bytes < 1024 * 1024)%Z -> whole = 1024%Z /\ cents = 0%Z).
Proof.
  intros [Hb _]. unfold formatearTamaño.
  assert (Hlt : (bytes <? 1024)%Z = false) by (apply Z.ltb_ge; lia).
  rewrite Hlt.
  assert (Hgen : forall den, (0 < den)%Z ->
            let n := hundredths bytes den in
            (0 <= n mod 100 < 100)%Z /\ (0 <= n / 100)%Z
            /\ (Z.abs (2 * den * (100 * (n / 100) + n mod 100) - 200 * bytes) <= den)%Z).
  { intros den Hd n.
    assert (Hn : (0 <= n)%Z) by (apply Z.div_pos; lia).
    split; [apply Z.mod_pos_bound; lia|].
    split; [apply Z.div_pos; lia|].
    rewrite <- (Z.div_mod n 100) by lia. now apply hundredths_near. }
  destruct (bytes <? 1024 * 1024)%Z eqn:Hk.
  - apply Z.ltb_lt in Hk.
    destruct (Hgen 1024%Z ltac:(lia)) as (Hc & Hw & Ha).
    exists (hundredths bytes 1024 / 100)%Z, (hundredths bytes 1024 mod 100)%Z,
      1024%Z, "KB".
    split; [unfold toFixed2; rewrite !append_assoc; reflexivity|].
    split; [exact Hc|]. split; [exact Hw|]. split; [exact Ha|].
    split; [left; split; [lia | split; reflexivity]|].
    intros Hr. assert (Hh : hundredths bytes 1024 = 102400%Z).
    { unfold hundredths. symmetry. apply Z.div_unique with (r := (200 * bytes + 1024 - 102400 * 2048)%Z); lia. }
    rewrite Hh. split; reflexivity.
  - apply Z.ltb_ge in Hk.
    destruct (Hgen (1024 * 1024)%Z ltac:(lia)) as (Hc & Hw & Ha).
    exists (hundredths bytes (1024 * 1024) / 100)%Z,
      (hundredths bytes (1024 * 1024) mod 100)%Z, (1024 * 1024)%Z, "MB".
    split; [unfold toFixed2; rewrite !append_assoc; reflexivity|].
    split; [exact Hc|]. split; [exact Hw|]. split; [exact Ha|].
    split; [right; split; [lia | split; reflexivity] | lia].
Qed.

End Sizes.

(* ===================================================================== *)
(** ** The login page *)
(* ===================================================================== *)

Section AuthPageFacts.
Context {E : Engine} {W : Wording}.

Lemma chat_opens (ls : gmap string string) :
  isAuthenticated ls = true -> navigate 1 ls (Named RChat) = Some (Named RChat).
Proof. intros H. unfold navigate, beforeEach. cbn. now rewrite H. Qed.

(** X16. [handleLogin] makes a request only when both fields are filled
    in.  When it navigates, a token is stored, the error text is empty
    and the navigation lands on the chat without being redirected; when
    it does not, the storage is as it was.  Having made a request, it
    never leaves the page loading. *)
Theorem handleLogin_outcome (v : auth_view) (ls : gmap string string) (r : reply) :
  let d := handleLogin v ls r in
  (a_requests d <> [] ->
   Str.nonempty (login_username v) = true /\ Str.nonempty (login_password v) = true
   /\ loading (a_view d) = false)
  /\ (forall dest, a_landed d = Some dest ->
        dest = Some (Named RChat)
        /\ isAuthenticated (a_storage d) = true
        /\ error_text (a_view d) = ""
        /\ exists token, login ls r = (a_storage d, Resolved token))
  /\ (a_landed d = None -> a_storage d = ls).
Proof.
  cbn zeta. unfold handleLogin.
  destruct (Str.nonempty (login_username v)), (Str.nonempty (login_password v));
    cbn [negb orb];
    try (split; [intros H; now contradiction H|]; split; [discriminate | reflexivity]).
  destruct (login ls r) as [ls' [token|why]] eqn:Hl; cbn [a_requests a_landed a_storage a_view set_error loading error_text].
  - pose proof (login_resolved _ _ _ _ Hl) as Ha.
    split; [tauto|]. split; [|discriminate].
    intros dest Hd.
    assert (dest = navigate 1 ls' (Named RChat)) as -> by congruence.
    rewrite (chat_opens _ Ha). eauto.
  - split; [tauto|]. split; [discriminate|].
    intros _. eapply login_rejected, Hl.
Qed.

(** X17. [handleRegister] makes a request only for a form whose three
    fields are filled in, whose password is the one confirmed and has at
    least six UTF-16 code units; it asks for the login only after the
    registration has resolved.  When it navigates, a token is stored and
    the navigation lands on the chat; when it does not, the storage is
    as it was. *)
Theorem handleRegister_outcome (v : auth_view) (ls : gmap string string)
    (r1 r2 : reply) :
  let d := handleRegister v ls r1 r2 in
  (a_requests d <> [] ->
   Str.nonempty (register_username v) = true
   /\ Str.nonempty (register_email v) = true
   /\ Str.nonempty (register_password v) = true
   /\ register_password v = confirmPassword v
   /\ 6 <= utf16_length (register_password v)
   /\ loading (a_view d) = false)
  /\ (In login_request (a_requests d) -> exists user, plain_call r1 = Resolved user)
  /\ (forall dest, a_landed d = Some dest ->
        dest = Some (Named RChat) /\ isAuthenticated (a_storage d) = true)
  /\ (a_landed d = None -> a_storage d = ls).
Proof.
  cbn zeta. unfold handleRegister, register_check.
  destruct (Str.nonempty (register_username v)),
    (Str.nonempty (register_email v)), (Str.nonempty (register_password v));
    cbn [negb orb];
    try (split; [intros H; now contradiction H|];
         split; [intros []|]; split; [discriminate | reflexivity]).
  destruct (String.eqb_spec (register_password v) (confirmPassword v)) as [Heq|Hne];
    cbn [negb];
    [|split; [intros H; now contradiction H|];
      split; [intros []|]; split; [discriminate | reflexivity]].
  destruct (Nat.ltb_spec (utf16_length (register_password v)) 6) as [Hlt|Hge];
    [split; [intros H; now contradiction H|];
     split; [intros []|]; split; [discriminate | reflexivity]|].
  destruct (plain_call r1) as [user|why1] eqn:Hr.
  - destruct (login ls r2) as [ls' [token|why]] eqn:Hl; cbn [a_requests a_landed a_storage a_view set_error loading error_text].
    + pose proof (login_resolved _ _ _ _ Hl) as Ha.
      split; [tauto|]. split; [eauto|]. split; [|discriminate].
      intros dest Hd.
      assert (dest = navigate 1 ls' (Named RChat)) as -> by congruence.
      now rewrite (chat_opens _ Ha).
    + split; [tauto|]. split; [eauto|]. split; [discriminate|].
      intros _. eapply login_rejected, Hl.
  - cbn [a_requests a_landed a_storage a_view set_error loading error_text].
    split; [tauto|]. split; [|split; [discriminate | reflexivity]].
    intros [H|[]]. discriminate H.
Qed.

End AuthPageFacts.

(* ===================================================================== *)
(** ** The chat views *)
(* ===================================================================== *)

Section History.

Lemma last_any_default {A} (x : A) (l : list A) (d d' : A) :
  List.last (x :: l) d = List.last (x :: l) d'.
Proof.
  revert x. induction l as [|y l IH]; intros x; [reflexivity|].
  change (List.last (y :: l) d = List.last (y :: l) d'). apply IH.
Qed.

Lemma cargarPaginas_order (ls : gmap string string)
    (ps : list MessagesResponse) :
  isAuthenticated ls = true ->
  forall (p : MessagesResponse) (w : ChatView.view),
    ChatView.isLoadingMore w = false ->
    ChatView.hasMoreMessages w = has_more p ->
    Forall (fun q => messages q <> []) ps ->
    Forall (fun q => has_more q = true) (removelast (p :: ps)) ->
    ChatView.mensajes (ChatView.cargarPaginas w ls ps)
    = (rev (List.map convertirMensaje (flat_map messages ps))
       ++ ChatView.mensajes w)%list
    /\ ChatView.currentPage (ChatView.cargarPaginas w ls ps)
       = (ChatView.currentPage w + Z.of_nat (length ps))%Z
    /\ ChatView.hasMoreMessages (ChatView.cargarPaginas w ls ps)
       = has_more (List.last ps p)
    /\ ChatView.isLoadingMore (ChatView.cargarPaginas w ls ps) = false.
Proof.
  intros Hauth. induction ps as [|q qs IH]; intros p w Hl Hm Hne Hall.
  - cbn. repeat split; auto. lia.
  - change (removelast (p :: q :: qs)) with (p :: removelast (q :: qs)) in Hall.
    inversion Hall as [|? ? Hp Hall']; subst.
    inversion Hne as [|? ? Hq Hne']; subst.
    unfold ChatView.cargarPaginas. cbn [fold_left].
    fold (ChatView.cargarPaginas (ChatView.cargarMasMensajes w ls (Some q)) ls qs).
    set (w' := ChatView.cargarMasMensajes w ls (Some q)).
    assert (Hw' : ChatView.mensajes w'
                  = (rev (List.map convertirMensaje (messages q))
                     ++ ChatView.mensajes w)%list
                  /\ ChatView.currentPage w' = (ChatView.currentPage w + 1)%Z
                  /\ ChatView.hasMoreMessages w' = has_more q
                  /\ ChatView.isLoadingMore w' = false).
    { subst w'. unfold ChatView.cargarMasMensajes, ChatView.cargarMasMensajes_endpoint.
      rewrite Hl, Hm, Hp, Hauth. cbn [negb orb].
      destruct (messages q) as [|m ms] eqn:Hmq; [now contradiction Hq|].
      destruct (ChatView.conversationId w) as [c|]; [destruct (c =? 0)%Z|];
        cbn; auto. }
    destruct Hw' as (H1 & H2 & H3 & H4).
    destruct (IH q w' H4 H3 Hne' Hall') as (I1 & I2 & I3 & I4).
    rewrite I1, I2, I3, I4, H1, H2.
    split; [|split; [|split]]; auto.
    + cbn [flat_map]. rewrite List.map_app, rev_app_distr, <- app_assoc. reflexivity.
    + cbn [length]. lia.
    + destruct qs as [|r rs]; [reflexivity|].
      change (List.last (q :: r :: rs) p) with (List.last (r :: rs) p).
      f_equal. apply last_any_default.
Qed.

(** X18. The history of the chat.  When the first page and the pages
    loaded after it all carry messages, and every page but the last says
    that there are more, the view shows the messages of all the pages in
    the reverse of the order in which the server sent them (the server
    sends the most recent first), the page counter is the number of pages
    loaded, and whether more can be loaded is what the last page says;
    if more can be loaded, the next request is for the following page. *)
Theorem pages_accumulate_in_order (v : ChatView.view) (ls : gmap string string)
    (p : MessagesResponse) (ps : list MessagesResponse) :
  isAuthenticated ls = true ->
  ChatView.isLoadingMore v = false ->
  Forall (fun q => messages q <> []) (p :: ps) ->
  Forall (fun q => has_more q = true) (removelast (p :: ps)) ->
  let w := ChatView.cargarPaginas (ChatView.cargarMensajesIniciales v ls (Some p)) ls ps in
  ChatView.mensajes w
  = rev (List.map convertirMensaje (flat_map messages (p :: ps)))
  /\ ChatView.currentPage w = (1 + Z.of_nat (length ps))%Z
  /\ ChatView.hasMoreMessages w = has_more (List.last ps p)
  /\ (ChatView.hasMoreMessages w = true ->
      let nextPage := (2 + Z.of_nat (length ps))%Z in
      ChatView.cargarMasMensajes_endpoint w ls
      = Some (getLatestMessages_endpoint nextPage ChatView.PAGE_SIZE)
      \/ exists c,
           ChatView.cargarMasMensajes_endpoint w ls
           = Some (getConversationMessages_endpoint c nextPage ChatView.PAGE_SIZE)).
Proof.
  intros Hauth Hl Hne Hall. cbn zeta.
  inversion Hne as [|? ? Hp Hne']; subst.
  set (v1 := ChatView.cargarMensajesIniciales v ls (Some p)).
  assert (Hv1 : ChatView.mensajes v1 = rev (List.map convertirMensaje (messages p))
                /\ ChatView.currentPage v1 = 1%Z
                /\ ChatView.hasMoreMessages v1 = has_more p
                /\ ChatView.isLoadingMore v1 = false).
  { subst v1. unfold ChatView.cargarMensajesIniciales. rewrite Hauth. cbn [negb].
    destruct (messages p) as [|m ms] eqn:Hmp; [now contradiction Hp|].
    cbn. auto. }
  destruct Hv1 as (H1 & H2 & H3 & H4).
  destruct (cargarPaginas_order ls ps Hauth p v1 H4 H3 Hne' Hall) as (I1 & I2 & I3 & I4).
  rewrite I1, I2, I3, H1, H2.
  split; [|split; [|split]]; auto.
  - cbn [flat_map]. now rewrite List.map_app, rev_app_distr.
  - intros Hm. unfold ChatView.cargarMasMensajes_endpoint.
    rewrite I4, I3, Hm, Hauth, I2, H2. cbn [negb orb].
    replace (1 + Z.of_nat (length ps) + 1)%Z with (2 + Z.of_nat (length ps))%Z by lia.
    destruct (ChatView.conversationId _) as [c|]; [destruct (c =? 0)%Z|]; eauto.
Qed.

(** X19. Loading more never drops or reorders what is shown: the
    messages of the view stay, in their order, under those that are
    added, and the page counter advances exactly when messages are added.
    When a request was made, the view is no longer loading whatever the
    answer, and after an empty page no further request is made. *)
Theorem loading_more_keeps_messages (v : ChatView.view) (ls : gmap string string)
    (answer : option MessagesResponse) :
  let w := ChatView.cargarMasMensajes v ls answer in
  (exists older,
     ChatView.mensajes w = (older ++ ChatView.mensajes v)%list
     /\ ChatView.currentPage w
        = (ChatView.currentPage v + if older is [] then 0 else 1)%Z)
  /\ (ChatView.cargarMasMensajes_endpoint v ls <> None ->
      ChatView.isLoadingMore w = false
      /\ (forall r, answer = Some r -> messages r = [] ->
          forall ls', ChatView.cargarMasMensajes_endpoint w ls' = None)).
Proof.
  cbn zeta. unfold ChatView.cargarMasMensajes.
  destruct (ChatView.cargarMasMensajes_endpoint v ls) as [url|] eqn:Hu.
  - destruct answer as [r|].
    + destruct (messages r) as [|m ms] eqn:Hm.
      * split; [exists []; cbn; split; [reflexivity | lia]|].
        intros _. split; [reflexivity|]. intros _ _ _ ls'.
        unfold ChatView.cargarMasMensajes_endpoint. reflexivity.
      * split.
        { exists (rev (List.map convertirMensaje (m :: ms))).
          cbn [ChatView.mensajes ChatView.currentPage]. split; [reflexivity|].
          destruct (rev (List.map convertirMensaje (m :: ms))) eqn:Hr; [|reflexivity].
          apply (f_equal (@length _)) in Hr.
          rewrite length_rev, length_map in Hr. discriminate Hr. }
        intros _. split; [reflexivity|]. intros r' [= <-] Hr'. congruence.
    + split; [exists []; cbn; split; [reflexivity | lia]|].
      intros _. split; [reflexivity|]. intros r [=].
  - split; [exists []; cbn; split; [reflexivity | lia]|].
    intros H. now contradiction H.
Qed.

End History.

(* ===================================================================== *)
(** ** The public chat view and its stream *)
(* ===================================================================== *)

Section PublicChat.
Context {E : Engine} {W : Wording}.

(** A task only adds calls. *)
Lemma perform_calls (a : action) (st : state) :
  exists new,
    calls (match perform a st with Continue s => s | Return s => s end)
    = (calls st ++ new)%list.
Proof.
  destruct a; cbn [perform]; unfold append_token, call_onComplete;
    repeat match goal with
           | |- context [if ?b then _ else _] => destruct b
           end;
    cbn; first [ eexists; reflexivity | exists []; now rewrite app_nil_r ].
Qed.

Lemma process_lines_calls (lines : list string) (st : state) :
  exists new,
    calls (match process_lines lines st with Continue s => s | Return s => s end)
    = (calls st ++ new)%list.
Proof.
  revert st. induction lines as [|line rest IH]; intros st; cbn [process_lines].
  - exists []. now rewrite app_nil_r.
  - rewrite process_line_perform.
    destruct (perform_calls (classify (kind st) (currentEvent st) line) st) as [n1 H1].
    destruct (perform _ st) as [s1|s1].
    + destruct (IH s1) as [n2 H2]. exists (n1 ++ n2)%list.
      now rewrite H2, H1, app_assoc.
    + exists n1. exact H1.
Qed.

Lemma catch_calls (reason : option error) (st : state) :
  exists new, calls (catch reason st) = (calls st ++ new)%list.
Proof.
  unfold catch, call_onError.
  destruct (aborted st), (has_onError (cbs st)); cbn;
    first [ eexists; reflexivity | exists []; now rewrite app_nil_r ].
Qed.

Lemma throw_status_calls (status : N) (statusText : string) (data : value)
    (st : state) :
  exists new, calls (throw_status status statusText data st) = (calls st ++ new)%list.
Proof. unfold throw_status. destruct (JS.get data "detail"); apply catch_calls. Qed.

Lemma on_rejected_calls (reason : option error) (st : state) :
  exists new, calls (on_rejected reason st) = (calls st ++ new)%list.
Proof.
  unfold on_rejected.
  destruct (pc st); try apply catch_calls; try apply throw_status_calls.
  exists []. now rewrite app_nil_r.
Qed.

Lemma step_calls (st : state) (t : task) :
  exists new, calls (step st t) = (calls st ++ new)%list.
Proof.
  assert (Hid : exists new, calls st = (calls st ++ new)%list)
    by (exists []; now rewrite app_nil_r).
  unfold step. destruct t; destruct (pc st) eqn:Hpc; try exact Hid;
    try apply on_rejected_calls;
    try (destruct (timers st); [exact Hid|]; unfold flush; cbn;
         destruct (Str.nonempty (visualBuffer st)); cbn;
         [eexists; reflexivity | exact Hid]);
    try (unfold cancel; destruct (returned st); [exact Hid|];
         destruct (on_rejected_calls (Some AbortError) (set_aborted true st)) as [n Hn];
         exists n; exact Hn).
  - (* Response *)
    unfold on_response.
    destruct (kind st);
      repeat match goal with
             | |- context [if ?c then _ else _] => destruct c
             end;
      try apply catch_calls;
      try (cbn; exact Hid);
      try (unfold loop; cbn; destruct (aborted st); cbn; exact Hid).
    destruct (catch_calls
                (Some (Error "Sesión expirada. Por favor, inicia sesión nuevamente."))
                (set_localStorage (removeToken (localStorage st)) st)) as [n Hn].
    exists n. exact Hn.
  - (* ErrorBody *)
    destruct (text ≫= JSON.parse);
      [apply throw_status_calls | apply on_rejected_calls].
  - (* Chunk *)
    unfold on_chunk. destruct (reassemble (buffer st) text) as [lines rest].
    destruct (process_lines_calls lines (set_buffer rest st)) as [n Hn].
    destruct (process_lines lines (set_buffer rest st)) as [s1|s1].
    + exists n. unfold loop. destruct (aborted s1); exact Hn.
    + exists n. exact Hn.
  - (* EndOfData *)
    unfold call_onComplete. destruct (has_onComplete (cbs st)); cbn;
      [eexists; reflexivity | exact Hid].
Qed.

(** Only the caller sets the abort flag. *)
Lemma catch_aborted (reason : option error) (st : state) :
  aborted (catch reason st) = aborted st.
Proof.
  unfold catch, call_onError.
  destruct (aborted st) eqn:Ha, (has_onError (cbs st)); cbn; now rewrite ?Ha.
Qed.

Lemma on_rejected_aborted (reason : option error) (st : state) :
  aborted (on_rejected reason st) = aborted st.
Proof.
  unfold on_rejected, throw_status.
  destruct (pc st); try apply catch_aborted; reflexivity.
Qed.

Lemma step_aborted (st : state) (t : task) :
  t <> Cancel -> aborted (step st t) = aborted st.
Proof.
  intros Ht. unfold step.
  destruct t; try (now contradiction Ht); destruct (pc st) eqn:Hpc;
    try reflexivity; try apply on_rejected_aborted;
    try (destruct (timers st); [reflexivity|]; unfold flush; cbn;
         now destruct (Str.nonempty (visualBuffer st))).
  - unfold on_response.
    destruct (kind st);
      repeat match goal with
             | |- context [if ?c then _ else _] => destruct c
             end;
      try (rewrite catch_aborted; reflexivity);
      try reflexivity;
      try (unfold loop; cbn; destruct (aborted st) eqn:Hab; cbn; exact Hab).
  - destruct (text ≫= JSON.parse); [|apply on_rejected_aborted].
    unfold throw_status. destruct (JS.get v "detail"); apply catch_aborted.
  - unfold on_chunk. destruct (reassemble (buffer st) text) as [lines rest].
    pose proof (process_lines_spec lines (set_buffer rest st)) as H.
    destruct (process_lines lines (set_buffer rest st)) as [s1|s1];
      destruct H as ((_ & _ & _ & Ha & _) & _); cbn in Ha.
    + unfold loop. destruct (aborted s1) eqn:Hab; cbn; congruence.
    + exact Ha.
  - unfold call_onComplete. now destruct (has_onComplete (cbs st)).
Qed.

Lemma cancel_calls (st : state) : calls (step st Cancel) = calls st.
Proof.
  assert (Hs : step st Cancel = cancel st) by (unfold step; now destruct (pc st)).
  rewrite Hs. unfold cancel. destruct (returned st); [reflexivity|].
  unfold on_rejected, throw_status, catch.
  cbn [pc set_aborted JS.get aborted negb].
  destruct (pc st); cbn; reflexivity.
Qed.

(** The callbacks and the flags of the view. *)
Lemma quiet_calls (new : list call) :
  forallb (fun c => negb (terminal c)) new = true <-> List.filter terminal new = [].
Proof.
  induction new as [|c new IH]; [cbn; tauto|].
  destruct c; cbn; rewrite ?IH; intuition discriminate.
Qed.

Lemma callbacks_flags (new : list call) (v : PublicView.view) :
  PublicView.enviando (fold_left PublicView.callback new v)
  = PublicView.enviando v && forallb (fun c => negb (terminal c)) new
  /\ (forallb (fun c => negb (terminal c)) new = true ->
      PublicView.cancelStream (fold_left PublicView.callback new v)
      = PublicView.cancelStream v).
Proof.
  revert v. induction new as [|c new IH]; intros v.
  - cbn. now rewrite andb_true_r.
  - cbn [fold_left forallb]. destruct (IH (PublicView.callback v c)) as (I1 & I2).
    assert (Hc : PublicView.enviando (PublicView.callback v c)
                 = PublicView.enviando v && negb (terminal c)
                 /\ (negb (terminal c) = true ->
                     PublicView.cancelStream (PublicView.callback v c)
                     = PublicView.cancelStream v)).
    { destruct c; cbn [PublicView.callback terminal negb];
        unfold PublicView.onToken, PublicView.onError, PublicView.onComplete;
        try destruct (findIndex _ _); cbn;
        rewrite ?andb_true_r, ?andb_false_r; split; auto; discriminate. }
    destruct Hc as (C1 & C2). rewrite I1, C1, andb_assoc.
    split; [reflexivity|].
    intros H. apply andb_prop in H as (Ha & Hb). now rewrite (I2 Hb), (C2 Ha).
Qed.

Lemma happen_task (s : PublicView.session) (t : task) :
  t <> Cancel ->
  exists new,
    calls (step (PublicView.stream s) t) = (calls (PublicView.stream s) ++ new)%list
    /\ PublicView.happen s (PublicView.Task t)
       = {| PublicView.shown := fold_left PublicView.callback new (PublicView.shown s);
            PublicView.stream := step (PublicView.stream s) t |}.
Proof.
  intros Ht. destruct (step_calls (PublicView.stream s) t) as [new Hn].
  exists new. split; [exact Hn|].
  rewrite <- (drop_app_length (calls (PublicView.stream s)) new), <- Hn.
  destruct t; try reflexivity. now contradiction Ht.
Qed.

Lemma not_cancel (t : task) : t = Cancel \/ t <> Cancel.
Proof. destruct t; (now left) || (right; discriminate). Qed.

(** The view is busy exactly while the stream runs: one step. *)
Lemma happen_busy (s : PublicView.session) (h : PublicView.happening) :
  inv (PublicView.stream s) -> cbs (PublicView.stream s) = both ->
  (PublicView.enviando (PublicView.shown s) = true ->
   pc (PublicView.stream s) <> Settled
   /\ PublicView.cancelStream (PublicView.shown s) = true) ->
  (PublicView.enviando (PublicView.shown s) = false ->
   pc (PublicView.stream s) = Settled) ->
  let s' := PublicView.happen s h in
  inv (PublicView.stream s') /\ cbs (PublicView.stream s') = both
  /\ (PublicView.enviando (PublicView.shown s') = true ->
      pc (PublicView.stream s') <> Settled
      /\ PublicView.cancelStream (PublicView.shown s') = true)
  /\ (PublicView.enviando (PublicView.shown s') = false ->
      pc (PublicView.stream s') = Settled).
Proof.
  intros Hi Hcb K1 K2. cbn zeta. destruct h as [t|].
  - destruct (not_cancel t) as [->|Ht].
    { change (PublicView.happen s (PublicView.Task Cancel)) with s. auto. }
    destruct (happen_task s t Ht) as (new & Hn & ->).
    cbn [PublicView.shown PublicView.stream].
    set (st := PublicView.stream s) in *. set (st' := step st t) in *.
    assert (Hi' : inv st') by apply step_inv, Hi.
    assert (Hcb' : cbs st' = both).
    { destruct (step_closure st t) as ((_ & H & _) & _). fold st' in H. congruence. }
    assert (Ht' : terminals st' = (terminals st ++ List.filter terminal new)%list).
    { unfold terminals. now rewrite Hn, List.filter_app. }
    destruct (callbacks_flags new (PublicView.shown s)) as (F1 & F2).
    split; [exact Hi'|]. split; [exact Hcb'|].
    destruct (PublicView.enviando (PublicView.shown s)) eqn:He.
    + destruct (K1 eq_refl) as (Hp & Hcs).
      destruct (inv_quiet _ Hi Hp) as (Hq & Hab & _).
      destruct (phase_eq_dec (pc st') Settled) as [Hs|Hs].
      * assert (Hab' : aborted st' = false)
          by (unfold st'; now rewrite step_aborted).
        assert (Hlen : length (terminals st') = 1).
        { apply (inv_exact _ Hi' Hs Hab'); rewrite Hcb'; reflexivity. }
        destruct (forallb (fun c => negb (terminal c)) new) eqn:Hf.
        { apply quiet_calls in Hf. rewrite Ht', Hq, Hf in Hlen. discriminate Hlen. }
        rewrite F1. cbn. split; [discriminate | intros _; exact Hs].
      * destruct (inv_quiet _ Hi' Hs) as (Hq' & _).
        rewrite Ht', Hq in Hq'. cbn [app] in Hq'. apply quiet_calls in Hq'.
        rewrite F1, (F2 Hq'), Hq'. cbn. split; [intros _; auto | discriminate].
    + rewrite F1. cbn. split; [discriminate|]. intros _.
      apply (settled_step st t (K2 eq_refl) (inv_timer _ Hi)).
  - unfold PublicView.happen, PublicView.cancelarStream.
    destruct (PublicView.cancelStream (PublicView.shown s)) eqn:Hc;
      [|split; [|split; [|split]]; try assumption;
        intros He; destruct (K1 He) as (_ & Hf); discriminate Hf].
    cbn [PublicView.shown PublicView.stream PublicView.enviando].
    set (st := PublicView.stream s) in *.
    split; [apply step_inv, Hi|]. split.
    { destruct (step_closure st Cancel) as ((_ & H & _) & _). congruence. }
    split; [discriminate|]. intros _.
    destruct (phase_eq_dec (pc st) Settled) as [Hs|Hs].
    + apply (settled_step st Cancel Hs (inv_timer _ Hi)).
    + assert (Hst : step st Cancel = cancel st) by (unfold step; now destruct (pc st)).
      rewrite Hst. destruct (inv_quiet _ Hi Hs) as (_ & _ & Hr).
      apply (cancel_midstream st Hs Hr).
Qed.

Lemma happenings_busy (hs : list PublicView.happening) (s : PublicView.session) :
  inv (PublicView.stream s) -> cbs (PublicView.stream s) = both ->
  (PublicView.enviando (PublicView.shown s) = true ->
   pc (PublicView.stream s) <> Settled
   /\ PublicView.cancelStream (PublicView.shown s) = true) ->
  (PublicView.enviando (PublicView.shown s) = false ->
   pc (PublicView.stream s) = Settled) ->
  let s' := PublicView.happenings hs s in
  inv (PublicView.stream s')
  /\ (PublicView.enviando (PublicView.shown s') = true ->
      pc (PublicView.stream s') <> Settled
      /\ PublicView.cancelStream (PublicView.shown s') = true)
  /\ (PublicView.enviando (PublicView.shown s') = false ->
      pc (PublicView.stream s') = Settled).
Proof.
  revert s. induction hs as [|h hs IH]; intros s Hi Hcb K1 K2; cbn zeta.
  - cbn. tauto.
  - unfold PublicView.happenings. cbn [fold_left].
    destruct (happen_busy s h Hi Hcb K1 K2) as (Hi' & Hcb' & K1' & K2').
    apply (IH _ Hi' Hcb' K1' K2').
Qed.

Lemma enviarMensaje_opens (v : PublicView.view) (ls : gmap string string)
    (s : PublicView.session) :
  PublicView.enviarMensaje v ls = Some s ->
  Str.nonempty (Str.trim (PublicView.inputPregunta v)) = true
  /\ PublicView.enviando v = false
  /\ PublicView.stream s = streamChatPublic both ls
  /\ PublicView.shown s
     = {| PublicView.mensajes :=
            (PublicView.mensajes v
             ++ [{| Msg.id := PublicView.mensajeIdCounter v;
                    Msg.texto := Str.trim (PublicView.inputPregunta v);
                    Msg.esUsuario := true;
                    Msg.timestamp := Now (PublicView.clock v);
                    Msg.cargando := None |};
                 {| Msg.id := (PublicView.mensajeIdCounter v + 1)%Z;
                    Msg.texto := EmptyString; Msg.esUsuario := false;
                    Msg.timestamp := Now (S (PublicView.clock v));
                    Msg.cargando := Some true |}])%list;
          PublicView.inputPregunta := EmptyString;
          PublicView.enviando := true;
          PublicView.mensajeIdCounter := (PublicView.mensajeIdCounter v + 2)%Z;
          PublicView.cancelStream := true;
          PublicView.clock := S (S (PublicView.clock v));
          PublicView.mensajeCarga := (PublicView.mensajeIdCounter v + 1)%Z;
          PublicView.respuestaCompleta := EmptyString |}.
Proof.
  unfold PublicView.enviarMensaje.
  destruct (Str.nonempty (Str.trim (PublicView.inputPregunta v)));
    [|discriminate].
  destruct (PublicView.enviando v); [discriminate|].
  cbn [negb orb]. intros [= <-]. cbn. auto.
Qed.

(** X20. From the sending of a question on, whatever the tasks of its
    stream and the clicks on the cancel button, the view is busy (the
    input is disabled and the cancel button shown) exactly while the
    asynchronous function of the stream has not returned. *)
Theorem busy_while_streaming (v : PublicView.view) (ls : gmap string string)
    (s : PublicView.session) (hs : list PublicView.happening) :
  PublicView.enviarMensaje v ls = Some s ->
  let s' := PublicView.happenings hs s in
  PublicView.enviando (PublicView.shown s') = true
  <-> pc (PublicView.stream s') <> Settled.
Proof.
  intros Hs. cbn zeta.
  destruct (enviarMensaje_opens v ls s Hs) as (_ & _ & Hst & Hsh).
  destruct (happenings_busy hs s) as (_ & K1 & K2).
  - rewrite Hst. apply (inv_start Public).
  - now rewrite Hst.
  - rewrite Hst, Hsh. cbn. split; [discriminate | reflexivity].
  - rewrite Hsh. cbn. discriminate.
  - split; [apply K1|]. intros Hp.
    destruct (PublicView.enviando _); [reflexivity|]. now contradiction Hp; apply K2.
Qed.

(** The loading message is found and replaced in place. *)
Lemma findIndex_last (old : list Mensaje) (q a x : Mensaje) (c0 : Z) :
  Forall (fun m => Msg.id m <> c0) (old ++ [q])%list -> Msg.id a = c0 ->
  exists i, findIndex c0 (old ++ [q; a])%list = Some i
            /\ <[i := x]> (old ++ [q; a])%list = (old ++ [q; x])%list.
Proof.
  intros HF Ha. induction old as [|m old IH].
  - inversion HF as [|? ? Hq _]; subst. exists 1%nat. cbn.
    apply Z.eqb_neq in Hq. rewrite Hq, Z.eqb_refl. auto.
  - inversion HF as [|? ? Hm HF']; subst.
    destruct (IH HF') as (i & Hi & Hx). exists (S i).
    apply Z.eqb_neq in Hm. split.
    + cbn [app findIndex]. now rewrite Hm, Hi.
    + cbn [app]. rewrite <- Hx. reflexivity.
Qed.

Lemma received_snoc (cs : list call) (c : call) :
  PublicView.received (cs ++ [c])
  = PublicView.received cs
    ++ match c with OnToken t => JS.toString t | _ => EmptyString end.
Proof.
  unfold PublicView.received. rewrite flat_map_app, concat_app.
  destruct c; cbn; now rewrite ?append_nil_r.
Qed.

Lemma last_report_snoc (cs : list call) (c : call) :
  last_report (cs ++ [c])
  = match c with
    | OnToken _ => None
    | OnError e => Some e
    | OnComplete _ => last_report cs
    end.
Proof.
  unfold last_report, writes. rewrite List.filter_app.
  destruct c; cbn [List.filter is_onComplete negb];
    rewrite ?app_nil_r, ?last_last; reflexivity.
Qed.

Lemma loading_snoc (cs : list call) (c : call) :
  forallb is_onComplete (cs ++ [c]) = forallb is_onComplete cs && is_onComplete c.
Proof. rewrite forallb_app. cbn. now rewrite andb_true_r. Qed.

(** One callback on a view whose last message is the loading message. *)
Lemma callback_answer (old : list Mensaje) (q : Mensaje) (c0 : Z) :
  Forall (fun m => Msg.id m <> c0) (old ++ [q])%list ->
  forall (c : call) (v : PublicView.view) (cs : list call) (a : Mensaje),
    PublicView.mensajeCarga v = c0 ->
    PublicView.mensajes v = (old ++ [q; a])%list ->
    PublicView.respuestaCompleta v = PublicView.received cs ->
    PublicView.answers cs c0 a ->
    exists a',
      PublicView.mensajeCarga (PublicView.callback v c) = c0
      /\ PublicView.mensajes (PublicView.callback v c) = (old ++ [q; a'])%list
      /\ PublicView.respuestaCompleta (PublicView.callback v c)
         = PublicView.received (cs ++ [c])
      /\ PublicView.answers (cs ++ [c]) c0 a'.
Proof.
  intros HF c v cs a Hc Hm Hr (A1 & A2 & A3 & A4).
  unfold PublicView.answers.
  rewrite received_snoc, last_report_snoc, loading_snoc.
  destruct c as [t|e|i]; cbn [PublicView.callback is_onComplete].
  - set (x := PublicView.respuesta v (PublicView.respuestaCompleta v ++ JS.toString t)).
    destruct (findIndex_last old q a x c0 HF A1) as (n & Hn & Hx).
    unfold PublicView.onToken. rewrite Hc, Hm, Hn. fold x.
    exists x. cbn. rewrite Hx, Hr, andb_false_r. auto 10.
  - set (x := PublicView.respuesta v
                (or_else (message_of e) "Error al procesar la pregunta")).
    destruct (findIndex_last old q a x c0 HF A1) as (n & Hn & Hx).
    unfold PublicView.onError. rewrite Hc, Hm, Hn. fold x.
    exists x. cbn. rewrite Hx, Hr, andb_false_r, append_nil_r. auto 10.
  - exists a. cbn. rewrite append_nil_r, andb_true_r. auto 10.
Qed.

Lemma callbacks_answer (old : list Mensaje) (q : Mensaje) (c0 : Z) :
  Forall (fun m => Msg.id m <> c0) (old ++ [q])%list ->
  forall (new : list call) (v : PublicView.view) (cs : list call) (a : Mensaje),
    PublicView.mensajeCarga v = c0 ->
    PublicView.mensajes v = (old ++ [q; a])%list ->
    PublicView.respuestaCompleta v = PublicView.received cs ->
    PublicView.answers cs c0 a ->
    exists a',
      PublicView.mensajeCarga (fold_left PublicView.callback new v) = c0
      /\ PublicView.mensajes (fold_left PublicView.callback new v)
         = (old ++ [q; a'])%list
      /\ PublicView.respuestaCompleta (fold_left PublicView.callback new v)
         = PublicView.received (cs ++ new)
      /\ PublicView.answers (cs ++ new) c0 a'.
Proof.
  intros HF. induction new as [|c new IH]; intros v cs a Hc Hm Hr Ha.
  - exists a. rewrite app_nil_r. auto.
  - destruct (callback_answer old q c0 HF c v cs a Hc Hm Hr Ha)
      as (a1 & Hc1 & Hm1 & Hr1 & Ha1).
    destruct (IH _ _ _ Hc1 Hm1 Hr1 Ha1) as (a2 & H).
    exists a2. rewrite <- app_assoc in H. exact H.
Qed.

Lemma happen_answer (old : list Mensaje) (q : Mensaje) (c0 : Z)
    (s : PublicView.session) (h : PublicView.happening) :
  Forall (fun m => Msg.id m <> c0) (old ++ [q])%list ->
  (exists a,
     PublicView.mensajeCarga (PublicView.shown s) = c0
     /\ PublicView.mensajes (PublicView.shown s) = (old ++ [q; a])%list
     /\ PublicView.respuestaCompleta (PublicView.shown s)
        = PublicView.received (calls (PublicView.stream s))
     /\ PublicView.answers (calls (PublicView.stream s)) c0 a) ->
  exists a,
    PublicView.mensajeCarga (PublicView.shown (PublicView.happen s h)) = c0
    /\ PublicView.mensajes (PublicView.shown (PublicView.happen s h))
       = (old ++ [q; a])%list
    /\ PublicView.respuestaCompleta (PublicView.shown (PublicView.happen s h))
       = PublicView.received (calls (PublicView.stream (PublicView.happen s h)))
    /\ PublicView.answers (calls (PublicView.stream (PublicView.happen s h))) c0 a.
Proof.
  intros HF (a & Hc & Hm & Hr & Ha). destruct h as [t|].
  - destruct (not_cancel t) as [->|Ht].
    { change (PublicView.happen s (PublicView.Task Cancel)) with s. eauto. }
    destruct (happen_task s t Ht) as (new & Hn & ->).
    cbn [PublicView.shown PublicView.stream]. rewrite Hn.
    apply (callbacks_answer old q c0 HF new _ _ a Hc Hm Hr Ha).
  - unfold PublicView.happen, PublicView.cancelarStream.
    destruct (PublicView.cancelStream (PublicView.shown s)); [|eauto].
    cbn [PublicView.shown PublicView.stream PublicView.mensajes
         PublicView.mensajeCarga PublicView.respuestaCompleta].
    rewrite cancel_calls. eauto.
Qed.

(** X21. The answer on the screen.  When the ids of the messages shown
    are below the counter, a question that is sent is pushed with the
    counter as its id, followed by the loading message; and from then
    on, whatever the tasks of its stream and the clicks on the cancel
    button, the messages are those that were shown, the question and the
    loading message, in this order.  The text of the loading message is
    the message of the error passed to [onError] (a fixed text when it
    is empty) as long as no token is delivered after it, and else all the
    text passed to [onToken] so far; the message shows as loading until
    the first call of [onToken] or [onError]. *)
Theorem answer_shows_stream (v : PublicView.view) (ls : gmap string string)
    (s : PublicView.session) (hs : list PublicView.happening) :
  Forall (fun m => (Msg.id m < PublicView.mensajeIdCounter v)%Z)
    (PublicView.mensajes v) ->
  PublicView.enviarMensaje v ls = Some s ->
  let s' := PublicView.happenings hs s in
  let st := PublicView.stream s' in
  exists a,
    PublicView.mensajes (PublicView.shown s')
    = (PublicView.mensajes v
       ++ [{| Msg.id := PublicView.mensajeIdCounter v;
              Msg.texto := Str.trim (PublicView.inputPregunta v);
              Msg.esUsuario := true;
              Msg.timestamp := Now (PublicView.clock v);
              Msg.cargando := None |}; a])%list
    /\ Msg.id a = (PublicView.mensajeIdCounter v + 1)%Z
    /\ Msg.esUsuario a = false
    /\ Msg.texto a
       = match last_report (calls st) with
         | Some e => or_else (message_of e) "Error al procesar la pregunta"
         | None => token_text st
         end
    /\ Msg.cargando a = Some (forallb is_onComplete (calls st))
    /\ PublicView.respuestaCompleta (PublicView.shown s') = token_text st.
Proof.
  intros Hids Hs. cbn zeta.
  destruct (enviarMensaje_opens v ls s Hs) as (_ & _ & Hst & Hsh).
  set (q := {| Msg.id := PublicView.mensajeIdCounter v;
               Msg.texto := Str.trim (PublicView.inputPregunta v);
               Msg.esUsuario := true;
               Msg.timestamp := Now (PublicView.clock v);
               Msg.cargando := None |}) in *.
  set (c0 := (PublicView.mensajeIdCounter v + 1)%Z) in *.
  assert (HF : Forall (fun m => Msg.id m <> c0) (PublicView.mensajes v ++ [q])%list).
  { apply Forall_app. split.
    - eapply Forall_impl; [exact Hids|]. intros m Hm. subst c0. cbn beta in *. lia.
    - constructor; [|constructor]. subst q c0. cbn. lia. }
  assert (H : exists a,
             PublicView.mensajeCarga (PublicView.shown (PublicView.happenings hs s)) = c0
             /\ PublicView.mensajes (PublicView.shown (PublicView.happenings hs s))
                = (PublicView.mensajes v ++ [q; a])%list
             /\ PublicView.respuestaCompleta
                  (PublicView.shown (PublicView.happenings hs s))
                = PublicView.received
                    (calls (PublicView.stream (PublicView.happenings hs s)))
             /\ PublicView.answers
                  (calls (PublicView.stream (PublicView.happenings hs s))) c0 a).
  { assert (H0 : exists a,
               PublicView.mensajeCarga (PublicView.shown s) = c0
               /\ PublicView.mensajes (PublicView.shown s)
                  = (PublicView.mensajes v ++ [q; a])%list
               /\ PublicView.respuestaCompleta (PublicView.shown s)
                  = PublicView.received (calls (PublicView.stream s))
               /\ PublicView.answers (calls (PublicView.stream s)) c0 a).
    { rewrite Hst, Hsh. eexists. cbn. unfold PublicView.answers. cbn. auto 10. }
    clear Hst Hsh Hs. revert s H0.
    induction hs as [|h hs IH]; intros s H0; [exact H0|].
    unfold PublicView.happenings. cbn [fold_left].
    apply IH, (happen_answer _ q c0 s h HF H0). }
  destruct H as (a & _ & Hm & Hr & A1 & A2 & A3 & A4).
  exists a. unfold token_text. auto 10.
Qed.

End PublicChat.
(* ===================================================================== *)
(** ** Runs on concrete inputs *)
(* ===================================================================== *)

#[local] Existing Instance example_engine.

(** The claim of the specification about the named-event wire text fails:
    the text delivered is not [Hello world]. *)
Lemma named_events_lose_space :
  token_text
    (@run example_engine [Response 200 "OK" true; Chunk named_wire; TimerFires]
       (streamChat both logged_in))
  <> "Hello world".
Proof. vm_compute. discriminate. Qed.

(** The claim of the specification about failed responses fails for a
    401 answered to [streamChat]: the message is neither the detail the
    server supplied nor the message made from the status. *)
Lemma unauthorized_ignores_detail :
  let st := @run example_engine
              [Response 401 "Unauthorized" true; ErrorBody (Some revoked_body)]
              (streamChat both logged_in) in
  @error_message example_engine 401 "Unauthorized" (Some revoked_body) = "token revoked"
  /\ errors st <> [Error "token revoked"]
  /\ errors st <> [Error (status_message 401 "Unauthorized")].
Proof. vm_compute. repeat split; discriminate. Qed.

(** What the equivalence of the two forms leaves open is the moment of
    delivery.  With each text in one chunk, [streamChatPublic] makes the
    same calls in the same order on both forms, while [streamChat] calls
    [onToken] before [onComplete] on the legacy form (the token is not
    coalesced) and after it on the named-event form (the token waits for
    the timer). *)
Lemma legacy_form_call_order :
  let legacy k := calls (run [Response 200 "OK" true; Chunk legacy_wire; TimerFires]
                           (start k both logged_in)) in
  let named k := calls (run [Response 200 "OK" true; Chunk legacy_as_named; TimerFires]
                          (start k both logged_in)) in
  legacy Public = named Public
  /\ legacy Authenticated = [OnToken (VStr "Hi"); OnComplete VUndefined]
  /\ named Authenticated = [OnComplete VUndefined; OnToken (VStr "Hi")].
Proof. vm_compute. auto. Qed.

Lemma named_events_dispatch_witness :
  let script := [Chunk (wire ["event: token"; "data: Hello"; ""] ++ "event: to");
                 TimerFires;
                 Chunk (wire ["ken"; "data:  world"; "";
                              "event: done";
                              "data: {" ++ quoted "conversation_id" ++ ": 42}"; ""])] in
  Str.concat (chunks_of script) = named_wire
  /\ observed (run (Response 200 "OK" true :: script ++ [TimerFires])
                 (start Authenticated both logged_in))
     = ("Helloworld", [VNum (NInt 42)], []).
Proof.
  cbn zeta. split; [reflexivity|].
  apply (@named_events_dispatch example_engine Authenticated
           [Chunk (wire ["event: token"; "data: Hello"; ""] ++ "event: to");
            TimerFires;
            Chunk (wire ["ken"; "data:  world"; "";
                         "event: done";
                         "data: {" ++ quoted "conversation_id" ++ ": 42}"; ""])]);
    reflexivity.
Defined.

Lemma legacy_form_equivalent_witness :
  let legacy := [Chunk legacy_wire] in
  let named := [Chunk (wire ["event: token"; "data: Hi"]); TimerFires;
                Chunk (wire [""; "event: done"; "data: {}"; ""])] in
  let a := run (Response 200 "OK" true :: legacy ++ [TimerFires])
               (start Authenticated both logged_in) in
  let b := run (Response 200 "OK" true :: named ++ [TimerFires])
               (start Authenticated both logged_in) in
  Str.concat (chunks_of named) = legacy_as_named
  /\ observed a = observed b /\ observed a = ("Hi", [VUndefined], []).
Proof.
  cbn zeta. split; [reflexivity|].
  apply (@legacy_form_equivalent example_engine Authenticated
           [Chunk legacy_wire]
           [Chunk (wire ["event: token"; "data: Hi"]); TimerFires;
            Chunk (wire [""; "event: done"; "data: {}"; ""])]);
    reflexivity.
Defined.

Lemma at_most_one_terminal_callback_witness :
  let st := @run example_engine [Response 200 "OK" true; EndOfData]
              (start Authenticated both logged_in) in
  let st0 := @run example_engine [Response 200 "OK" true]
               (start Authenticated both logged_in) in
  (pc st = Settled /\ aborted st = false
   /\ length (errors (@run example_engine [TimerFires; Cancel] st))
      + length (completions (@run example_engine [TimerFires; Cancel] st)) = 1)
  /\ (pc st0 <> Settled /\ transport_ends (pc st0) (ReadRejected None) = true
      /\ pc (@step example_engine st0 (ReadRejected None)) = Settled
      /\ completions (@step example_engine st0 (ReadRejected None)) = []).
Proof.
  cbn zeta. split.
  - split; [reflexivity|]. split; [reflexivity|].
    apply (proj1 (proj2 (proj2 (proj2
             (@at_most_one_terminal_callback example_engine Authenticated both
                logged_in [Response 200 "OK" true; EndOfData] [TimerFires; Cancel])))));
      reflexivity.
  - assert (Hp : pc (@run example_engine [Response 200 "OK" true]
                       (start Authenticated both logged_in)) <> Settled)
      by (vm_compute; discriminate).
    split; [exact Hp|]. split; [reflexivity|].
    destruct (proj1 (proj2 (proj2 (proj2 (proj2
                (@at_most_one_terminal_callback example_engine Authenticated both
                   logged_in [Response 200 "OK" true] [])))))
                Hp eq_refl eq_refl (ReadRejected None) eq_refl)
      as (A & _ & C & _).
    split; [exact A|]. apply C. discriminate.
Defined.

Lemma cancel_silences_witness :
  let before := [Response 200 "OK" true; Chunk (wire ["event: token"; "data: Hi"])] in
  let after := [TimerFires; Chunk (wire ["data: there"]); EndOfData] in
  let st := @run example_engine before (start Public both logged_in) in
  let st' := @run example_engine (before ++ Cancel :: after)
               (start Public both logged_in) in
  pc st <> Settled
  /\ (calls st' = calls st
      \/ calls st' = (calls st ++ [OnToken (VStr (visualBuffer st))])%list)
  /\ errors st' = [] /\ completions st' = [].
Proof.
  cbn zeta. split; [vm_compute; discriminate|].
  apply (@cancel_silences example_engine Public both logged_in
           [Response 200 "OK" true; Chunk (wire ["event: token"; "data: Hi"])]
           [TimerFires; Chunk (wire ["data: there"]); EndOfData]).
  vm_compute. discriminate.
Defined.

Lemma done_or_end_of_data_completes_witness :
  let script := [Response 200 "OK" true; Chunk (wire ["event: done"])] in
  let st := @run example_engine script (start Authenticated both logged_in) in
  let st' := @step example_engine st
               (Chunk (wire ["data: {" ++ quoted "conversation_id" ++ ": 7}"])) in
  pc st = AwaitRead
  /\ pc st' = Settled
  /\ completions st' = [VNum (NInt 7)] /\ errors st' = []
  /\ completions (@step example_engine st EndOfData) = [VUndefined].
Proof.
  cbn zeta.
  pose proof (@done_or_end_of_data_completes example_engine Authenticated both
                logged_in [Response 200 "OK" true; Chunk (wire ["event: done"])]
                eq_refl eq_refl) as [Hdone Hend].
  split; [reflexivity|].
  specialize (Hdone (wire ["data: {" ++ quoted "conversation_id" ++ ": 7}"]) ""
                ("data: {" ++ quoted "conversation_id" ++ ": 7}")
                ("{" ++ quoted "conversation_id" ++ ": 7}") [] []
                _ eq_refl eq_refl eq_refl eq_refl).
  destruct Hdone as (H1 & _ & H3 & H4). destruct Hend as (_ & _ & H5 & _).
  repeat split; assumption.
Defined.

Lemma no_credential_fails_synchronously_witness :
  let st := streamChat both ∅ in
  calls st = [OnError (Error "No autenticado. Por favor, inicia sesión.")]
  /\ requests st = []
  /\ returned st = Noop
  /\ @run example_engine [Cancel; Response 200 "OK" true; TimerFires] st = st.
Proof.
  apply (@no_credential_fails_synchronously example_engine both ∅
           [Cancel; Response 200 "OK" true; TimerFires]).
  reflexivity.
Defined.

Lemma legacy_token_direct_or_buffered_witness :
  let line := "data: {" ++ quoted "event" ++ ":" ++ quoted "token" ++ ","
                        ++ quoted "data" ++ ":" ++ quoted "Hi" ++ "}" in
  let a := @run example_engine [Response 200 "OK" true]
             (streamChat both logged_in) in
  let p := @run example_engine [Response 200 "OK" true]
             (streamChatPublic both logged_in) in
  @process_line example_engine line a = Continue (invoke (OnToken (VStr "Hi")) a)
  /\ exists p',
       @process_line example_engine line p = Continue p'
       /\ calls p' = calls p
       /\ visualBuffer p' = visualBuffer p ++ "Hi"
       /\ timers p' = 1
       /\ calls (@step example_engine p' TimerFires)
          = if Str.nonempty (visualBuffer p')
            then (calls p ++ [OnToken (VStr (visualBuffer p'))])%list
            else calls p.
Proof.
  cbn zeta.
  pose (dataStr := "{" ++ quoted "event" ++ ":" ++ quoted "token" ++ ","
                       ++ quoted "data" ++ ":" ++ quoted "Hi" ++ "}").
  pose (data := VObj [("event", VStr "token"); ("data", VStr "Hi")]).
  split.
  - apply (proj1 (@legacy_token_direct_or_buffered example_engine
                    (@run example_engine [Response 200 "OK" true]
                       (streamChat both logged_in))
                    ("data: " ++ dataStr) dataStr data (VStr "Hi")
                    eq_refl eq_refl eq_refl eq_refl eq_refl eq_refl eq_refl)).
    reflexivity.
  - apply (proj2 (@legacy_token_direct_or_buffered example_engine
                    (@run example_engine [Response 200 "OK" true]
                       (streamChatPublic both logged_in))
                    ("data: " ++ dataStr) dataStr data (VStr "Hi")
                    eq_refl eq_refl eq_refl eq_refl eq_refl eq_refl eq_refl));
      reflexivity.
Defined.

Lemma unauthorized_removes_token_witness :
  let st := @run example_engine [] (streamChat both logged_in) in
  let st' := @step example_engine st (Response 401 "Unauthorized" true) in
  pc st = AwaitFetch
  /\ getToken (localStorage st') = None
  /\ pc st' = Settled
  /\ calls st' = [OnError (Error "Sesión expirada. Por favor, inicia sesión nuevamente.")].
Proof.
  cbn zeta.
  destruct (proj1 (@unauthorized_removes_token example_engine both logged_in [])
              "Unauthorized" true eq_refl) as (H1 & _ & H3 & H4).
  repeat split; assumption.
Defined.

Lemma failed_response_reports_error_witness :
  let st := @run example_engine [] (start Public both logged_in) in
  pc st = AwaitFetch
  /\ errors (@run example_engine
               [Response 503 "Service Unavailable" true; ErrorBody (Some "<html>")] st)
     = [Error "Error 503: Service Unavailable"]
  /\ errors (@step example_engine st (Response 200 "OK" false))
     = [Error "No se recibió respuesta del servidor"]
  /\ errors (@run example_engine
               [Response 500 "Internal Server Error" true;
                ErrorBody (Some overloaded_body)] st)
     = [Error "server overloaded"].
Proof.
  cbn zeta.
  destruct (@failed_response_reports_error example_engine Public both logged_in []
              503%N "Service Unavailable" true (Some "<html>") eq_refl eq_refl)
    as (H1 & H2 & _).
  destruct (@failed_response_reports_error example_engine Public both logged_in []
              500%N "Internal Server Error" true None eq_refl eq_refl)
    as (_ & _ & H3).
  destruct (@failed_response_reports_error example_engine Public both logged_in []
              200%N "OK" true None eq_refl eq_refl)
    as (_ & H4 & _).
  split; [reflexivity|].
  split; [apply H1; [reflexivity | discriminate | discriminate]|].
  split; [apply H4; reflexivity | exact H3].
Defined.

#[local] Existing Instance example_wording.

Lemma empty_token_is_half_a_login_witness :
  getToken empty_token = Some ""
  /\ isAuthenticated empty_token = true
  /\ requests (streamChat both empty_token) = [].
Proof.
  split; [reflexivity|].
  destruct (empty_token_is_half_a_login both empty_token (NoReply None)
              ltac:(vm_compute; reflexivity)) as (H1 & _ & _ & _ & H2 & _).
  split; [exact H1 | exact H2].
Defined.

Lemma handleResponse_message_witness :
  let st := run [] (start Public both nobody) in
  pc st = AwaitFetch /\ ok 500 = false
  /\ exists message,
       handleResponse 500 "Internal Server Error" (Some "<html>")
       = Rejected (Err (Error message))
       /\ errors (run [Response 500 "Internal Server Error" true;
                       ErrorBody (Some "<html>")] st)
          = [Error message].
Proof.
  cbn zeta. split; [reflexivity|]. split; [reflexivity|].
  destruct (handleResponse_message Public both nobody [] 500 "Internal Server Error"
              true (Some "<html>")
              ltac:(vm_compute; reflexivity) ltac:(reflexivity)
              ltac:(vm_compute; reflexivity) ltac:(discriminate)) as (H & _).
  apply H. left. vm_compute. reflexivity.
Defined.

Lemma authenticated_call_signs_out_on_401_witness :
  getToken (fst (authenticated_call logged_in (Reply 401 "Unauthorized" None))) = None
  /\ beforeEach (fst (authenticated_call logged_in (Reply 401 "Unauthorized" None)))
       (Named RChat) = Redirect RAuth
  /\ authenticated_call logged_in (Reply 200 "OK" (Some "{}"))
     = (logged_in, Resolved (VObj [])).
Proof.
  destruct (authenticated_call_signs_out_on_401 logged_in
              (Reply 401 "Unauthorized" None)) as (H & _).
  destruct (H "Unauthorized" None eq_refl) as (H1 & _ & _ & H2).
  split; [exact H1|]. split; [exact H2|].
  destruct (authenticated_call_signs_out_on_401 logged_in
              (Reply 200 "OK" (Some "{}"))) as (_ & _ & _ & H3 & _).
  apply (H3 200%N "OK" (Some "{}") (VObj []) eq_refl);
    vm_compute; reflexivity.
Defined.

Lemma login_opens_the_chat_witness :
  let token := VObj [("access_token", VStr "jwt")] in
  login nobody (Reply 200 "OK" (Some token_body))
  = (setToken "jwt" nobody, Resolved token)
  /\ JS.get token "access_token" = Some (VStr "jwt")
  /\ beforeEach (setToken "jwt" nobody) (Named RAuth) = Redirect RChat.
Proof.
  cbn zeta.
  assert (H1 : login nobody (Reply 200 "OK" (Some token_body))
               = (setToken "jwt" nobody,
                  Resolved (VObj [("access_token", VStr "jwt")])))
    by (vm_compute; reflexivity).
  assert (H2 : JS.get (VObj [("access_token", VStr "jwt")]) "access_token"
               = Some (VStr "jwt")) by reflexivity.
  split; [exact H1|]. split; [exact H2|].
  destruct (login_opens_the_chat nobody (setToken "jwt" nobody)
              (Reply 200 "OK" (Some token_body))
              (VObj [("access_token", VStr "jwt")]) "jwt" both H1 H2)
    as (_ & _ & _ & H & _).
  exact H.
Defined.

Lemma failed_login_keeps_storage_witness :
  fst (login logged_in (Reply 401 "Unauthorized" None)) = logged_in.
Proof.
  destruct (failed_login_keeps_storage logged_in (Reply 401 "Unauthorized" None))
    as (H & _).
  apply (H (Err (Error "Error 401: Unauthorized"))). vm_compute. reflexivity.
Defined.

Lemma login_without_token_stores_undefined_witness :
  ok 200 = true
  /\ Some "{}" ≫= JSON.parse = Some (VObj [])
  /\ isAuthenticated (fst (login nobody (Reply 200 "OK" (Some "{}")))) = true.
Proof.
  assert (H : Some "{}" ≫= JSON.parse = Some (VObj [])) by (vm_compute; reflexivity).
  split; [reflexivity|]. split; [exact H|].
  destruct (login_without_token_stores_undefined nobody 200 "OK" (Some "{}") []
              ltac:(vm_compute; reflexivity) H ltac:(vm_compute; reflexivity))
    as (_ & H2).
  exact H2.
Defined.


Lemma ended_stream_is_silent_witness :
  let st := run [Response 200 "OK" true; EndOfData] (start Public both nobody) in
  let later := [Chunk (wire ["data: late"]); TimerFires; EndOfData] in
  pc st = Settled
  /\ completions (run later st) = completions st
  /\ errors (run later st) = errors st.
Proof.
  cbn zeta.
  destruct (ended_stream_is_silent Public both nobody
              [Response 200 "OK" true; EndOfData]
              [Chunk (wire ["data: late"]); TimerFires; EndOfData]
              ltac:(vm_compute; reflexivity))
    as (_ & H1 & H2 & _).
  split; [reflexivity|]. split; [exact H1 | exact H2].
Defined.

Lemma public_stream_ignores_timing_witness :
  let d1 := [Chunk named_wire] in
  let d2 := [Chunk (wire ["event: token"; "data: Hello"; ""] ++ "event: to");
             TimerFires;
             Chunk (wire ["ken"; "data:  world"; "";
                          "event: done";
                          "data: {" ++ quoted "conversation_id" ++ ": 42}"; ""])] in
  Str.concat (chunks_of d1) = Str.concat (chunks_of d2)
  /\ observed (run (Response 200 "OK" true :: d1 ++ [TimerFires])
                 (streamChatPublic both nobody))
     = observed (run (Response 200 "OK" true :: d2 ++ [TimerFires])
                   (streamChatPublic both nobody)).
Proof.
  cbn zeta.
  assert (H : Str.concat (chunks_of [Chunk named_wire])
              = Str.concat
                  (chunks_of
                     [Chunk (wire ["event: token"; "data: Hello"; ""] ++ "event: to");
                      TimerFires;
                      Chunk (wire ["ken"; "data:  world"; "";
                                   "event: done";
                                   "data: {" ++ quoted "conversation_id" ++ ": 42}"; ""])]))
    by (vm_compute; reflexivity).
  split; [exact H|].
  apply (public_stream_ignores_timing both nobody 200 "OK"
           [Chunk named_wire]
           [Chunk (wire ["event: token"; "data: Hello"; ""] ++ "event: to");
            TimerFires;
            Chunk (wire ["ken"; "data:  world"; "";
                         "event: done";
                         "data: {" ++ quoted "conversation_id" ++ ": 42}"; ""])]
           ltac:(vm_compute; reflexivity) ltac:(vm_compute; reflexivity)
           ltac:(vm_compute; reflexivity) H).
Defined.

Lemma formatearTamano_accuracy_witness :
  (1024 <= 1536 <= 9007199254740992)%Z
  /\ exists (whole cents : Z) (unit_name : string),
       formatearTamaño 1536
       = Str.of_Z whole ++ "." ++ two_digits cents ++ " " ++ unit_name
       /\ (0 <= cents < 100)%Z.
Proof.
  assert (H : (1024 <= 1536 <= 9007199254740992)%Z) by lia.
  split; [exact H|].
  destruct (formatearTamano_accuracy 1536 H)
    as (whole & cents & unit_size & unit_name & H1 & H2 & _).
  exists whole, cents, unit_name. split; [exact H1 | exact H2].
Defined.

Lemma handleLogin_outcome_witness :
  let d := handleLogin login_form nobody (Reply 200 "OK" (Some token_body)) in
  a_landed d = Some (Some (Named RChat))
  /\ isAuthenticated (a_storage d) = true
  /\ error_text (a_view d) = "".
Proof.
  cbn zeta.
  assert (H : a_landed (handleLogin login_form nobody (Reply 200 "OK" (Some token_body)))
              = Some (Some (Named RChat))) by (vm_compute; reflexivity).
  split; [exact H|].
  destruct (handleLogin_outcome login_form nobody (Reply 200 "OK" (Some token_body)))
    as (_ & H1 & _).
  destruct (H1 _ H) as (_ & H2 & H3 & _).
  split; [exact H2 | exact H3].
Defined.

Lemma handleRegister_outcome_witness :
  let d := handleRegister register_form nobody
             (Reply 201 "Created" (Some "{}")) (Reply 200 "OK" (Some token_body)) in
  a_landed d = Some (Some (Named RChat))
  /\ isAuthenticated (a_storage d) = true.
Proof.
  cbn zeta.
  assert (H : a_landed (handleRegister register_form nobody
                          (Reply 201 "Created" (Some "{}"))
                          (Reply 200 "OK" (Some token_body)))
              = Some (Some (Named RChat))) by (vm_compute; reflexivity).
  split; [exact H|].
  destruct (handleRegister_outcome register_form nobody
              (Reply 201 "Created" (Some "{}")) (Reply 200 "OK" (Some token_body)))
    as (_ & _ & H1 & _).
  destruct (H1 _ H) as (_ & H2). exact H2.
Defined.

Lemma pages_accumulate_in_order_witness :
  let p := example_page [6; 5; 4]%Z true in
  let ps := [example_page [3; 2]%Z true; example_page [1]%Z false] in
  let w := ChatView.cargarPaginas
             (ChatView.cargarMensajesIniciales empty_chat logged_in (Some p))
             logged_in ps in
  isAuthenticated logged_in = true
  /\ ChatView.mensajes w
     = rev (List.map convertirMensaje (flat_map messages (p :: ps)))
  /\ ChatView.currentPage w = 3%Z
  /\ ChatView.hasMoreMessages w = false.
Proof.
  cbn zeta.
  destruct (pages_accumulate_in_order empty_chat logged_in
              (example_page [6; 5; 4]%Z true)
              [example_page [3; 2]%Z true; example_page [1]%Z false])
    as (H1 & H2 & H3 & _).
  - reflexivity.
  - reflexivity.
  - repeat constructor; discriminate.
  - repeat constructor.
  - split; [reflexivity|]. split; [exact H1|]. split; [exact H2 | exact H3].
Defined.

Lemma loading_more_keeps_messages_witness :
  let v := ChatView.cargarMensajesIniciales empty_chat logged_in
             (Some (example_page [6; 5; 4]%Z true)) in
  let w := ChatView.cargarMasMensajes v logged_in (Some (example_page [] true)) in
  ChatView.cargarMasMensajes_endpoint v logged_in <> None
  /\ ChatView.isLoadingMore w = false
  /\ ChatView.cargarMasMensajes_endpoint w logged_in = None.
Proof.
  cbn zeta.
  assert (H : ChatView.cargarMasMensajes_endpoint
                (ChatView.cargarMensajesIniciales empty_chat logged_in
                   (Some (example_page [6; 5; 4]%Z true))) logged_in <> None)
    by (vm_compute; discriminate).
  split; [exact H|].
  destruct (loading_more_keeps_messages
              (ChatView.cargarMensajesIniciales empty_chat logged_in
                 (Some (example_page [6; 5; 4]%Z true)))
              logged_in (Some (example_page [] true))) as (_ & H1).
  destruct (H1 H) as (H2 & H3).
  split; [exact H2|]. apply (H3 (example_page [] true) eq_refl eq_refl).
Defined.

Lemma busy_while_streaming_witness :
  let hs := [PublicView.Task (Response 200 "OK" true);
             PublicView.Task (Chunk (wire ["event: token"; "data: Hola"; ""]));
             PublicView.CancelClicked; PublicView.Task TimerFires] in
  exists s,
    PublicView.enviarMensaje asking nobody = Some s
    /\ (PublicView.enviando (PublicView.shown (PublicView.happenings hs s)) = true
        <-> pc (PublicView.stream (PublicView.happenings hs s)) <> Settled).
Proof.
  cbn zeta.
  destruct (PublicView.enviarMensaje asking nobody) as [s|] eqn:Hs;
    [|vm_compute in Hs; discriminate Hs].
  exists s. split; [reflexivity|].
  apply (busy_while_streaming asking nobody s _ Hs).
Defined.

Lemma answer_shows_stream_witness :
  let hs := [PublicView.Task (Response 200 "OK" true);
             PublicView.Task (Chunk (wire ["event: token"; "data: Hola"; ""]));
             PublicView.Task TimerFires; PublicView.Task EndOfData] in
  Forall (fun m => (Msg.id m < PublicView.mensajeIdCounter asking)%Z)
    (PublicView.mensajes asking)
  /\ exists s a,
       PublicView.enviarMensaje asking nobody = Some s
       /\ List.last (PublicView.mensajes (PublicView.shown (PublicView.happenings hs s))) a
          = a
       /\ Msg.id a = 2%Z
       /\ PublicView.respuestaCompleta (PublicView.shown (PublicView.happenings hs s))
          = token_text (PublicView.stream (PublicView.happenings hs s)).
Proof.
  cbn zeta.
  assert (H : Forall (fun m => (Msg.id m < PublicView.mensajeIdCounter asking)%Z)
                (PublicView.mensajes asking))
    by (constructor; [cbn; lia | constructor]).
  split; [exact H|].
  destruct (PublicView.enviarMensaje asking nobody) as [s|] eqn:Hs;
    [|vm_compute in Hs; discriminate Hs].
  exists s.
  destruct (answer_shows_stream asking nobody s
              [PublicView.Task (Response 200 "OK" true);
               PublicView.Task (Chunk (wire ["event: token"; "data: Hola"; ""]));
               PublicView.Task TimerFires; PublicView.Task EndOfData] H Hs)
    as (a & H1 & H2 & _ & _ & _ & H3).
  exists a. split; [reflexivity|]. split; [|split; [exact H2 | exact H3]].
  rewrite H1, last_of_app by discriminate. reflexivity.
Defined.
